(** * Lending ledger of the library management backend (backend/server.py)

    A shallow embedding of the borrowing endpoints ([borrow_book],
    [return_book], [get_overdue_books]), of the catalog endpoints that write
    the [books] collection, and of the scoring endpoints
    ([get_book_recommendations], [get_overdue_predictions]).

    Modelling conventions.
    - A MongoDB collection is the list of its documents in insertion order;
      [find_one] and [update_one] act on the first document matching the
      filter, [insert_one] appends, [to_list n] keeps at most [n] documents.
    - A [datetime] is the number of microseconds since [datetime.min]; the
      arithmetic of [timedelta] is integer arithmetic on microseconds and
      [.days] is the floor quotient by one day.  One request reads the clock
      at a single instant [now].
    - [uuid.uuid4()] is an input of the operation that draws it.
    - A Python [float] is an exact rational ([Q]); every float of the
      modelled code is a short decimal or an integer.
    - An endpoint is a computation in a state-and-exception monad over the
      three collections; [raise HTTPException(...)] is [raise]. *)

From Stdlib Require Import ZArith QArith Lia.
From stdpp Require Import base decidable option list sorting gmap strings pretty.

Local Open Scope Z_scope.

(** ** Pydantic models *)

Module User.
Record t := mk {
  id : string;
  name : string;
  email : string;
  role : string;
  password_hash : string;
  created_at : Z;
  reading_history : list string;
  current_borrowings : list string
}.
End User.

Module Book.
Record t := mk {
  id : string;
  title : string;
  author : string;
  isbn : string;
  genre : string;
  publication_year : Z;
  description : string;
  total_copies : Z;
  available_copies : Z;
  tags : list string;
  created_at : Z
}.
End Book.

Module BookCreate.
Record t := mk {
  title : string;
  author : string;
  isbn : string;
  genre : string;
  publication_year : Z;
  description : string;
  total_copies : Z;
  tags : list string
}.
End BookCreate.

Module BookUpdate.
Record t := mk {
  title : option string;
  author : option string;
  isbn : option string;
  genre : option string;
  publication_year : option Z;
  description : option string;
  total_copies : option Z;
  tags : option (list string)
}.
End BookUpdate.

(** [BorrowRecord.status]: "borrowed", "returned", "overdue". *)
Inductive Status := borrowed | returned | overdue.

Global Instance Status_eq_dec : EqDecision Status.
Proof. solve_decision. Defined.

Module BorrowRecord.
Record t := mk {
  id : string;
  user_id : string;
  book_id : string;
  borrowed_at : Z;
  due_date : Z;
  returned_at : option Z;
  status : Status;
  fine_amount : Q
}.
End BorrowRecord.

Module BorrowRequest.
Record t := mk {
  book_id : string;
  borrow_days : Z
}.
(** [borrow_days: int = 14]: the value of the field when the request body
    omits it. *)
Definition parse (book_id : string) (borrow_days : option Z) : t :=
  mk book_id (default 14 borrow_days).
End BorrowRequest.

Module ReturnRequest.
Record t := mk { borrow_id : string }.
End ReturnRequest.

Module BookRecommendation.
Record t := mk {
  book_id : string;
  title : string;
  author : string;
  similarity_score : Q;
  reason : string
}.
End BookRecommendation.

Module OverduePrediction.
Record t := mk {
  borrow_id : string;
  user_id : string;
  book_title : string;
  probability : Q;
  risk_level : string
}.
End OverduePrediction.

(** ** Time *)

Definition day : Z := 86400 * 1000000.

(** [datetime.max] is the last microsecond of 9999-12-31, day 3652059. *)
Definition datetime_max : Z := 3652059 * day - 1.

(** [timedelta.days] *)
Definition days (delta : Z) : Z := delta / day.

(** ** Exceptions and the endpoint monad *)

Inductive exn :=
| HTTPException (status_code : Z) (detail : string)
| OverflowError
| ValueError
| TypeError.

Inductive result (A : Type) :=
| Ok (a : A)
| Raise (e : exn).
Arguments Ok {A} a.
Arguments Raise {A} e.

Record Store := mkStore {
  users : list User.t;
  books : list Book.t;
  borrows : list BorrowRecord.t
}.

Definition M (A : Type) : Type := Store -> result A * Store.

Definition ret {A} (a : A) : M A := fun s => (Ok a, s).

Definition raise {A} (e : exn) : M A := fun s => (Raise e, s).

Definition bind {A B} (c : M A) (k : A -> M B) : M B :=
  fun s => match c s with
           | (Ok a, s') => k a s'
           | (Raise e, s') => (Raise e, s')
           end.

Definition gets {A} (f : Store -> A) : M A := fun s => (Ok (f s), s).

Definition modify (f : Store -> Store) : M unit := fun s => (Ok tt, f s).

Notation "'let*' x ':=' c 'in' k" := (bind c (fun x => k))
  (at level 10, x name, c at level 100, k at level 200).
Notation "c ';;' k" := (bind c (fun _ => k))
  (at level 100, k at level 200, right associativity).

(** ** Collection primitives *)

Section Collection.
Context {A : Type}.

(** [find_one(filter)]: the first matching document. *)
Definition find_one (p : A -> bool) (c : list A) : option A :=
  List.find p c.

(** [update_one(filter, update)]: rewrites the first matching document. *)
Fixpoint update_one (p : A -> bool) (f : A -> A) (c : list A) : list A :=
  match c with
  | [] => []
  | d :: c' => if p d then f d :: c' else d :: update_one p f c'
  end.

(** [delete_one(filter)]: removes the first matching document; the second
    component is [deleted_count]. *)
Fixpoint delete_one (p : A -> bool) (c : list A) : list A * Z :=
  match c with
  | [] => ([], 0)
  | d :: c' =>
      if p d then (c', 1)
      else let '(c'', n) := delete_one p c' in (d :: c'', n)
  end.

Definition insert_one (d : A) (c : list A) : list A := c ++ [d].

Definition find (p : A -> bool) (c : list A) : list A := List.filter p c.

(** [cursor.to_list(length)] *)
Definition to_list (n : nat) (c : list A) : list A := take n c.

Definition count_documents (p : A -> bool) (c : list A) : Z :=
  Z.of_nat (length (List.filter p c)).
End Collection.

Definition set_users (f : list User.t -> list User.t) (s : Store) : Store :=
  mkStore (f (users s)) (books s) (borrows s).
Definition set_books (f : list Book.t -> list Book.t) (s : Store) : Store :=
  mkStore (users s) (f (books s)) (borrows s).
Definition set_borrows
    (f : list BorrowRecord.t -> list BorrowRecord.t) (s : Store) : Store :=
  mkStore (users s) (books s) (f (borrows s)).

(** Filters of the form [{"id": x}]. *)
Definition user_has_id (x : string) (u : User.t) : bool :=
  bool_decide (User.id u = x).
Definition book_has_id (x : string) (b : Book.t) : bool :=
  bool_decide (Book.id b = x).
Definition borrow_has_id (x : string) (r : BorrowRecord.t) : bool :=
  bool_decide (BorrowRecord.id r = x).

(** ** Update operators *)

(** [{"$inc": {"available_copies": n}}] *)
Definition inc_available_copies (n : Z) (b : Book.t) : Book.t :=
  Book.mk (Book.id b) (Book.title b) (Book.author b) (Book.isbn b)
    (Book.genre b) (Book.publication_year b) (Book.description b)
    (Book.total_copies b) (Book.available_copies b + n) (Book.tags b)
    (Book.created_at b).

(** [{"$set": {"status": st}}] *)
Definition set_status (st : Status) (r : BorrowRecord.t) : BorrowRecord.t :=
  BorrowRecord.mk (BorrowRecord.id r) (BorrowRecord.user_id r)
    (BorrowRecord.book_id r) (BorrowRecord.borrowed_at r)
    (BorrowRecord.due_date r) (BorrowRecord.returned_at r) st
    (BorrowRecord.fine_amount r).

(** [{"$set": {"returned_at": t, "status": "returned", "fine_amount": f}}] *)
Definition set_returned (t : Z) (f : Q) (r : BorrowRecord.t) : BorrowRecord.t :=
  BorrowRecord.mk (BorrowRecord.id r) (BorrowRecord.user_id r)
    (BorrowRecord.book_id r) (BorrowRecord.borrowed_at r)
    (BorrowRecord.due_date r) (Some t) returned f.

(** [{"$push": {"current_borrowings": x}}] *)
Definition push_current_borrowings (x : string) (u : User.t) : User.t :=
  User.mk (User.id u) (User.name u) (User.email u) (User.role u)
    (User.password_hash u) (User.created_at u) (User.reading_history u)
    (User.current_borrowings u ++ [x]).

(** [{"$pull": {"current_borrowings": x}, "$push": {"reading_history": y}}] *)
Definition pull_push_on_return (x y : string) (u : User.t) : User.t :=
  User.mk (User.id u) (User.name u) (User.email u) (User.role u)
    (User.password_hash u) (User.created_at u) (User.reading_history u ++ [y])
    (List.filter (fun z => negb (bool_decide (z = x))) (User.current_borrowings u)).

(** [{"$set": update_data}] with [update_data] the fields of the
    [BookUpdate] that are not [None]. *)
Definition set_book_fields (d : BookUpdate.t) (b : Book.t) : Book.t :=
  Book.mk (Book.id b)
    (default (Book.title b) (BookUpdate.title d))
    (default (Book.author b) (BookUpdate.author d))
    (default (Book.isbn b) (BookUpdate.isbn d))
    (default (Book.genre b) (BookUpdate.genre d))
    (default (Book.publication_year b) (BookUpdate.publication_year d))
    (default (Book.description b) (BookUpdate.description d))
    (default (Book.total_copies b) (BookUpdate.total_copies d))
    (Book.available_copies b)
    (default (Book.tags b) (BookUpdate.tags d))
    (Book.created_at b).

(** [update_data] is empty. *)
Definition update_data_empty (d : BookUpdate.t) : bool :=
  match d with
  | BookUpdate.mk None None None None None None None None => true
  | _ => false
  end.

(** ** Loops *)

(** [for x in l: body(x)] *)
Fixpoint for_each {A} (l : list A) (body : A -> M unit) : M unit :=
  match l with
  | [] => ret tt
  | x :: l' => body x ;; for_each l' body
  end.

(** [out = []; for x in l: out.append(body(x))] *)
Fixpoint for_collect {A B} (l : list A) (body : A -> M B) : M (list B) :=
  match l with
  | [] => ret []
  | x :: l' =>
      let* y := body x in
      let* ys := for_collect l' body in
      ret (y :: ys)
  end.

(** ** Date arithmetic of [borrow_book] *)

(** [timedelta(days=d)]: the constructor refuses more than 999999999 days
    on either side. *)
Definition timedelta_days (d : Z) : result Z :=
  if (Z.abs d <=? 999999999) then Ok (d * day) else Raise OverflowError.

(** [datetime + timedelta]: the sum has to be a [datetime]. *)
Definition datetime_add (t delta : Z) : result Z :=
  if (0 <=? t + delta) && (t + delta <=? datetime_max)
  then Ok (t + delta) else Raise OverflowError.

Definition lift {A} (r : result A) : M A := fun s => (r, s).

(** ** Catalog endpoints *)

Definition is_librarian (u : User.t) : bool :=
  bool_decide (User.role u = "librarian").

Definition create_book (new_id : string) (now : Z)
    (book_data : BookCreate.t) (current_user : User.t) : M Book.t :=
  if negb (is_librarian current_user)
  then raise (HTTPException 403 "Only librarians can add books")
  else
    let book :=
      Book.mk new_id (BookCreate.title book_data) (BookCreate.author book_data)
        (BookCreate.isbn book_data) (BookCreate.genre book_data)
        (BookCreate.publication_year book_data)
        (BookCreate.description book_data)
        (BookCreate.total_copies book_data)
        (BookCreate.total_copies book_data)
        (BookCreate.tags book_data) now in
    modify (set_books (insert_one book)) ;;
    ret book.

Definition update_book (book_id : string) (book_data : BookUpdate.t)
    (current_user : User.t) : M Book.t :=
  if negb (is_librarian current_user)
  then raise (HTTPException 403 "Only librarians can update books")
  else
    let* book := gets (fun s => find_one (book_has_id book_id) (books s)) in
    match book with
    | None => raise (HTTPException 404 "Book not found")
    | Some book =>
        if negb (update_data_empty book_data) then
          modify (set_books
                    (update_one (book_has_id book_id)
                       (set_book_fields book_data))) ;;
          let* updated_book :=
            gets (fun s => find_one (book_has_id book_id) (books s)) in
          match updated_book with
          | Some b => ret b
          | None => raise TypeError
          end
        else ret book
    end.

Definition delete_book (book_id : string) (current_user : User.t) : M string :=
  if negb (is_librarian current_user)
  then raise (HTTPException 403 "Only librarians can delete books")
  else
    let* deleted_count :=
      (fun s =>
         let '(c, n) := delete_one (book_has_id book_id) (books s) in
         (Ok n, set_books (fun _ => c) s)) in
    if deleted_count =? 0
    then raise (HTTPException 404 "Book not found")
    else ret "Book deleted successfully".

(** ** Borrowing endpoints *)

(** The error kinds of the ledger, as the endpoints raise them. *)
Definition NotFound_book : exn := HTTPException 404 "Book not found".
Definition Exhausted : exn := HTTPException 400 "Book not available".
Definition AlreadyBorrowed : exn :=
  HTTPException 400 "You already have this book borrowed".
Definition NotFound_borrow : exn := HTTPException 404 "Borrow record not found".
Definition Forbidden : exn :=
  HTTPException 403 "Not authorized to return this book".
Definition AlreadyReturned : exn := HTTPException 400 "Book already returned".

(** The filter [{"user_id": u, "book_id": b, "status": "borrowed"}]. *)
Definition existing_borrow_filter (u b : string) (r : BorrowRecord.t) : bool :=
  bool_decide (BorrowRecord.user_id r = u)
  && bool_decide (BorrowRecord.book_id r = b)
  && bool_decide (BorrowRecord.status r = borrowed).

Definition borrow_book (new_id : string) (now : Z)
    (borrow_data : BorrowRequest.t) (current_user : User.t)
    : M BorrowRecord.t :=
  let* book :=
    gets (fun s => find_one (book_has_id (BorrowRequest.book_id borrow_data))
                     (books s)) in
  match book with
  | None => raise NotFound_book
  | Some book =>
      if Book.available_copies book <=? 0 then raise Exhausted
      else
        let* existing_borrow :=
          gets (fun s =>
                  find_one
                    (existing_borrow_filter (User.id current_user)
                       (BorrowRequest.book_id borrow_data))
                    (borrows s)) in
        match existing_borrow with
        | Some _ => raise AlreadyBorrowed
        | None =>
            let* delta :=
              lift (timedelta_days (BorrowRequest.borrow_days borrow_data)) in
            let* due_date := lift (datetime_add now delta) in
            let borrow_record :=
              BorrowRecord.mk new_id (User.id current_user)
                (BorrowRequest.book_id borrow_data) now due_date None
                borrowed 0.0%Q in
            modify (set_books
                      (update_one
                         (book_has_id (BorrowRequest.book_id borrow_data))
                         (inc_available_copies (-1)))) ;;
            modify (set_users
                      (update_one (user_has_id (User.id current_user))
                         (push_current_borrowings new_id))) ;;
            modify (set_borrows (insert_one borrow_record)) ;;
            ret borrow_record
        end
  end.

(** [$1 per day] *)
Definition per_day_rate : Q := 1.0%Q.

(** Lines 366-370 of [return_book]. *)
Definition fine_on_return (return_date due_date : Z) : Q :=
  if due_date <? return_date
  then (inject_Z (days (return_date - due_date)) * per_day_rate)%Q
  else 0.0%Q.

Definition return_book (now : Z) (return_data : ReturnRequest.t)
    (current_user : User.t) : M (string * Q) :=
  let* borrow_record :=
    gets (fun s =>
            find_one (borrow_has_id (ReturnRequest.borrow_id return_data))
              (borrows s)) in
  match borrow_record with
  | None => raise NotFound_borrow
  | Some borrow_record =>
      if negb (bool_decide
                 (BorrowRecord.user_id borrow_record = User.id current_user))
         && negb (is_librarian current_user)
      then raise Forbidden
      else if bool_decide (BorrowRecord.status borrow_record = returned)
      then raise AlreadyReturned
      else
        let return_date := now in
        let fine_amount :=
          fine_on_return return_date (BorrowRecord.due_date borrow_record) in
        modify (set_borrows
                  (update_one
                     (borrow_has_id (ReturnRequest.borrow_id return_data))
                     (set_returned return_date fine_amount))) ;;
        modify (set_books
                  (update_one
                     (book_has_id (BorrowRecord.book_id borrow_record))
                     (inc_available_copies 1))) ;;
        modify (set_users
                  (update_one
                     (user_has_id (BorrowRecord.user_id borrow_record))
                     (pull_push_on_return
                        (ReturnRequest.borrow_id return_data)
                        (BorrowRecord.book_id borrow_record)))) ;;
        ret ("Book returned successfully", fine_amount)
  end.

(** An element of the answer of [get_overdue_books]: the borrow document as
    it was read ([**borrow]) and the added keys. *)
Module OverdueEntry.
Record t := mk {
  borrow : BorrowRecord.t;
  book_title : string;
  book_author : string;
  user_name : string;
  user_email : string;
  overdue_days : Z;
  calculated_fine : Q
}.
End OverdueEntry.

(** The filter [{"status": "borrowed", "due_date": {"$lt": current_time}}]. *)
Definition overdue_filter (current_time : Z) (r : BorrowRecord.t) : bool :=
  bool_decide (BorrowRecord.status r = borrowed)
  && (BorrowRecord.due_date r <? current_time).

Definition get_overdue_books (now : Z) (current_user : User.t)
    : M (list OverdueEntry.t) :=
  if negb (is_librarian current_user)
  then raise (HTTPException 403 "Only librarians can view overdue books")
  else
    let current_time := now in
    let* overdue_borrows :=
      gets (fun s => to_list 1000 (find (overdue_filter current_time) (borrows s))) in
    for_each overdue_borrows (fun borrow =>
      modify (set_borrows
                (update_one (borrow_has_id (BorrowRecord.id borrow))
                   (set_status overdue)))) ;;
    for_collect overdue_borrows (fun borrow =>
      let* book :=
        gets (fun s => find_one (book_has_id (BorrowRecord.book_id borrow))
                         (books s)) in
      let* user :=
        gets (fun s => find_one (user_has_id (BorrowRecord.user_id borrow))
                         (users s)) in
      let overdue_days := days (current_time - BorrowRecord.due_date borrow) in
      let fine_amount := (inject_Z overdue_days * 1.0)%Q in
      ret (OverdueEntry.mk borrow
             (from_option Book.title "Unknown" book)
             (from_option Book.author "Unknown" book)
             (from_option User.name "Unknown" user)
             (from_option User.email "Unknown" user)
             overdue_days fine_amount)).

(** ** Sorting

    [list.sort(key=k, reverse=True)] and a cursor sorted by a descending
    key: the result is ordered by decreasing key and documents with equal
    keys keep the order they had. *)

Section Sort.
Context {A K : Type} (key : A -> K) (leb : K -> K -> bool).

(** [x] stood before every element of [l] in the unsorted list. *)
Fixpoint insert_desc (x : A) (l : list A) : list A :=
  match l with
  | [] => [x]
  | y :: l' =>
      if leb (key y) (key x) then x :: l else y :: insert_desc x l'
  end.

Definition sort_desc (l : list A) : list A := foldr insert_desc [] l.

(** [a] may stand before [b] in a list sorted by decreasing key. *)
Definition descending (a b : A) : Prop := leb (key b) (key a) = true.
End Sort.

(** [l[:k]] *)
Definition slice_to {A} (k : Z) (l : list A) : list A :=
  if 0 <=? k then take (Z.to_nat k) l
  else take (length l - Z.to_nat (- k)) l.

(** ** Recommendations *)

(** [cursor.limit(n)]: zero is no limit, a negative [n] limits to [-n]. *)
Definition cursor_limit {A} (n : Z) (c : list A) : list A :=
  if n =? 0 then c else take (Z.abs_nat n) c.

(** [cursor.to_list(length)] with a [length] that is not a literal: a
    negative one is refused. *)
Definition to_list_checked {A} (n : Z) (c : list A) : result (list A) :=
  if n <? 0 then Raise ValueError else Ok (take (Z.to_nat n) c).

(** Lines 496-501: the genres and the tags of the books read. *)
Definition collect_genres (read_books : list Book.t) : gset string :=
  foldl (fun user_genres book => user_genres ∪ {[ Book.genre book ]}) ∅
    read_books.

Definition collect_tags (read_books : list Book.t) : gset string :=
  foldl (fun user_tags book => user_tags ∪ list_to_set (Book.tags book)) ∅
    read_books.

(** [', '.join(list(common_tags)[:2])]; the order in which a Python set is
    listed is not specified, here it is the order of [elements]. *)
Definition common_tags_text (common_tags : gset string) : string :=
  String.concat ", " (take 2 (elements common_tags)).

(** Lines 508-521: the score and the reasons of one catalog book. *)
Definition score_book (user_genres user_tags : gset string) (book : Book.t)
    : Q * list string :=
  let score := 0.0%Q in
  let reasons := [] in
  let '(score, reasons) :=
    if bool_decide (Book.genre book ∈ user_genres)
    then ((score + 0.5)%Q, reasons ++ ["Similar genre: " +:+ Book.genre book])
    else (score, reasons) in
  let book_tags : gset string := list_to_set (Book.tags book) in
  let common_tags := user_tags ∩ book_tags in
  if bool_decide (common_tags ≠ ∅)
  then ((score + inject_Z (Z.of_nat (size common_tags)) * 0.2)%Q,
        reasons ++ ["Common tags: " +:+ common_tags_text common_tags])
  else (score, reasons).

(** [0 < x] on floats *)
Definition Qpos_bool (x : Q) : bool := negb (Qle_bool x 0).

(** The body of the loop of lines 504-531: the recommendations with one more
    book looked at. *)
Definition recommend_step (reading_history : list string)
    (user_genres user_tags : gset string)
    (recommendations : list BookRecommendation.t) (book : Book.t)
    : list BookRecommendation.t :=
  if bool_decide (Book.id book ∈ reading_history) then recommendations
  else
    let '(score, reasons) := score_book user_genres user_tags book in
    if Qpos_bool score then
      recommendations ++
        [BookRecommendation.mk (Book.id book) (Book.title book)
           (Book.author book) score
           (match reasons with
            | [] => "Recommended for you"
            | _ => String.concat "; " reasons
            end)]
    else recommendations.

Definition popular_recommendation (book : Book.t) : BookRecommendation.t :=
  BookRecommendation.mk (Book.id book) (Book.title book) (Book.author book)
    0.5%Q "Popular book".

Definition get_book_recommendations (user_id : string) (limit : Z)
    : M (list BookRecommendation.t) :=
  let* user := gets (fun s => find_one (user_has_id user_id) (users s)) in
  match user with
  | None => raise (HTTPException 404 "User not found")
  | Some user =>
      let reading_history := User.reading_history user in
      match reading_history with
      | [] =>
          let* popular_books :=
            (fun s =>
               (to_list_checked limit
                  (cursor_limit limit
                     (sort_desc Book.created_at Z.leb (find (fun _ => true) (books s)))),
                s)) in
          ret (foldl (fun recommendations book =>
                        recommendations ++ [popular_recommendation book])
                 [] popular_books)
      | _ :: _ =>
          let* read_books :=
            gets (fun s =>
                    to_list 1000
                      (find (fun b => bool_decide (Book.id b ∈ reading_history))
                         (books s))) in
          let* all_books :=
            gets (fun s => to_list 1000 (find (fun _ => true) (books s))) in
          let user_genres := collect_genres read_books in
          let user_tags := collect_tags read_books in
          let recommendations :=
            foldl (recommend_step reading_history user_genres user_tags)
              [] all_books in
          let recommendations :=
            sort_desc BookRecommendation.similarity_score Qle_bool
              recommendations in
          ret (slice_to limit recommendations)
      end
  end.

(** ** Overdue predictions *)

(** The values a query compares: a date, a string or null. *)
Inductive bson :=
| BNull
| BDate (t : Z)
| BString (s : string).

(** [{field: {"$gt": operand}}]: a comparison operator only matches a value
    of the type of its operand. *)
Definition bson_gt (value operand : bson) : bool :=
  match value, operand with
  | BDate a, BDate b => b <? a
  | BString a, BString b => String.ltb b a
  | _, _ => false
  end.

Definition returned_at_value (r : BorrowRecord.t) : bson :=
  match BorrowRecord.returned_at r with
  | None => BNull
  | Some t => BDate t
  end.

(** The filter of lines 591-595:
    [{"user_id": u, "status": {"$in": ["overdue", "returned"]},
      "returned_at": {"$gt": "$due_date"}}];
    the operand of [$gt] is the string ["$due_date"]. *)
Definition user_overdue_filter (u : string) (r : BorrowRecord.t) : bool :=
  bool_decide (BorrowRecord.user_id r = u)
  && bool_decide (BorrowRecord.status r ∈ [overdue; returned])
  && bson_gt (returned_at_value r) (BString "$due_date").

(** Lines 600-607 *)
Definition probability_of (days_until_due : Z) (overdue_rate : Q) : Q :=
  if days_until_due <=? 0 then 0.95%Q
  else if days_until_due <=? 2 then (0.7 + overdue_rate * 0.2)%Q
  else if days_until_due <=? 5 then (0.4 + overdue_rate * 0.3)%Q
  else overdue_rate.

(** Lines 610-615 *)
Definition risk_level_of (probability : Q) : string :=
  if Qle_bool 0.7 probability then "High"
  else if Qle_bool 0.4 probability then "Medium"
  else "Low".

(** [user_overdue_count / max(user_total_borrows, 1)] *)
Definition overdue_rate_of (user_overdue_count user_total_borrows : Z) : Q :=
  (inject_Z user_overdue_count / inject_Z (Z.max user_total_borrows 1))%Q.

(** The body of the loop of lines 579-624; [None] is [continue]. *)
Definition predict_one (now : Z) (s : Store) (borrow : BorrowRecord.t)
    : option OverduePrediction.t :=
  let user := find_one (user_has_id (BorrowRecord.user_id borrow)) (users s) in
  let book := find_one (book_has_id (BorrowRecord.book_id borrow)) (books s) in
  match user, book with
  | Some user, Some book =>
      let days_until_due := days (BorrowRecord.due_date borrow - now) in
      let user_total_borrows :=
        count_documents
          (fun r => bool_decide
                      (BorrowRecord.user_id r = BorrowRecord.user_id borrow))
          (borrows s) in
      let user_overdue_count :=
        count_documents (user_overdue_filter (BorrowRecord.user_id borrow))
          (borrows s) in
      let overdue_rate :=
        overdue_rate_of user_overdue_count user_total_borrows in
      let probability := probability_of days_until_due overdue_rate in
      let risk_level := risk_level_of probability in
      Some (OverduePrediction.mk (BorrowRecord.id borrow)
              (BorrowRecord.user_id borrow) (Book.title book) probability
              risk_level)
  | _, _ => None
  end.

Definition get_overdue_predictions (now : Z) (current_user : User.t)
    : M (list OverduePrediction.t) :=
  if negb (is_librarian current_user)
  then raise (HTTPException 403 "Only librarians can view analytics")
  else
    let* current_borrows :=
      gets (fun s =>
              to_list 1000
                (find (fun r => bool_decide (BorrowRecord.status r = borrowed))
                   (borrows s))) in
    let* predictions :=
      gets (fun s =>
              foldl (fun predictions borrow =>
                       match predict_one now s borrow with
                       | Some prediction => predictions ++ [prediction]
                       | None => predictions
                       end)
                [] current_borrows) in
    ret (sort_desc OverduePrediction.probability Qle_bool predictions).

(** ** Registration

    [hash_password] (SHA-256) and the token are not modelled:
    [password_hash] stands for [hash_password(user_data.password)]. *)

Module UserRegister.
Record t := mk {
  name : string;
  email : string;
  password : string;
  role : string
}.
End UserRegister.

Definition register (new_id : string) (now : Z) (password_hash : string)
    (user_data : UserRegister.t) : M User.t :=
  let* existing_user :=
    gets (fun s =>
            find_one
              (fun u => bool_decide (User.email u = UserRegister.email user_data))
              (users s)) in
  match existing_user with
  | Some _ => raise (HTTPException 400 "Email already registered")
  | None =>
      let user :=
        User.mk new_id (UserRegister.name user_data)
          (UserRegister.email user_data) (UserRegister.role user_data)
          password_hash now [] [] in
      modify (set_users (insert_one user)) ;;
      ret user
  end.

(** ** The ledger as a transition system *)

Definition empty_store : Store := mkStore [] [] [].

Definition borrow_ids (s : Store) : list string :=
  BorrowRecord.id <$> borrows s.
Definition book_ids (s : Store) : list string := Book.id <$> books s.
Definition user_ids (s : Store) : list string := User.id <$> users s.

(** One request that writes the store.  A [uuid4] identifier is new. *)
Inductive step (s : Store) : Store -> Prop :=
| step_register new_id now password_hash user_data r s' :
    new_id ∉ user_ids s ->
    register new_id now password_hash user_data s = (r, s') ->
    step s s'
| step_create_book new_id now book_data current_user r s' :
    new_id ∉ book_ids s ->
    create_book new_id now book_data current_user s = (r, s') ->
    step s s'
| step_update_book book_id book_data current_user r s' :
    update_book book_id book_data current_user s = (r, s') ->
    step s s'
| step_delete_book book_id current_user r s' :
    delete_book book_id current_user s = (r, s') ->
    step s s'
| step_borrow_book new_id now borrow_data current_user r s' :
    new_id ∉ borrow_ids s ->
    borrow_book new_id now borrow_data current_user s = (r, s') ->
    step s s'
| step_return_book now return_data current_user r s' :
    return_book now return_data current_user s = (r, s') ->
    step s s'
| step_get_overdue_books now current_user r s' :
    get_overdue_books now current_user s = (r, s') ->
    step s s'.

Definition reachable (s : Store) : Prop := rtc step empty_store s.

(** Identifiers are unique in each collection. *)
Definition unique_ids (s : Store) : Prop :=
  NoDup (borrow_ids s) /\ NoDup (book_ids s).

(** ** Availability accounting *)

(** A loan is active while its status is "borrowed" or "overdue". *)
Definition is_active (r : BorrowRecord.t) : bool :=
  bool_decide (BorrowRecord.status r = borrowed)
  || bool_decide (BorrowRecord.status r = overdue).

Definition active_on (book_id : string) (r : BorrowRecord.t) : bool :=
  bool_decide (BorrowRecord.book_id r = book_id) && is_active r.

Definition active_loans (book_id : string) (c : list BorrowRecord.t) : Z :=
  count_documents (active_on book_id) c.

Definition book_consistent (c : list BorrowRecord.t) (b : Book.t) : Prop :=
  0 <= Book.available_copies b <= Book.total_copies b
  /\ Book.available_copies b
     = Book.total_copies b - active_loans (Book.id b) c.

Definition ledger_invariant (s : Store) : Prop :=
  Forall (book_consistent (borrows s)) (books s).

Global Instance book_consistent_dec c b : Decision (book_consistent c b).
Proof. unfold book_consistent. apply _. Defined.

Global Instance ledger_invariant_dec s : Decision (ledger_invariant s).
Proof. unfold ledger_invariant. apply _. Defined.

(** The loans of a user on a book with status "borrowed", and the active
    ones. *)
Definition borrowed_loans (u b : string) (c : list BorrowRecord.t)
    : list BorrowRecord.t :=
  find (existing_borrow_filter u b) c.

Definition active_loans_of (u b : string) (c : list BorrowRecord.t)
    : list BorrowRecord.t :=
  find (fun r => bool_decide (BorrowRecord.user_id r = u) && active_on b r) c.

(** ** The stores the endpoints leave *)

Definition returned_store (now : Z) (return_data : ReturnRequest.t)
    (r : BorrowRecord.t) (s : Store) : Store :=
  mkStore
    (update_one (user_has_id (BorrowRecord.user_id r))
       (pull_push_on_return (ReturnRequest.borrow_id return_data)
          (BorrowRecord.book_id r)) (users s))
    (update_one (book_has_id (BorrowRecord.book_id r))
       (inc_available_copies 1) (books s))
    (update_one (borrow_has_id (ReturnRequest.borrow_id return_data))
       (set_returned now (fine_on_return now (BorrowRecord.due_date r)))
       (borrows s)).

Definition borrowed_store (new_id : string) (borrow_data : BorrowRequest.t)
    (current_user : User.t) (record : BorrowRecord.t) (s : Store) : Store :=
  mkStore
    (update_one (user_has_id (User.id current_user))
       (push_current_borrowings new_id) (users s))
    (update_one (book_has_id (BorrowRequest.book_id borrow_data))
       (inc_available_copies (-1)) (books s))
    (borrows s ++ [record]).

Definition new_record (new_id : string) (now due_date : Z)
    (borrow_data : BorrowRequest.t) (current_user : User.t) : BorrowRecord.t :=
  BorrowRecord.mk new_id (User.id current_user)
    (BorrowRequest.book_id borrow_data) now due_date None borrowed 0.0%Q.

(** The loans [get_overdue_books] reads at [now]. *)
Definition selected (now : Z) (c : list BorrowRecord.t) : list BorrowRecord.t :=
  to_list 1000 (find (overdue_filter now) c).

(** The loop of lines 439-443 on the [borrows] collection. *)
Definition mark_overdue (sel c : list BorrowRecord.t) : list BorrowRecord.t :=
  foldl (fun c r =>
           update_one (borrow_has_id (BorrowRecord.id r)) (set_status overdue) c)
    c sel.

Definition overdue_entry (now : Z) (s : Store) (borrow : BorrowRecord.t)
    : OverdueEntry.t :=
  let book := find_one (book_has_id (BorrowRecord.book_id borrow)) (books s) in
  let user := find_one (user_has_id (BorrowRecord.user_id borrow)) (users s) in
  OverdueEntry.mk borrow
    (from_option Book.title "Unknown" book)
    (from_option Book.author "Unknown" book)
    (from_option User.name "Unknown" user)
    (from_option User.email "Unknown" user)
    (days (now - BorrowRecord.due_date borrow))
    (inject_Z (days (now - BorrowRecord.due_date borrow)) * 1.0)%Q.


(** ** The recommendation rule in the words of the specification *)

(** The books of the history [H] among the documents [c]. *)
Definition history_books (reading_history : list string) (c : list Book.t)
    : list Book.t :=
  List.filter (fun b => bool_decide (Book.id b ∈ reading_history)) c.

(** [user_genres]: the genres of the books read. *)
Definition spec_user_genres (read : list Book.t) : gset string :=
  list_to_set (Book.genre <$> read).

(** [user_tags]: the union of the tags of the books read. *)
Definition spec_user_tags (read : list Book.t) : gset string :=
  list_to_set (read ≫= Book.tags).

(** [score(b) = 0.5·[genre(b) ∈ user_genres] + 0.2·|tags(b) ∩ user_tags|] *)
Definition spec_score (read : list Book.t) (b : Book.t) : Q :=
  ((if bool_decide (Book.genre b ∈ spec_user_genres read) then 0.5 else 0)
   + 0.2 * inject_Z
             (Z.of_nat
                (size ((list_to_set (Book.tags b) : gset string)
                         ∩ spec_user_tags read))))%Q.

(** [b] is not in [H] and [score(b) > 0]. *)
Definition spec_eligible (reading_history : list string)
    (read : list Book.t) (b : Book.t) : bool :=
  negb (bool_decide (Book.id b ∈ reading_history))
  && Qpos_bool (spec_score read b).

(** The recommendation [rec] is the one of the book [b] under the rule. *)
Definition recommends (read : list Book.t) (b : Book.t)
    (rec : BookRecommendation.t) : Prop :=
  BookRecommendation.book_id rec = Book.id b
  /\ BookRecommendation.title rec = Book.title b
  /\ BookRecommendation.author rec = Book.author b
  /\ (BookRecommendation.similarity_score rec == spec_score read b)%Q.

(** ** The overdue rate in the words of the specification *)

(** A loan that was ever overdue or was returned after its due date.  A loan
    that the sweep made overdue before its return was returned after its due
    date. *)
Definition spec_late (r : BorrowRecord.t) : bool :=
  bool_decide (BorrowRecord.status r = overdue)
  || match BorrowRecord.returned_at r with
     | Some t => BorrowRecord.due_date r <? t
     | None => false
     end.

(** [overdue_rate = user_overdue_or_late_count / max(user_total_loan_count, 1)] *)
Definition spec_overdue_rate (u : string) (c : list BorrowRecord.t) : Q :=
  (inject_Z
     (count_documents
        (fun r => bool_decide (BorrowRecord.user_id r = u) && spec_late r) c)
   / inject_Z
       (Z.max
          (count_documents (fun r => bool_decide (BorrowRecord.user_id r = u))
             c) 1))%Q.

(** ** Stores used as examples *)

Module Fixture.
Definition t0 : Z := 730000 * day.

Definition librarian : User.t :=
  User.mk "u-lib" "Lee" "lee@library.org" "librarian" "h0" t0 [] [].
Definition alice : User.t :=
  User.mk "u-alice" "Alice" "alice@example.org" "member" "h1" t0 [] [].
Definition bob : User.t :=
  User.mk "u-bob" "Bob" "bob@example.org" "member" "h2" t0 [] [].

Definition dune_data : BookCreate.t :=
  BookCreate.mk "Dune" "Frank Herbert" "978-0441172719" "Sci-Fi" 1965
    "Desert planet" 2 ["a"; "b"].

(** Three registrations: a librarian and two members. *)
Definition store_staff : Store :=
  (register "u-lib" t0 "h0"
     (UserRegister.mk "Lee" "lee@library.org" "pw0" "librarian")
     empty_store).2.
Definition store_member : Store :=
  (register "u-alice" t0 "h1"
     (UserRegister.mk "Alice" "alice@example.org" "pw1" "member")
     store_staff).2.
Definition store_users : Store :=
  (register "u-bob" t0 "h2"
     (UserRegister.mk "Bob" "bob@example.org" "pw2" "member")
     store_member).2.

(** The librarian has added [dune_data] with two copies. *)
Definition store_catalog : Store :=
  (create_book "b-dune" t0 dune_data librarian store_users).2.

(** Alice has borrowed it for 14 days. *)
Definition store_lent : Store :=
  (borrow_book "l-1" t0 (BorrowRequest.parse "b-dune" None) alice
     store_catalog).2.

(** Alice has given it back five days late. *)
Definition store_back : Store :=
  (return_book (t0 + 19 * day) (ReturnRequest.mk "l-1") alice store_lent).2.

(** Scenario D: a book read and a book [X] of the catalog. *)
Definition book_read : Book.t :=
  Book.mk "b-read" "Read" "Author" "isbn-r" "Sci-Fi" 1970 "" 1 1
    ["a"; "b"] t0.
Definition book_x : Book.t :=
  Book.mk "b-x" "X" "Author" "isbn-x" "Sci-Fi" 1980 "" 1 1 ["b"; "c"] t0.

(** Bob has borrowed the second copy. *)
Definition store_sold_out : Store :=
  (borrow_book "l-2" (t0 + day) (BorrowRequest.parse "b-dune" None) bob
     store_lent).2.

(** The sweep has run three days after Alice's loan was due. *)
Definition store_swept : Store :=
  (get_overdue_books (t0 + 17 * day) librarian store_lent).2.

(** A reading room: one title in 1001 copies and 1001 members who have each
    borrowed one for 14 days. *)
Definition member (i : nat) : User.t :=
  User.mk ("u-" +:+ pretty i) ("Member " +:+ pretty i)
    ("m" +:+ pretty i +:+ "@example.org") "member" "h" t0 [] [].

Definition atlas_data : BookCreate.t :=
  BookCreate.mk "Atlas" "Various" "978-0000000001" "Reference" 2001
    "Maps" 1001 ["maps"].

Definition store_room : Store :=
  (create_book "b-atlas" t0 atlas_data librarian
     (mkStore (librarian :: (member <$> seq 0 1001)) [] [])).2.

Definition store_crowd : Store :=
  foldl (fun s i =>
           (borrow_book ("l-" +:+ pretty i) t0
              (BorrowRequest.parse "b-atlas" None) (member i) s).2)
    store_room (seq 0 1001).

(** After her late return Alice has borrowed the book again. *)
Definition store_again : Store :=
  (borrow_book "l-4" (t0 + 20 * day) (BorrowRequest.parse "b-dune" None)
     alice store_back).2.

(** A catalog update that only sets [total_copies] to 5. *)
Definition five_copies : BookUpdate.t :=
  BookUpdate.mk None None None None None None (Some 5) None.

(** Scenario D as a store: Carol has read [book_read]. *)
Definition carol : User.t :=
  User.mk "u-carol" "Carol" "carol@example.org" "member" "h3" t0
    ["b-read"] [].
Definition store_scenario_d : Store :=
  mkStore [carol] [book_read; book_x] [].

(** A shelf of 1001 volumes of one genre, cataloged one after the other;
    Alice has borrowed and returned the first. *)
Definition volume_data (i : nat) : BookCreate.t :=
  BookCreate.mk ("Volume " +:+ pretty i) "Various" ("isbn-" +:+ pretty i)
    "Reference" 2000 "" 1 ["maps"].

Definition store_shelf_new : Store :=
  foldl (fun s i =>
           (create_book ("k-" +:+ pretty i) (t0 + Z.of_nat i)
              (volume_data i) librarian s).2)
    store_users (seq 0 1001).

Definition store_shelf : Store :=
  (return_book (t0 + 2 * day) (ReturnRequest.mk "s-1") alice
     (borrow_book "s-1" (t0 + day) (BorrowRequest.parse "k-0" None) alice
        store_shelf_new).2).2.

Definition alice_reader : User.t :=
  User.mk "u-alice" "Alice" "alice@example.org" "member" "h1" t0
    ["k-0"] [].

Definition last_volume : Book.t :=
  Book.mk "k-1000" "Volume 1000" "Various" "isbn-1000" "Reference" 2000 ""
    1 1 ["maps"] (t0 + 1000).

(** The loan of the last member. *)
Definition last_loan : BorrowRecord.t :=
  new_record "l-1000" t0 (t0 + 14 * day)
    (BorrowRequest.parse "b-atlas" None) (member 1000).
End Fixture.

(** A loan after the sweep that read [sel]: overdue when its identifier is
    one of those read. *)
Definition swept (sel : list BorrowRecord.t) (r : BorrowRecord.t)
    : BorrowRecord.t :=
  if bool_decide (BorrowRecord.id r ∈ BorrowRecord.id <$> sel)
  then set_status overdue r else r.

(** Two documents that differ at most in [status], the second one being
    overdue when they do. *)
Definition same_but_overdue (r r' : BorrowRecord.t) : Prop :=
  BorrowRecord.id r' = BorrowRecord.id r
  /\ BorrowRecord.user_id r' = BorrowRecord.user_id r
  /\ BorrowRecord.book_id r' = BorrowRecord.book_id r
  /\ BorrowRecord.borrowed_at r' = BorrowRecord.borrowed_at r
  /\ BorrowRecord.due_date r' = BorrowRecord.due_date r
  /\ BorrowRecord.returned_at r' = BorrowRecord.returned_at r
  /\ BorrowRecord.fine_amount r' = BorrowRecord.fine_amount r
  /\ (BorrowRecord.status r' = BorrowRecord.status r
      \/ BorrowRecord.status r' = overdue).

(** * The other endpoints and helpers of backend/server.py *)

(** ** Passwords and login

    [hash_password] is SHA-256 in hexadecimal; the endpoints only compare
    its results, so it is a parameter here.  The token [login] answers
    beside the user is not modelled. *)

Definition verify_password (hash_password : string -> string)
    (password hashed : string) : bool :=
  bool_decide (hash_password password = hashed).

Module UserLogin.
Record t := mk {
  email : string;
  password : string
}.
End UserLogin.

Module UserResponse.
Record t := mk {
  id : string;
  name : string;
  email : string;
  role : string;
  created_at : Z;
  current_borrowings : list string
}.
End UserResponse.

(** The [UserResponse] of a user document. *)
Definition user_response (u : User.t) : UserResponse.t :=
  UserResponse.mk (User.id u) (User.name u) (User.email u) (User.role u)
    (User.created_at u) (User.current_borrowings u).

Definition login (hash_password : string -> string)
    (user_data : UserLogin.t) : M UserResponse.t :=
  let* user :=
    gets (fun s =>
            find_one
              (fun u => bool_decide (User.email u = UserLogin.email user_data))
              (users s)) in
  match user with
  | None => raise (HTTPException 400 "Incorrect email or password")
  | Some user =>
      if negb (verify_password hash_password (UserLogin.password user_data)
                 (User.password_hash user))
      then raise (HTTPException 400 "Incorrect email or password")
      else ret (user_response user)
  end.

(** ** Reading the catalog *)

Definition get_book (book_id : string) : M Book.t :=
  let* book := gets (fun s => find_one (book_has_id book_id) (books s)) in
  match book with
  | None => raise (HTTPException 404 "Book not found")
  | Some book => ret book
  end.

(** [cursor.skip(n)]: a negative [n] is refused. *)
Definition cursor_skip {A} (n : Z) (c : list A) : result (list A) :=
  if n <? 0 then Raise ValueError else Ok (drop (Z.to_nat n) c).

(** The query of [get_books].  [regex] stands for the case-insensitive
    regular-expression match [{"$regex": pattern, "$options": "i"}] of
    MongoDB; on the array [tags] it holds when one element matches.  An
    empty string is no filter ([if search:]). *)
Definition books_query (regex : string -> string -> bool)
    (search genre author : option string) (b : Book.t) : bool :=
  match search with
  | None | Some "" => true
  | Some search =>
      regex search (Book.title b) || regex search (Book.author b)
      || regex search (Book.description b)
      || existsb (regex search) (Book.tags b)
  end
  && match genre with
     | None | Some "" => true
     | Some genre => regex genre (Book.genre b)
     end
  && match author with
     | None | Some "" => true
     | Some author => regex author (Book.author b)
     end.

Definition get_books (regex : string -> string -> bool) (skip limit : Z)
    (search genre author : option string) : M (list Book.t) :=
  let* matching :=
    gets (fun s => find (books_query regex search genre author) (books s)) in
  let* skipped := lift (cursor_skip skip matching) in
  lift (to_list_checked limit (cursor_limit limit skipped)).

(** ** Listing loans and users *)

Module BorrowView.
Record t := mk {
  borrow : BorrowRecord.t;
  book_title : string;
  book_author : string;
  user_name : string
}.
End BorrowView.


Definition get_users (current_user : User.t) : M (list UserResponse.t) :=
  if negb (is_librarian current_user)
  then raise (HTTPException 403 "Only librarians can view users")
  else
    let* users :=
      gets (fun s =>
              to_list 1000
                (find (fun u => bool_decide (User.role u = "member"))
                   (users s))) in
    ret (user_response <$> users).

(** ** Demand forecast *)

Module DemandForecast.
Record t := mk {
  book_id : string;
  title : string;
  predicted_demand : Q;
  confidence : Q
}.
End DemandForecast.

(** [min(a, b)] of Python: [b] when [b < a], else [a]. *)
Definition py_min (a b : Q) : Q := if Qle_bool a b then a else b.

(** The filter [{"book_id": b, "borrowed_at": {"$gte": t}}]. *)
Definition recent_filter (b : string) (t : Z) (r : BorrowRecord.t) : bool :=
  bool_decide (BorrowRecord.book_id r = b) && (t <=? BorrowRecord.borrowed_at r).

(** The clock is read again for every book: [utcnow k] is its reading in
    the turn of the loop for the book at position [k]. *)
Definition get_demand_forecast (utcnow : nat -> Z) (current_user : User.t)
    : M (list DemandForecast.t) :=
  if negb (is_librarian current_user)
  then raise (HTTPException 403 "Only librarians can view analytics")
  else
    let* books := gets (fun s => to_list 1000 (find (fun _ => true) (books s))) in
    let* forecasts :=
      for_collect (imap (fun k book => (k, book)) books) (fun turn =>
        let book := turn.2 in
        let* thirty_days_ago :=
          lift (datetime_add (utcnow turn.1) (- (30 * day))) in
        let* recent_borrows :=
          gets (fun s =>
                  count_documents (recent_filter (Book.id book) thirty_days_ago)
                    (borrows s)) in
        let predicted_demand := recent_borrows * 2 in
        let confidence :=
          py_min 0.9 (0.5 + inject_Z recent_borrows * 0.1)%Q in
        ret (DemandForecast.mk (Book.id book) (Book.title book)
               (inject_Z predicted_demand) confidence)) in
    ret (slice_to 20
           (sort_desc DemandForecast.predicted_demand Qle_bool forecasts)).

(** ** Dashboard *)

Module DashboardStats.
Record t := mk {
  total_books : Z;
  total_users : Z;
  active_borrows : Z;
  overdue_books : Z;
  recent_activity : list BorrowRecord.t
}.
End DashboardStats.

Definition get_dashboard_stats (current_user : User.t) : M DashboardStats.t :=
  if negb (is_librarian current_user)
  then raise (HTTPException 403 "Only librarians can view dashboard")
  else
    let* total_books := gets (fun s => count_documents (fun _ => true) (books s)) in
    let* total_users :=
      gets (fun s =>
              count_documents (fun u => bool_decide (User.role u = "member"))
                (users s)) in
    let* active_borrows :=
      gets (fun s =>
              count_documents
                (fun r => bool_decide (BorrowRecord.status r = borrowed))
                (borrows s)) in
    let* overdue_books :=
      gets (fun s =>
              count_documents
                (fun r => bool_decide (BorrowRecord.status r = overdue))
                (borrows s)) in
    let* recent_borrows :=
      gets (fun s =>
              to_list 5
                (cursor_limit 5
                   (sort_desc BorrowRecord.borrowed_at Z.leb
                      (find (fun _ => true) (borrows s))))) in
    ret (DashboardStats.mk total_books total_users active_borrows
           overdue_books recent_borrows).

(** ** [clean_mongo_doc]

    The values it distinguishes: a dict (its items in order, keys distinct),
    a list, anything else. *)

Inductive pyval :=
| PDict (items : list (string * pyval))
| PList (elems : list pyval)
| PAtom (a : string).

Fixpoint clean_mongo_doc (doc : pyval) : pyval :=
  match doc with
  | PDict items =>
      PDict (List.filter (fun kv => negb (bool_decide (kv.1 = "_id"))) items)
  | PList elems => PList (List.map clean_mongo_doc elems)
  | PAtom a => PAtom a
  end.

(** No dict reached through lists alone has the key ["_id"]. *)
Fixpoint no_object_id (doc : pyval) : Prop :=
  match doc with
  | PDict items => "_id" ∉ items.*1
  | PList elems => foldr (fun d P => no_object_id d /\ P) True elems
  | PAtom _ => True
  end.

(** ** What the read-only loops build *)


(** [recent_borrows] of lines 549-552 for a book. *)
Definition recent_borrows_of (thirty_days_ago : Z) (s : Store) (book : Book.t)
    : Z :=
  count_documents (recent_filter (Book.id book) thirty_days_ago) (borrows s).

(** The forecast lines 554-563 build for a book. *)
Definition forecast_for (thirty_days_ago : Z) (s : Store) (book : Book.t)
    : DemandForecast.t :=
  let recent_borrows := recent_borrows_of thirty_days_ago s book in
  DemandForecast.mk (Book.id book) (Book.title book)
    (inject_Z (recent_borrows * 2))
    (py_min 0.9 (0.5 + inject_Z recent_borrows * 0.1)%Q).

(** ** States of a loan *)

(** The changes of status the endpoints make. *)
Definition status_moves (st st' : Status) : Prop :=
  st' = st
  \/ (st = borrowed /\ st' = overdue)
  \/ (st = borrowed /\ st' = returned)
  \/ (st = overdue /\ st' = returned).

(** A loan and what it may have become: the same identifier, user, book,
    borrowing date and due date, and a status reached by the moves above. *)
Definition loan_evolves (r r' : BorrowRecord.t) : Prop :=
  BorrowRecord.id r' = BorrowRecord.id r
  /\ BorrowRecord.user_id r' = BorrowRecord.user_id r
  /\ BorrowRecord.book_id r' = BorrowRecord.book_id r
  /\ BorrowRecord.borrowed_at r' = BorrowRecord.borrowed_at r
  /\ BorrowRecord.due_date r' = BorrowRecord.due_date r
  /\ status_moves (BorrowRecord.status r) (BorrowRecord.status r').

(** A loan record as its own timestamps require it. *)
Definition loan_coherent (r : BorrowRecord.t) : Prop :=
  match BorrowRecord.returned_at r with
  | None =>
      BorrowRecord.status r <> returned
      /\ BorrowRecord.fine_amount r = 0.0%Q
  | Some t =>
      BorrowRecord.status r = returned
      /\ BorrowRecord.fine_amount r = fine_on_return t (BorrowRecord.due_date r)
  end.

(** What the [users] documents say about loans: every identifier in
    [current_borrowings] is a loan of that user that is not returned, and
    every entry of [reading_history] is the book of a returned loan of that
    user. *)
Definition user_lists_sound (s : Store) (u : User.t) : Prop :=
  (forall x, x ∈ User.current_borrowings u ->
     exists r, r ∈ borrows s /\ BorrowRecord.id r = x
               /\ BorrowRecord.user_id r = User.id u
               /\ BorrowRecord.status r <> returned)
  /\ (forall b, b ∈ User.reading_history u ->
        exists r, r ∈ borrows s /\ BorrowRecord.book_id r = b
                  /\ BorrowRecord.user_id r = User.id u
                  /\ BorrowRecord.status r = returned).

(** Every loan of [c] has a counterpart in [c'] with the same identifier,
    user and book, returned exactly when it was. *)
Definition loans_persist (c c' : list BorrowRecord.t) : Prop :=
  forall r, r ∈ c ->
    exists r', r' ∈ c'
      /\ BorrowRecord.id r' = BorrowRecord.id r
      /\ BorrowRecord.user_id r' = BorrowRecord.user_id r
      /\ BorrowRecord.book_id r' = BorrowRecord.book_id r
      /\ (BorrowRecord.status r' = returned <-> BorrowRecord.status r = returned).

(** The requests other than a catalog update that sets [total_copies] and
    the creation of a book with a negative [total_copies].  The [uuid4]
    identifier of a new book is new for the loans too. *)
Inductive ledger_step (s : Store) : Store -> Prop :=
| ledger_register new_id now password_hash user_data r s' :
    new_id ∉ user_ids s ->
    register new_id now password_hash user_data s = (r, s') ->
    ledger_step s s'
| ledger_create_book new_id now book_data current_user r s' :
    new_id ∉ book_ids s ->
    new_id ∉ BorrowRecord.book_id <$> borrows s ->
    0 <= BookCreate.total_copies book_data ->
    create_book new_id now book_data current_user s = (r, s') ->
    ledger_step s s'
| ledger_update_book book_id book_data current_user r s' :
    BookUpdate.total_copies book_data = None ->
    update_book book_id book_data current_user s = (r, s') ->
    ledger_step s s'
| ledger_delete_book book_id current_user r s' :
    delete_book book_id current_user s = (r, s') ->
    ledger_step s s'
| ledger_borrow_book new_id now borrow_data current_user r s' :
    new_id ∉ borrow_ids s ->
    borrow_book new_id now borrow_data current_user s = (r, s') ->
    ledger_step s s'
| ledger_return_book now return_data current_user r s' :
    return_book now return_data current_user s = (r, s') ->
    ledger_step s s'
| ledger_get_overdue_books now current_user r s' :
    get_overdue_books now current_user s = (r, s') ->
    ledger_step s s'.

(** ** More example stores *)

Module Desk.
(** A hash that is good enough for an example. *)
Definition toy_hash (p : string) : string := "#" +:+ p.

Definition dana_data : UserRegister.t :=
  UserRegister.mk "Dana" "dana@example.org" "s3cret" "member".

(** Dana has registered in the store where Alice holds a copy. *)
Definition store_dana : Store :=
  (register "u-dana" Fixture.t0 (toy_hash "s3cret") dana_data
     Fixture.store_lent).2.

Definition dune : Book.t :=
  Book.mk "b-dune" "Dune" "Frank Herbert" "978-0441172719" "Sci-Fi" 1965
    "Desert planet" 2 1 ["a"; "b"] Fixture.t0.

Definition loan_1 : BorrowRecord.t :=
  new_record "l-1" Fixture.t0 (Fixture.t0 + 14 * day)
    (BorrowRequest.parse "b-dune" None) Fixture.alice.

(** The librarian has deleted the book that Alice holds. *)
Definition store_orphan : Store :=
  (delete_book "b-dune" Fixture.librarian Fixture.store_lent).2.
End Desk.
(** * Properties *)

(** ** Collections *)

Section CollectionFacts.
Context {A : Type}.
Implicit Types (p : A -> bool) (f : A -> A) (c : list A).

Lemma find_one_Some p c d :
  find_one p c = Some d -> d ∈ c /\ p d = true.
Proof.
  unfold find_one. intros H. apply find_some in H as [Hin Hp].
  split; [by apply list_elem_of_In | done].
Qed.

Lemma find_one_None p c d :
  find_one p c = None -> d ∈ c -> p d = false.
Proof.
  unfold find_one. intros H Hin.
  eapply find_none; [done | by apply list_elem_of_In].
Qed.


Lemma update_one_fmap {B} (g : A -> B) p f c :
  (forall d, g (f d) = g d) -> g <$> update_one p f c = g <$> c.
Proof.
  intros Hg. induction c as [|x c IH]; cbn [update_one]; [done|].
  destruct (p x); rewrite !fmap_cons, ?Hg, ?IH; done.
Qed.

Lemma update_one_absent p f c :
  find_one p c = None -> update_one p f c = c.
Proof.
  unfold find_one. induction c as [|x c IH]; simpl; [done|].
  destruct (p x); [done|]. intros H. by rewrite IH.
Qed.

Lemma update_one_length p f c : length (update_one p f c) = length c.
Proof.
  induction c as [|x c IH]; simpl; [done|].
  destruct (p x); simpl; by rewrite ?IH.
Qed.

(** What [update_one] rewrites is the document [find_one] returns. *)
Lemma update_one_split p f c d :
  find_one p c = Some d ->
  exists c1 c2,
    c = c1 ++ d :: c2 /\ update_one p f c = c1 ++ f d :: c2
    /\ Forall (fun x => p x = false) c1.
Proof.
  unfold find_one. induction c as [|x c IH]; simpl; [done|].
  destruct (p x) eqn:Hpx.
  - intros [= ->]. by exists [], c.
  - intros H. destruct (IH H) as (c1 & c2 & -> & -> & Hc1).
    exists (x :: c1), c2. repeat split; by try constructor.
Qed.

Lemma find_one_update_one p f c d :
  find_one p c = Some d -> p (f d) = true ->
  find_one p (update_one p f c) = Some (f d).
Proof.
  unfold find_one. induction c as [|x c IH]; simpl; [done|].
  destruct (p x) eqn:Hpx.
  - intros [= ->] Hf. simpl. by rewrite Hf.
  - intros H Hf. simpl. rewrite Hpx. auto.
Qed.

(** A document that the filter does not match stays where it is. *)
Lemma update_one_other p f c x :
  x ∈ c -> p x = false -> x ∈ update_one p f c.
Proof.
  intros Hin Hx. induction c as [|y c IH]; simpl; [done|].
  apply elem_of_cons in Hin as [->|Hin].
  - rewrite Hx. by left.
  - destruct (p y); right; auto.
Qed.

Lemma count_documents_app p c c' :
  count_documents p (c ++ c') = count_documents p c + count_documents p c'.
Proof.
  unfold count_documents. rewrite List.filter_app, length_app. lia.
Qed.

Lemma count_documents_nonneg p c : 0 <= count_documents p c.
Proof. unfold count_documents. lia. Qed.

Lemma count_documents_cons p x c :
  count_documents p (x :: c)
  = (if p x then 1 else 0) + count_documents p c.
Proof.
  unfold count_documents. simpl. destruct (p x); simpl; lia.
Qed.

Lemma delete_one_sublist p c : sublist (delete_one p c).1 c.
Proof.
  induction c as [|x c IH]; simpl; [done|].
  destruct (p x); simpl.
  - by apply sublist_cons.
  - destruct (delete_one p c) as [c'' n]. simpl in *. by apply sublist_skip.
Qed.
End CollectionFacts.

(** ** The endpoints, case by case *)

Lemma for_each_modify {A} (l : list A) (g : A -> Store -> Store) s :
  for_each l (fun x => modify (g x)) s = (Ok tt, foldl (fun s x => g x s) s l).
Proof.
  revert s. induction l as [|x l IH]; intros s; simpl; [done|].
  unfold bind, modify at 1. apply IH.
Qed.

Lemma for_collect_gets {A B} (l : list A) (g : A -> Store -> B) s :
  for_collect l (fun x => gets (g x)) s = (Ok ((fun x => g x s) <$> l), s).
Proof.
  induction l as [|x l IH]; simpl; [done|].
  unfold bind, gets at 1. rewrite IH. done.
Qed.

Lemma return_book_cases now return_data current_user s :
  return_book now return_data current_user s =
  match find_one (borrow_has_id (ReturnRequest.borrow_id return_data))
          (borrows s) with
  | None => (Raise NotFound_borrow, s)
  | Some r =>
      if negb (bool_decide (BorrowRecord.user_id r = User.id current_user))
         && negb (is_librarian current_user)
      then (Raise Forbidden, s)
      else if bool_decide (BorrowRecord.status r = returned)
      then (Raise AlreadyReturned, s)
      else (Ok ("Book returned successfully",
                fine_on_return now (BorrowRecord.due_date r)),
            returned_store now return_data r s)
  end.
Proof.
  unfold return_book, bind, gets. simpl.
  destruct (find_one _ _) as [r|]; [|done].
  destruct (negb _ && negb _); [done|].
  destruct (bool_decide (BorrowRecord.status r = returned)); done.
Qed.

Lemma borrow_book_cases new_id now borrow_data current_user s :
  borrow_book new_id now borrow_data current_user s =
  match find_one (book_has_id (BorrowRequest.book_id borrow_data)) (books s)
  with
  | None => (Raise NotFound_book, s)
  | Some book =>
      if Book.available_copies book <=? 0 then (Raise Exhausted, s)
      else
        match find_one
                (existing_borrow_filter (User.id current_user)
                   (BorrowRequest.book_id borrow_data)) (borrows s) with
        | Some _ => (Raise AlreadyBorrowed, s)
        | None =>
            match timedelta_days (BorrowRequest.borrow_days borrow_data) with
            | Raise e => (Raise e, s)
            | Ok delta =>
                match datetime_add now delta with
                | Raise e => (Raise e, s)
                | Ok due_date =>
                    let record :=
                      new_record new_id now due_date borrow_data current_user
                    in
                    (Ok record,
                     borrowed_store new_id borrow_data current_user record s)
                end
            end
        end
  end.
Proof.
  unfold borrow_book, bind, gets, lift. simpl.
  destruct (find_one _ (books s)) as [book|]; [|done].
  destruct (Book.available_copies book <=? 0); [done|].
  destruct (find_one _ (borrows s)); [done|].
  destruct (timedelta_days _); [|done].
  destruct (datetime_add _ _); done.
Qed.

Lemma foldl_set_borrows {A} (g : A -> list BorrowRecord.t -> list BorrowRecord.t)
    (l : list A) s :
  foldl (fun s x => set_borrows (g x) s) s l
  = mkStore (users s) (books s) (foldl (fun c x => g x c) (borrows s) l).
Proof.
  revert s. induction l as [|x l IH]; intros s; simpl.
  - by destruct s.
  - rewrite IH. done.
Qed.

Lemma get_overdue_books_cases now current_user s :
  get_overdue_books now current_user s =
  if negb (is_librarian current_user)
  then (Raise (HTTPException 403 "Only librarians can view overdue books"), s)
  else
    (Ok (overdue_entry now s <$> selected now (borrows s)),
     mkStore (users s) (books s)
       (mark_overdue (selected now (borrows s)) (borrows s))).
Proof.
  unfold get_overdue_books. destruct (negb _); [done|].
  unfold bind at 1. unfold gets at 1. unfold bind at 1.
  rewrite (for_each_modify _
             (fun borrow => set_borrows
                (update_one (borrow_has_id (BorrowRecord.id borrow))
                   (set_status overdue)))).
  rewrite foldl_set_borrows.
  fold (selected now (borrows s)).
  fold (mark_overdue (selected now (borrows s)) (borrows s)).
  set (s' := mkStore _ _ _).
  change (for_collect (selected now (borrows s)) _ s')
    with (for_collect (selected now (borrows s))
            (fun borrow => gets (fun s0 => overdue_entry now s0 borrow)) s').
  rewrite for_collect_gets. done.
Qed.

(** ** Fines *)

Lemma day_pos : 0 < day.
Proof. unfold day. lia. Qed.

Lemma days_nonneg delta : 0 <= delta -> 0 <= days delta.
Proof. intros H. unfold days. apply Z.div_pos; [done | apply day_pos]. Qed.

Lemma days_nonpos delta : delta <= 0 -> days delta <= 0.
Proof.
  intros H. unfold days. pose proof day_pos.
  apply Z.div_le_upper_bound; lia.
Qed.

Lemma days_exact k delta :
  k * day <= delta < (k + 1) * day -> days delta = k.
Proof.
  intros H. unfold days. pose proof day_pos.
  symmetry. apply (Z.div_unique_pos delta day k (delta - k * day)); lia.
Qed.

(** The branch of lines 368-370 is the positive part of the day count. *)
Lemma fine_on_return_max return_date due_date :
  (fine_on_return return_date due_date
   == inject_Z (Z.max 0 (days (return_date - due_date))) * per_day_rate)%Q.
Proof.
  unfold fine_on_return. destruct (due_date <? return_date) eqn:Hlt.
  - apply Z.ltb_lt in Hlt.
    rewrite Z.max_r by (apply days_nonneg; lia). reflexivity.
  - apply Z.ltb_ge in Hlt.
    rewrite Z.max_l by (apply days_nonpos; lia). reflexivity.
Qed.

(** C4. Returning a loan that is not yet returned succeeds for its borrower
    or a librarian; the fine answered and stored is [per_day_rate] times the
    number of full days by which the return instant exceeds the due date,
    zero when it does not, whatever the status (borrowed or overdue) was:
    less than a day late gives 0, one day late [per_day_rate], ten days late
    ten times [per_day_rate]. *)
Theorem return_fine_from_timestamps
    (now : Z) (return_data : ReturnRequest.t) (current_user : User.t)
    (s : Store) (r : BorrowRecord.t) :
  find_one (borrow_has_id (ReturnRequest.borrow_id return_data)) (borrows s)
    = Some r ->
  BorrowRecord.user_id r = User.id current_user
    \/ User.role current_user = "librarian" ->
  BorrowRecord.status r <> returned ->
  exists fine s',
    return_book now return_data current_user s
      = (Ok ("Book returned successfully", fine), s')
    /\ (fine == inject_Z (Z.max 0 (days (now - BorrowRecord.due_date r)))
                * per_day_rate)%Q
    /\ (per_day_rate == 1)%Q
    /\ find_one (borrow_has_id (ReturnRequest.borrow_id return_data))
         (borrows s') = Some (set_returned now fine r)
    /\ (now - BorrowRecord.due_date r < day -> (fine == 0)%Q)
    /\ (now = BorrowRecord.due_date r + day -> (fine == per_day_rate)%Q)
    /\ (now = BorrowRecord.due_date r + 10 * day ->
        (fine == 10 * per_day_rate)%Q).
Proof.
  intros Hfind Hauth Hst.
  exists (fine_on_return now (BorrowRecord.due_date r)),
         (returned_store now return_data r s).
  pose proof (fine_on_return_max now (BorrowRecord.due_date r)) as Hfine.
  split; [|split; [done|split; [done|split]]].
  - rewrite return_book_cases, Hfind.
    assert (negb (bool_decide (BorrowRecord.user_id r = User.id current_user))
            && negb (is_librarian current_user) = false) as ->.
    { unfold is_librarian. destruct Hauth as [->| ->].
      - by rewrite bool_decide_eq_true_2.
      - rewrite (bool_decide_eq_true_2 ("librarian" = "librarian")) by done.
        by rewrite andb_false_r. }
    by rewrite bool_decide_eq_false_2.
  - simpl. apply find_one_update_one; [done|].
    by apply find_one_Some in Hfind as [_ ?].
  - pose proof day_pos. repeat split.
    + intros Hlt. rewrite Hfine.
      destruct (Z.le_gt_cases (now - BorrowRecord.due_date r) 0).
      * rewrite Z.max_l by (by apply days_nonpos). reflexivity.
      * rewrite (days_exact 0) by lia. reflexivity.
    + intros ->. rewrite Hfine, (days_exact 1) by lia. reflexivity.
    + intros ->. rewrite Hfine, (days_exact 10) by lia. reflexivity.
Qed.

Lemma return_fine_from_timestamps_witness :
  exists fine s',
    return_book (Fixture.t0 + 19 * day) (ReturnRequest.mk "l-1") Fixture.alice
      Fixture.store_lent
      = (Ok ("Book returned successfully", fine), s')
    /\ (fine == 5 * per_day_rate)%Q.
Proof.
  destruct (return_fine_from_timestamps (Fixture.t0 + 19 * day)
              (ReturnRequest.mk "l-1") Fixture.alice Fixture.store_lent
              (new_record "l-1" Fixture.t0 (Fixture.t0 + 14 * day)
                 (BorrowRequest.parse "b-dune" None) Fixture.alice))
    as (fine & s' & Hrun & Hfine & _).
  - reflexivity.
  - left. reflexivity.
  - discriminate.
  - exists fine, s'. split; [exact Hrun|].
    rewrite Hfine. reflexivity.
Defined.

(** Scenario A of the specification on a book with one copy left: Bob
    takes the last copy, Alice's second request meets "Book not available",
    Bob returns on time with no fine, and the copy is available again. *)
Example scenario_a :
  (Book.available_copies <$> books Fixture.store_sold_out) = [0]
  /\ (borrow_book "l-3" (Fixture.t0 + 2 * day)
        (BorrowRequest.parse "b-dune" None) Fixture.librarian
        Fixture.store_sold_out).1 = Raise Exhausted
  /\ (return_book (Fixture.t0 + 3 * day) (ReturnRequest.mk "l-2") Fixture.bob
        Fixture.store_sold_out).1
     = Ok ("Book returned successfully", 0.0%Q)
  /\ (Book.available_copies
        <$> books (return_book (Fixture.t0 + 3 * day)
                     (ReturnRequest.mk "l-2") Fixture.bob
                     Fixture.store_sold_out).2) = [1].
Proof. by vm_compute. Qed.

(** Scenario B: due at [T], swept at [T + 3] days, returned at [T + 5] days:
    the status goes to overdue, then to returned with a fine of 5. *)
Example scenario_b :
  (BorrowRecord.status <$> borrows Fixture.store_swept) = [overdue]
  /\ exists fine s',
       return_book (Fixture.t0 + 19 * day) (ReturnRequest.mk "l-1")
         Fixture.alice Fixture.store_swept
       = (Ok ("Book returned successfully", fine), s')
       /\ (fine == 5 * per_day_rate)%Q
       /\ (BorrowRecord.status <$> borrows s') = [returned].
Proof.
  split; [by vm_compute|].
  eexists _, _. split; [by vm_compute|]. split; by vm_compute.
Qed.

(** ** Borrow periods *)

Lemma timedelta_days_Ok d delta :
  timedelta_days d = Ok delta -> delta = d * day.
Proof. unfold timedelta_days. destruct (_ <=? _); congruence. Qed.

Lemma datetime_add_Ok t delta t' :
  datetime_add t delta = Ok t' -> t' = t + delta.
Proof. unfold datetime_add. destruct (_ && _); congruence. Qed.

(** What a successful [borrow_book] has checked and written. *)
Lemma borrow_book_Ok new_id now borrow_data current_user s r s' :
  borrow_book new_id now borrow_data current_user s = (Ok r, s') ->
  exists book,
    find_one (book_has_id (BorrowRequest.book_id borrow_data)) (books s)
      = Some book
    /\ 0 < Book.available_copies book
    /\ find_one (existing_borrow_filter (User.id current_user)
                   (BorrowRequest.book_id borrow_data)) (borrows s) = None
    /\ r = new_record new_id now
             (now + BorrowRequest.borrow_days borrow_data * day)
             borrow_data current_user
    /\ s' = borrowed_store new_id borrow_data current_user r s.
Proof.
  rewrite borrow_book_cases.
  destruct (find_one _ (books s)) as [book|] eqn:Hbook; [|done].
  destruct (Book.available_copies book <=? 0) eqn:Hav; [done|].
  destruct (find_one _ (borrows s)) eqn:Hex; [done|].
  destruct (timedelta_days _) as [delta|] eqn:Hdelta; [|done].
  destruct (datetime_add _ _) as [due|] eqn:Hdue; [|done].
  intros [= <- <-]. exists book.
  apply timedelta_days_Ok in Hdelta as ->.
  apply datetime_add_Ok in Hdue as ->.
  apply Z.leb_gt in Hav. done.
Qed.

(** A failed [borrow_book] leaves the store as it was. *)
Lemma borrow_book_Raise new_id now borrow_data current_user s e s' :
  borrow_book new_id now borrow_data current_user s = (Raise e, s') -> s' = s.
Proof.
  rewrite borrow_book_cases.
  destruct (find_one _ (books s)); [|congruence].
  destruct (_ <=? 0); [congruence|].
  destruct (find_one _ (borrows s)); [congruence|].
  destruct (timedelta_days _); [|congruence].
  destruct (datetime_add _ _); [|congruence].
  done.
Qed.

(** C10. [borrow_days] is any integer, 14 when the request omits it, and no
    check looks at its sign: a borrow that succeeds writes a loan with status
    borrowed and [due_date = now + borrow_days] days; the borrow does succeed
    for every [borrow_days], negative and zero included, whose due date is a
    representable date, when the book has a copy left and the user has no
    borrowed loan on it; with a negative [borrow_days] the due date lies
    before [now] and the loan matches the filter of the overdue sweep at any
    instant from [now] on. *)
Theorem borrow_days_unvalidated
    (new_id : string) (now : Z) (borrow_data : BorrowRequest.t)
    (current_user : User.t) (s : Store) :
  (forall b, BorrowRequest.borrow_days (BorrowRequest.parse b None) = 14)
  /\ (forall r s',
        borrow_book new_id now borrow_data current_user s = (Ok r, s') ->
        BorrowRecord.due_date r
          = now + BorrowRequest.borrow_days borrow_data * day
        /\ BorrowRecord.status r = borrowed
        /\ r ∈ borrows s'
        /\ (BorrowRequest.borrow_days borrow_data < 0 ->
            BorrowRecord.due_date r < now
            /\ forall now', now <= now' -> overdue_filter now' r = true))
  /\ (forall book,
        find_one (book_has_id (BorrowRequest.book_id borrow_data)) (books s)
          = Some book ->
        0 < Book.available_copies book ->
        find_one (existing_borrow_filter (User.id current_user)
                    (BorrowRequest.book_id borrow_data)) (borrows s) = None ->
        Z.abs (BorrowRequest.borrow_days borrow_data) <= 999999999 ->
        0 <= now + BorrowRequest.borrow_days borrow_data * day
          <= datetime_max ->
        exists r s',
          borrow_book new_id now borrow_data current_user s = (Ok r, s')).
Proof.
  set (d := BorrowRequest.borrow_days borrow_data).
  split; [done|split].
  - intros r s' Hrun.
    apply borrow_book_Ok in Hrun as (book & _ & _ & _ & -> & ->).
    split; [done|split; [done|split]].
    + simpl. apply elem_of_app. right. by apply list_elem_of_singleton.
    + intros Hneg. pose proof day_pos. simpl. fold d. split; [nia|].
      intros now' Hnow'. unfold overdue_filter. simpl.
      apply Z.ltb_lt. fold d. nia.
  - intros book Hbook Hav Hex Habs Hrange.
    rewrite borrow_book_cases, Hbook, Hex.
    replace (Book.available_copies book <=? 0) with false
      by (symmetry; by apply Z.leb_gt).
    unfold timedelta_days. fold d.
    replace (Z.abs d <=? 999999999) with true
      by (symmetry; by apply Z.leb_le).
    unfold datetime_add.
    replace (0 <=? now + d * day) with true
      by (symmetry; apply Z.leb_le; lia).
    replace (now + d * day <=? datetime_max) with true
      by (symmetry; apply Z.leb_le; lia).
    simpl. eauto.
Qed.

Lemma borrow_days_unvalidated_witness :
  exists r s',
    borrow_book "l-2" Fixture.t0 (BorrowRequest.mk "b-dune" (-3)) Fixture.bob
      Fixture.store_lent = (Ok r, s')
    /\ BorrowRecord.due_date r = Fixture.t0 + (-3) * day
    /\ BorrowRecord.due_date r < Fixture.t0
    /\ overdue_filter Fixture.t0 r = true.
Proof.
  destruct (borrow_days_unvalidated "l-2" Fixture.t0
              (BorrowRequest.mk "b-dune" (-3)) Fixture.bob
              Fixture.store_lent) as (_ & Hok & Hruns).
  destruct (Hruns (Book.mk "b-dune" "Dune" "Frank Herbert" "978-0441172719"
                     "Sci-Fi" 1965 "Desert planet" 2 1 ["a"; "b"] Fixture.t0))
    as (r & s' & Hrun).
  - reflexivity.
  - reflexivity.
  - reflexivity.
  - vm_compute. discriminate.
  - vm_compute. split; discriminate.
  - exists r, s'. destruct (Hok r s' Hrun) as (Hdue & _ & _ & Hneg).
    destruct Hneg as [Hpast Hsweep]; [reflexivity|].
    split; [exact Hrun|]. split; [exact Hdue|]. split; [exact Hpast|].
    apply Hsweep. apply Z.le_refl.
Defined.

(** ** The overdue sweep *)

Lemma set_status_same r : set_status (BorrowRecord.status r) r = r.
Proof. by destruct r. Qed.

Lemma same_but_overdue_refl r : same_but_overdue r r.
Proof. unfold same_but_overdue. tauto. Qed.

Lemma same_but_overdue_set r : same_but_overdue r (set_status overdue r).
Proof. unfold same_but_overdue. simpl. tauto. Qed.

Lemma same_but_overdue_trans r1 r2 r3 :
  same_but_overdue r1 r2 -> same_but_overdue r2 r3 -> same_but_overdue r1 r3.
Proof.
  unfold same_but_overdue.
  intros (-> & -> & -> & -> & -> & -> & -> & H1) (-> & -> & -> & -> & -> & -> & -> & H2).
  repeat split; try done.
  destruct H2 as [->|]; [done | by right].
Qed.

Lemma update_one_same_but_overdue x c :
  Forall2 same_but_overdue c
    (update_one (borrow_has_id x) (set_status overdue) c).
Proof.
  induction c as [|r c IH]; simpl; [constructor|].
  destruct (borrow_has_id x r).
  - constructor; [apply same_but_overdue_set|].
    apply Forall2_same_length_lookup_2; [done|].
    intros i r1 r2 H1 H2. simplify_eq. apply same_but_overdue_refl.
  - constructor; [apply same_but_overdue_refl | apply IH].
Qed.

(** Whatever identifiers the collection holds, the loop of the sweep writes
    nothing but the status of a loan, and only the value overdue. *)
Lemma mark_overdue_same_but_overdue sel c :
  Forall2 same_but_overdue c (mark_overdue sel c).
Proof.
  unfold mark_overdue. revert c.
  induction sel as [|r sel IH]; intros c; simpl.
  - apply Forall2_same_length_lookup_2; [done|].
    intros i r1 r2 H1 H2. simplify_eq. apply same_but_overdue_refl.
  - eapply Forall2_trans; [|apply update_one_same_but_overdue|apply IH].
    intros ???. apply same_but_overdue_trans.
Qed.

(** With unique identifiers, rewriting the first match rewrites the match. *)
Lemma update_one_unique x f (c : list BorrowRecord.t) :
  NoDup (BorrowRecord.id <$> c) ->
  update_one (borrow_has_id x) f c
  = (fun r => if bool_decide (BorrowRecord.id r = x) then f r else r) <$> c.
Proof.
  induction c as [|r c IH]; [done|].
  rewrite fmap_cons. intros [Hr Hc]%NoDup_cons.
  cbn [update_one]. unfold borrow_has_id at 1. rewrite fmap_cons.
  destruct (bool_decide (BorrowRecord.id r = x)) eqn:Hid.
  - f_equal. apply bool_decide_eq_true in Hid. subst x.
    clear IH Hc. induction c as [|r' c IH]; [done|].
    rewrite fmap_cons in Hr. apply not_elem_of_cons in Hr as [Hne Hr].
    rewrite fmap_cons, <- IH by done.
    by rewrite bool_decide_eq_false_2.
  - f_equal. by apply IH.
Qed.

Lemma swept_id sel r : BorrowRecord.id (swept sel r) = BorrowRecord.id r.
Proof. unfold swept. by destruct (bool_decide _). Qed.

Lemma swept_nil r : swept [] r = r.
Proof. unfold swept. rewrite bool_decide_eq_false_2; [done|]. by intros ?%elem_of_nil. Qed.

Lemma swept_cons r0 sel r :
  swept sel (if bool_decide (BorrowRecord.id r = BorrowRecord.id r0)
             then set_status overdue r else r)
  = swept (r0 :: sel) r.
Proof.
  unfold swept. rewrite fmap_cons.
  destruct (bool_decide (BorrowRecord.id r = BorrowRecord.id r0)) eqn:Hid.
  - apply bool_decide_eq_true in Hid.
    rewrite (bool_decide_eq_true_2 (_ ∈ _ :: _)) by (rewrite Hid; by left).
    simpl. by destruct (bool_decide _).
  - apply bool_decide_eq_false in Hid.
    destruct (bool_decide (_ ∈ BorrowRecord.id <$> sel)) eqn:Hin.
    + apply bool_decide_eq_true in Hin.
      by rewrite bool_decide_eq_true_2 by (by right).
    + apply bool_decide_eq_false in Hin.
      rewrite bool_decide_eq_false_2; [done|].
      by intros [?|?]%elem_of_cons.
Qed.

(** On a collection with unique identifiers the loop of the sweep makes
    overdue the loans whose identifier was read and leaves the others. *)
Lemma mark_overdue_swept sel c :
  NoDup (BorrowRecord.id <$> c) -> mark_overdue sel c = swept sel <$> c.
Proof.
  unfold mark_overdue. revert c.
  induction sel as [|r0 sel IH]; intros c Hc; simpl.
  - rewrite <- (list_fmap_id c) at 1. apply list_fmap_ext.
    intros _ r _. by rewrite swept_nil.
  - rewrite update_one_unique by done. rewrite IH.
    + rewrite <- list_fmap_compose. apply list_fmap_ext.
      intros _ r _. simpl. apply swept_cons.
    + rewrite <- list_fmap_compose.
      erewrite list_fmap_ext; [exact Hc|].
      intros _ r _. simpl. by destruct (bool_decide _).
Qed.

Lemma selected_spec now c r :
  r ∈ selected now c ->
  r ∈ c /\ BorrowRecord.status r = borrowed /\ BorrowRecord.due_date r < now.
Proof.
  unfold selected, to_list, find. intros Hr%elem_of_take.
  destruct Hr as (i & Hr & _).
  apply list_elem_of_lookup_2, list_elem_of_In, filter_In in Hr as [Hin Hf].
  unfold overdue_filter in Hf. apply andb_true_iff in Hf as [Hs Hd].
  apply bool_decide_eq_true in Hs. apply Z.ltb_lt in Hd.
  by apply list_elem_of_In in Hin.
Qed.

Lemma selected_all now c r :
  (length (find (overdue_filter now) c) <= 1000)%nat ->
  r ∈ c -> BorrowRecord.status r = borrowed -> BorrowRecord.due_date r < now ->
  r ∈ selected now c.
Proof.
  intros Hlen Hin Hs Hd. unfold selected, to_list.
  rewrite take_ge by done. unfold find.
  apply list_elem_of_In, filter_In. split; [by apply list_elem_of_In|].
  unfold overdue_filter. rewrite Hs. simpl. by apply Z.ltb_lt.
Qed.

Lemma is_librarian_true u : User.role u = "librarian" -> is_librarian u = true.
Proof. intros H. unfold is_librarian. by apply bool_decide_eq_true_2. Qed.

Lemma get_overdue_books_librarian now current_user s :
  User.role current_user = "librarian" ->
  get_overdue_books now current_user s
  = (Ok (overdue_entry now s <$> selected now (borrows s)),
     mkStore (users s) (books s)
       (mark_overdue (selected now (borrows s)) (borrows s))).
Proof.
  intros H. rewrite get_overdue_books_cases.
  by rewrite (is_librarian_true _ H).
Qed.

Lemma swept_selected now c r :
  r ∈ selected now c -> swept (selected now c) r = set_status overdue r.
Proof.
  intros Hr. unfold swept. rewrite bool_decide_eq_true_2; [done|].
  by apply list_elem_of_fmap_2.
Qed.

(** C9. The sweep leaves [users] and [books] alone and, document by
    document, writes nothing in [borrows] but the status (no fine amount, no
    other field); the fine it reports is the [calculated_fine] of the answer,
    one unit per full day; each loan of the answer is the document as it was
    read, with status borrowed, while the stored document of that loan is the
    same document with status overdue. *)
Theorem sweep_writes_status_only
    (now : Z) (current_user : User.t) (s : Store) :
  User.role current_user = "librarian" ->
  NoDup (borrow_ids s) ->
  exists entries s',
    get_overdue_books now current_user s = (Ok entries, s')
    /\ users s' = users s
    /\ books s' = books s
    /\ Forall2 same_but_overdue (borrows s) (borrows s')
    /\ Forall (fun e =>
                 let r := OverdueEntry.borrow e in
                 r ∈ borrows s
                 /\ BorrowRecord.status r = borrowed
                 /\ OverdueEntry.overdue_days e
                    = days (now - BorrowRecord.due_date r)
                 /\ (OverdueEntry.calculated_fine e
                     == inject_Z (OverdueEntry.overdue_days e))%Q
                 /\ set_status overdue r ∈ borrows s'
                 /\ BorrowRecord.fine_amount (set_status overdue r)
                    = BorrowRecord.fine_amount r)
         entries.
Proof.
  intros Hrole Hids. eexists _, _.
  split; [by apply get_overdue_books_librarian|].
  split; [done|]. split; [done|].
  split; [apply mark_overdue_same_but_overdue|].
  apply Forall_forall. intros e [r [-> Hr]]%list_elem_of_fmap_1.
  pose proof (selected_spec _ _ _ Hr) as (Hin & Hst & _).
  simpl. repeat split; try done.
  - unfold Qeq. simpl. lia.
  - rewrite mark_overdue_swept by done.
    rewrite <- (swept_selected now (borrows s) r Hr).
    by apply list_elem_of_fmap_2.
Qed.

Lemma sweep_writes_status_only_witness :
  exists entries s',
    get_overdue_books (Fixture.t0 + 17 * day) Fixture.librarian
      Fixture.store_lent = (Ok entries, s')
    /\ users s' = users Fixture.store_lent
    /\ books s' = books Fixture.store_lent
    /\ Forall2 same_but_overdue (borrows Fixture.store_lent) (borrows s')
    /\ Forall (fun e =>
                 let r := OverdueEntry.borrow e in
                 r ∈ borrows Fixture.store_lent
                 /\ BorrowRecord.status r = borrowed
                 /\ OverdueEntry.overdue_days e
                    = days (Fixture.t0 + 17 * day - BorrowRecord.due_date r)
                 /\ (OverdueEntry.calculated_fine e
                     == inject_Z (OverdueEntry.overdue_days e))%Q
                 /\ set_status overdue r ∈ borrows s'
                 /\ BorrowRecord.fine_amount (set_status overdue r)
                    = BorrowRecord.fine_amount r)
         entries.
Proof.
  apply (sweep_writes_status_only (Fixture.t0 + 17 * day) Fixture.librarian
           Fixture.store_lent).
  - reflexivity.
  - vm_compute. apply NoDup_singleton.
Defined.

Lemma store_eta s : mkStore (users s) (books s) (borrows s) = s.
Proof. by destruct s. Qed.

Lemma find_nil_iff {A} (p : A -> bool) (c : list A) :
  (forall x, x ∈ c -> p x = false) -> find p c = [].
Proof.
  unfold find. induction c as [|x c IH]; intros H; simpl; [done|].
  rewrite (H x) by (by left). apply IH. intros y Hy. apply H. by right.
Qed.

(** Once the sweep has made overdue every loan it could read, the filter of
    the sweep matches nothing. *)
Lemma selected_after_sweep now c :
  (length (find (overdue_filter now) c) <= 1000)%nat ->
  selected now (swept (selected now c) <$> c) = [].
Proof.
  intros Hlen. unfold selected at 1, to_list.
  rewrite find_nil_iff; [done|].
  intros r' [r [-> Hr]]%list_elem_of_fmap_1.
  unfold swept. destruct (bool_decide _) eqn:Hin; [done|].
  apply bool_decide_eq_false in Hin.
  destruct (overdue_filter now r) eqn:Hf; [|done].
  exfalso. apply Hin. apply list_elem_of_fmap_2.
  unfold overdue_filter in Hf. apply andb_true_iff in Hf as [Hs Hd].
  apply bool_decide_eq_true in Hs. apply Z.ltb_lt in Hd.
  by apply selected_all.
Qed.

(** C6, as the code has it.  For a librarian, on a store whose loans have
    unique identifiers, the sweep reads the loans with status borrowed and a
    due date strictly before [now], in the order of the collection and at
    most 1000 of them; it makes exactly those overdue and answers them.  They
    are all the loans that match when at most 1000 match.  A loan that is
    already overdue is not read and stays as it is, no later sweep reads a
    loan that this one has made overdue, and when at most 1000 loans matched,
    a second sweep at the same instant answers nothing and writes nothing. *)
Theorem sweep_marks_selected
    (now : Z) (current_user : User.t) (s : Store) :
  User.role current_user = "librarian" ->
  NoDup (borrow_ids s) ->
  let sel := take 1000 (List.filter (overdue_filter now) (borrows s)) in
  exists entries s',
    get_overdue_books now current_user s = (Ok entries, s')
    /\ OverdueEntry.borrow <$> entries = sel
    /\ borrows s' = swept sel <$> borrows s
    /\ (forall r, r ∈ sel ->
          r ∈ borrows s /\ BorrowRecord.status r = borrowed
          /\ BorrowRecord.due_date r < now
          /\ swept sel r = set_status overdue r)
    /\ (forall r, r ∈ borrows s -> r ∉ sel -> swept sel r = r)
    /\ ((length (List.filter (overdue_filter now) (borrows s)) <= 1000)%nat ->
        forall r, r ∈ borrows s -> BorrowRecord.status r = borrowed ->
                  BorrowRecord.due_date r < now -> r ∈ sel)
    /\ (forall r, r ∈ borrows s -> BorrowRecord.status r = overdue ->
                  (r ∉ sel) /\ r ∈ borrows s')
    /\ (forall now2 r r2, r ∈ sel ->
          r2 ∈ take 1000 (List.filter (overdue_filter now2) (borrows s')) ->
          BorrowRecord.id r2 <> BorrowRecord.id r)
    /\ ((length (List.filter (overdue_filter now) (borrows s)) <= 1000)%nat ->
        get_overdue_books now current_user s' = (Ok [], s')).
Proof.
  intros Hrole Hids sel.
  change sel with (selected now (borrows s)).
  assert (forall r, r ∈ borrows s -> r ∉ selected now (borrows s) ->
                    swept (selected now (borrows s)) r = r) as Hother.
  { intros r Hin Hnot. unfold swept.
    destruct (bool_decide _) eqn:Hsel; [|done]. exfalso.
    apply bool_decide_eq_true in Hsel.
    apply list_elem_of_fmap in Hsel as (r1 & Hid & Hr1).
    apply Hnot. replace r with r1; [done|].
    pose proof (selected_spec _ _ _ Hr1) as (Hin1 & _).
    apply list_elem_of_lookup in Hin as [i Hi].
    apply list_elem_of_lookup in Hin1 as [j Hj].
    assert (i = j) as ->; [|congruence].
    eapply NoDup_lookup; [exact Hids| |].
    - unfold borrow_ids. rewrite list_lookup_fmap, Hi. done.
    - unfold borrow_ids. rewrite list_lookup_fmap, Hj. simpl. by rewrite Hid. }
  eexists _, _.
  split; [by apply get_overdue_books_librarian|]. simpl.
  split; [|split; [|split; [|split; [|split; [|split; [|split]]]]]].
  - rewrite <- list_fmap_compose. apply list_fmap_id.
  - by apply mark_overdue_swept.
  - intros r Hr. pose proof (selected_spec _ _ _ Hr) as (? & ? & ?).
    repeat split; try done. by apply swept_selected.
  - exact Hother.
  - intros Hlen r Hin Hs Hd. by apply selected_all.
  - intros r Hin Hs.
    assert (r ∉ selected now (borrows s)) as Hnot.
    { intros Hr. apply selected_spec in Hr as (_ & Hb & _). congruence. }
    split; [done|]. rewrite mark_overdue_swept by done.
    rewrite <- (Hother r Hin Hnot) at 1. by apply list_elem_of_fmap_2.
  - intros now2 r r2 Hr Hr2 Hid.
    apply (selected_spec now2) in Hr2 as (Hin2 & Hs2 & _).
    rewrite mark_overdue_swept in Hin2 by done.
    apply list_elem_of_fmap in Hin2 as (r0 & -> & Hr0).
    rewrite swept_id in Hid. unfold swept in Hs2.
    rewrite bool_decide_eq_true_2 in Hs2; [done|].
    rewrite Hid. by apply list_elem_of_fmap_2.
  - intros Hlen. rewrite get_overdue_books_librarian by done. simpl.
    rewrite mark_overdue_swept by done.
    rewrite selected_after_sweep by done. done.
Qed.

Lemma sweep_marks_selected_witness :
  exists entries s',
    get_overdue_books (Fixture.t0 + 17 * day) Fixture.librarian
      Fixture.store_lent = (Ok entries, s')
    /\ OverdueEntry.borrow <$> entries = borrows Fixture.store_lent
    /\ BorrowRecord.status <$> borrows s' = [overdue]
    /\ get_overdue_books (Fixture.t0 + 17 * day) Fixture.librarian s'
       = (Ok [], s').
Proof.
  destruct (sweep_marks_selected (Fixture.t0 + 17 * day) Fixture.librarian
              Fixture.store_lent)
    as (entries & s' & Hrun & Hsel & Hstore & _ & _ & _ & _ & _ & Hagain).
  - reflexivity.
  - vm_compute. apply NoDup_singleton.
  - exists entries, s'. split; [exact Hrun|]. split; [exact Hsel|].
    split; [rewrite Hstore; reflexivity|].
    apply Hagain. vm_compute. lia.
Defined.

(** C6 as stated fails on the reading room: 1001 loans are borrowed and past
    due, the sweep answers 1000 of them and the loan of the last member is
    neither answered nor made overdue. *)
Lemma sweep_leaves_loan_beyond_1000 :
  exists entries s',
    get_overdue_books (Fixture.t0 + 15 * day) Fixture.librarian
      Fixture.store_crowd = (Ok entries, s')
    /\ last (borrows Fixture.store_crowd) = Some Fixture.last_loan
    /\ BorrowRecord.status Fixture.last_loan = borrowed
    /\ BorrowRecord.due_date Fixture.last_loan < Fixture.t0 + 15 * day
    /\ length entries = 1000%nat
    /\ (BorrowRecord.id Fixture.last_loan
          ∉ BorrowRecord.id <$> (OverdueEntry.borrow <$> entries))
    /\ last (borrows s') = Some Fixture.last_loan.
Proof.
  eexists _, _.
  split; [by apply get_overdue_books_librarian|].
  split; [by vm_compute|]. split; [done|]. split; [by vm_compute|].
  split; [by vm_compute|]. split; [|by vm_compute].
  apply (proj1 (bool_decide_eq_false _)). by vm_compute.
Qed.

(** ** What one request does to the loans *)

Lemma register_borrows new_id now password_hash user_data s r s' :
  register new_id now password_hash user_data s = (r, s') ->
  borrows s' = borrows s /\ books s' = books s.
Proof.
  unfold register, bind, gets, modify, set_users, raise, ret. simpl.
  destruct (find_one _ _); by intros [= <- <-].
Qed.

Lemma create_book_borrows new_id now book_data current_user s r s' :
  create_book new_id now book_data current_user s = (r, s') ->
  borrows s' = borrows s.
Proof.
  unfold create_book, bind, modify, set_books, raise, ret.
  destruct (negb _); by intros [= <- <-].
Qed.

Lemma update_book_borrows book_id book_data current_user s r s' :
  update_book book_id book_data current_user s = (r, s') ->
  borrows s' = borrows s.
Proof.
  unfold update_book, bind, gets, modify, set_books, raise, ret. simpl.
  destruct (negb (is_librarian _)); [by intros [= <- <-]|].
  destruct (find_one _ _); [|by intros [= <- <-]].
  destruct (negb (update_data_empty _)); [|by intros [= <- <-]].
  destruct (find_one _ _); by intros [= <- <-].
Qed.

Lemma delete_book_borrows book_id current_user s r s' :
  delete_book book_id current_user s = (r, s') ->
  borrows s' = borrows s.
Proof.
  unfold delete_book, bind, set_books, raise, ret.
  destruct (negb _); [by intros [= <- <-]|].
  destruct (delete_one _ _) as [c n]. simpl.
  destruct (n =? 0); by intros [= <- <-].
Qed.

(** The four ways in which a request changes the [borrows] collection. *)
Lemma step_borrows s s' :
  step s s' ->
  borrows s' = borrows s
  \/ (exists r,
        (BorrowRecord.id r ∉ borrow_ids s)
        /\ BorrowRecord.status r = borrowed
        /\ find_one (existing_borrow_filter (BorrowRecord.user_id r)
                       (BorrowRecord.book_id r)) (borrows s) = None
        /\ borrows s' = borrows s ++ [r])
  \/ (exists x r0 t f,
        find_one (borrow_has_id x) (borrows s) = Some r0
        /\ BorrowRecord.status r0 <> returned
        /\ borrows s' = update_one (borrow_has_id x) (set_returned t f)
                          (borrows s))
  \/ (exists now,
        borrows s' = mark_overdue (selected now (borrows s)) (borrows s)).
Proof.
  intros [new_id now ph ud r s1 _ H
         |new_id now bd u r s1 _ H
         |bid bd u r s1 H
         |bid u r s1 H
         |new_id now bd u r s1 Hfresh H
         |now rd u r s1 H
         |now u r s1 H].
  - left. by apply register_borrows in H as [? _].
  - left. by apply create_book_borrows in H.
  - left. by apply update_book_borrows in H.
  - left. by apply delete_book_borrows in H.
  - destruct r as [rec|e].
    + right; left. exists rec.
      apply borrow_book_Ok in H as (book & _ & _ & Hex & -> & ->). done.
    + left. apply borrow_book_Raise in H. by subst.
  - rewrite return_book_cases in H.
    destruct (find_one _ _) as [r0|] eqn:Hfind; [|left; by simplify_eq].
    destruct (negb _ && negb _); [left; by simplify_eq|].
    destruct (bool_decide (BorrowRecord.status r0 = returned)) eqn:Hst;
      [left; by simplify_eq|].
    apply bool_decide_eq_false in Hst.
    right; right; left. simplify_eq. eexists _, r0, _, _. done.
  - rewrite get_overdue_books_cases in H.
    destruct (negb _); [left; by simplify_eq|].
    right; right; right. simplify_eq. by exists now.
Qed.

Lemma mark_overdue_ids sel c :
  BorrowRecord.id <$> mark_overdue sel c = BorrowRecord.id <$> c.
Proof.
  unfold mark_overdue. revert c.
  induction sel as [|r sel IH]; intros c; simpl; [done|].
  rewrite IH. by apply update_one_fmap.
Qed.

Lemma unique_id_eq (c : list BorrowRecord.t) r1 r2 :
  NoDup (BorrowRecord.id <$> c) -> r1 ∈ c -> r2 ∈ c ->
  BorrowRecord.id r1 = BorrowRecord.id r2 -> r1 = r2.
Proof.
  intros Hids [i Hi]%list_elem_of_lookup [j Hj]%list_elem_of_lookup Hid.
  assert (i = j) as ->; [|congruence].
  eapply NoDup_lookup; [exact Hids| |].
  - rewrite list_lookup_fmap, Hi. done.
  - rewrite list_lookup_fmap, Hj. simpl. by rewrite Hid.
Qed.

Lemma find_one_unique (c : list BorrowRecord.t) r :
  NoDup (BorrowRecord.id <$> c) -> r ∈ c ->
  find_one (borrow_has_id (BorrowRecord.id r)) c = Some r.
Proof.
  intros Hids Hin.
  destruct (find_one (borrow_has_id (BorrowRecord.id r)) c) as [r'|] eqn:Hf.
  - apply find_one_Some in Hf as [Hin' Hid].
    apply bool_decide_eq_true in Hid. f_equal. by eapply unique_id_eq.
  - apply (find_one_None _ _ r) in Hf; [|done].
    unfold borrow_has_id in Hf. by rewrite bool_decide_eq_true_2 in Hf.
Qed.

(** Requests keep the identifiers of the loans unique. *)
Lemma step_unique_borrow_ids s s' :
  step s s' -> NoDup (borrow_ids s) -> NoDup (borrow_ids s').
Proof.
  unfold borrow_ids.
  intros [->|[(r & Hfresh & _ & _ & ->)|[(x & r0 & t & f & _ & _ & ->)
         |(now & ->)]]]%step_borrows Hids.
  - done.
  - rewrite fmap_app. apply NoDup_app. split; [done|]. split.
    + intros y Hy [->|[]%elem_of_nil]%elem_of_cons. done.
    + apply NoDup_singleton.
  - by rewrite update_one_fmap.
  - by rewrite mark_overdue_ids.
Qed.

(** A returned loan is still there, unchanged, after any request. *)
Lemma step_keeps_returned s s' r :
  step s s' -> NoDup (borrow_ids s) ->
  r ∈ borrows s -> BorrowRecord.status r = returned -> r ∈ borrows s'.
Proof.
  unfold borrow_ids.
  intros [->|[(r1 & _ & _ & _ & ->)|[(x & r0 & t & f & Hfind & Hst & ->)
         |(now & ->)]]]%step_borrows Hids Hin Hret.
  - done.
  - apply elem_of_app. by left.
  - apply update_one_other; [done|].
    unfold borrow_has_id. apply bool_decide_eq_false_2. intros Hid.
    apply find_one_Some in Hfind as [Hin0 Hid0].
    apply bool_decide_eq_true in Hid0.
    assert (r0 = r) by (eapply unique_id_eq; [done..|congruence]).
    congruence.
  - rewrite mark_overdue_swept by done.
    assert (swept (selected now (borrows s)) r = r) as <-.
    { unfold swept. rewrite bool_decide_eq_false_2; [done|].
      intros (r1 & Hid & Hr1)%list_elem_of_fmap.
      apply selected_spec in Hr1 as (Hin1 & Hb & _).
      assert (r = r1) by (by eapply unique_id_eq). congruence. }
    by apply list_elem_of_fmap_2.
Qed.

(** C5. On a store whose loans have unique identifiers, a loan with status
    returned is found unchanged, with its status, fine and return date, in
    every store that later requests lead to, where it is still the only loan
    with its identifier; a return call on it raises without writing, and what
    it raises for the borrower or a librarian is [AlreadyReturned]; the sweep
    does not read it and leaves it in place. *)
Theorem returned_is_terminal (s : Store) (r : BorrowRecord.t) :
  NoDup (borrow_ids s) ->
  r ∈ borrows s ->
  BorrowRecord.status r = returned ->
  (forall s', rtc step s s' ->
     r ∈ borrows s'
     /\ forall r', r' ∈ borrows s' ->
          BorrowRecord.id r' = BorrowRecord.id r ->
          BorrowRecord.status r' = returned
          /\ BorrowRecord.fine_amount r' = BorrowRecord.fine_amount r
          /\ BorrowRecord.returned_at r' = BorrowRecord.returned_at r)
  /\ (forall now return_data current_user,
        ReturnRequest.borrow_id return_data = BorrowRecord.id r ->
        exists e,
          return_book now return_data current_user s = (Raise e, s)
          /\ (BorrowRecord.user_id r = User.id current_user
              \/ User.role current_user = "librarian" ->
              e = AlreadyReturned))
  /\ (forall now current_user res s',
        get_overdue_books now current_user s = (res, s') ->
        (r ∉ selected now (borrows s)) /\ r ∈ borrows s').
Proof.
  intros Hids Hin Hret. split; [|split].
  - intros s' Hsteps.
    assert (NoDup (borrow_ids s') /\ r ∈ borrows s') as [Hids' Hin'].
    { induction Hsteps as [s|s s1 s2 Hstep _ IH]; [done|].
      apply IH.
      - by eapply step_unique_borrow_ids.
      - by eapply step_keeps_returned. }
    split; [done|]. intros r' Hr' Hid.
    assert (r' = r) as -> by (by eapply unique_id_eq). done.
  - intros now rd u Hid. rewrite return_book_cases, Hid.
    rewrite find_one_unique by done.
    rewrite (bool_decide_eq_true_2 (BorrowRecord.status r = returned)) by done.
    destruct (negb _ && negb _) eqn:Hauth.
    + eexists. split; [done|]. intros Hok. exfalso.
      apply andb_true_iff in Hauth as [H1 H2].
      apply negb_true_iff in H1, H2.
      apply bool_decide_eq_false in H1. unfold is_librarian in H2.
      apply bool_decide_eq_false in H2. tauto.
    + eexists. split; done.
  - intros now u res s' Hrun. split.
    + intros Hsel. apply selected_spec in Hsel as (_ & Hb & _). congruence.
    + eapply step_keeps_returned; [|done..]. by eapply step_get_overdue_books.
Qed.

Lemma returned_is_terminal_witness :
  exists e,
    return_book (Fixture.t0 + 20 * day) (ReturnRequest.mk "l-1") Fixture.alice
      Fixture.store_back = (Raise e, Fixture.store_back)
    /\ e = AlreadyReturned.
Proof.
  destruct (returned_is_terminal Fixture.store_back
              (set_returned (Fixture.t0 + 19 * day)
                 (fine_on_return (Fixture.t0 + 19 * day)
                    (Fixture.t0 + 14 * day))
                 (new_record "l-1" Fixture.t0 (Fixture.t0 + 14 * day)
                    (BorrowRequest.parse "b-dune" None) Fixture.alice)))
    as (_ & Hreturn & _).
  - vm_compute. apply NoDup_singleton.
  - vm_compute. apply list_elem_of_here.
  - reflexivity.
  - destruct (Hreturn (Fixture.t0 + 20 * day) (ReturnRequest.mk "l-1")
                Fixture.alice) as (e & Hrun & He); [reflexivity|].
    exists e. split; [exact Hrun|]. apply He. left. reflexivity.
Defined.

(** ** One borrowed loan per user and book *)

Lemma filter_update_one_le {A} (q p : A -> bool) (f : A -> A) (c : list A) :
  (forall d, q (f d) = false) ->
  (length (List.filter q (update_one p f c)) <= length (List.filter q c))%nat.
Proof.
  intros Hq. induction c as [|x c IH]; simpl; [done|].
  destruct (p x); simpl.
  - rewrite Hq. destruct (q x); simpl; lia.
  - destruct (q x); simpl; lia.
Qed.

Lemma borrowed_loans_mark_overdue u b sel c :
  (length (borrowed_loans u b (mark_overdue sel c))
   <= length (borrowed_loans u b c))%nat.
Proof.
  unfold mark_overdue, borrowed_loans, find. revert c.
  induction sel as [|r sel IH]; intros c; simpl; [done|].
  etrans; [apply IH|]. apply filter_update_one_le.
  intros d. unfold existing_borrow_filter. simpl. apply andb_false_r.
Qed.

Lemma find_one_None_filter {A} (p : A -> bool) (c : list A) :
  find_one p c = None -> List.filter p c = [].
Proof.
  intros H. apply find_nil_iff. intros x Hx. by eapply find_one_None.
Qed.

(** Requests keep at most one loan with status borrowed for each user and
    book. *)
Lemma step_one_borrowed s s' :
  step s s' ->
  (forall u b, (length (borrowed_loans u b (borrows s)) <= 1)%nat) ->
  forall u b, (length (borrowed_loans u b (borrows s')) <= 1)%nat.
Proof.
  intros [->|[(r & _ & Hst & Hnone & ->)|[(x & r0 & t & f & _ & _ & ->)
         |(now & ->)]]]%step_borrows Hinv u b.
  - done.
  - unfold borrowed_loans, find. rewrite List.filter_app, length_app. simpl.
    destruct (existing_borrow_filter u b r) eqn:Hr; simpl; [|apply Nat.le_trans with (length (borrowed_loans u b (borrows s))); [unfold borrowed_loans, find; lia | done]].
    unfold existing_borrow_filter in Hr.
    apply andb_true_iff in Hr as [[Hu Hb]%andb_true_iff _].
    apply bool_decide_eq_true in Hu, Hb. subst u b.
    by rewrite (find_one_None_filter _ _ Hnone).
  - etrans; [|apply (Hinv u b)]. apply filter_update_one_le.
    intros d. unfold existing_borrow_filter. simpl. apply andb_false_r.
  - etrans; [|apply (Hinv u b)]. apply borrowed_loans_mark_overdue.
Qed.

Lemma reachable_one_borrowed s :
  reachable s ->
  forall u b, (length (borrowed_loans u b (borrows s)) <= 1)%nat.
Proof.
  unfold reachable. intros H.
  apply (rtc_ind_r (R:=step)
           (fun s => forall u b,
                       (length (borrowed_loans u b (borrows s)) <= 1)%nat)
           empty_store); [| |exact H].
  - intros u b. simpl. lia.
  - intros s1 s2 _ Hstep IH. by eapply step_one_borrowed.
Qed.

(** C2, as the code has it.  When the user holds a loan with status borrowed
    on the book, [borrow_book] raises and writes nothing, so no loan is
    created; what it raises is [AlreadyBorrowed] if the book is in the
    catalog with a copy available, the book and its availability being
    looked at first.  Hence in every reachable store a user has at most one
    loan with status borrowed on a book. *)
Theorem borrow_rejects_second_borrowed (s : Store) :
  reachable s ->
  (forall new_id now borrow_data current_user r0,
     r0 ∈ borrows s ->
     BorrowRecord.user_id r0 = User.id current_user ->
     BorrowRecord.book_id r0 = BorrowRequest.book_id borrow_data ->
     BorrowRecord.status r0 = borrowed ->
     borrow_book new_id now borrow_data current_user s
     = (Raise
          match find_one (book_has_id (BorrowRequest.book_id borrow_data))
                  (books s) with
          | None => NotFound_book
          | Some book =>
              if Book.available_copies book <=? 0 then Exhausted
              else AlreadyBorrowed
          end, s))
  /\ (forall u b, (length (borrowed_loans u b (borrows s)) <= 1)%nat).
Proof.
  intros Hreach. split; [|by apply reachable_one_borrowed].
  intros new_id now bd u r0 Hin Hu Hb Hst.
  rewrite borrow_book_cases.
  destruct (find_one _ (books s)) as [book|]; [|done].
  destruct (Book.available_copies book <=? 0); [done|].
  destruct (find_one _ (borrows s)) eqn:Hnone; [done|].
  apply (find_one_None _ _ r0) in Hnone; [|done].
  unfold existing_borrow_filter in Hnone.
  by rewrite !bool_decide_eq_true_2 in Hnone.
Qed.

Lemma reachable_step s s' : reachable s -> step s s' -> reachable s'.
Proof. intros H Hstep. by eapply rtc_r. Qed.

Lemma step_register_run new_id now password_hash user_data s :
  new_id ∉ user_ids s ->
  step s (register new_id now password_hash user_data s).2.
Proof.
  intros H. eapply step_register; [exact H|]. apply surjective_pairing.
Qed.

Lemma step_create_book_run new_id now book_data current_user s :
  new_id ∉ book_ids s ->
  step s (create_book new_id now book_data current_user s).2.
Proof.
  intros H. eapply step_create_book; [exact H|]. apply surjective_pairing.
Qed.

Lemma step_borrow_book_run new_id now borrow_data current_user s :
  new_id ∉ borrow_ids s ->
  step s (borrow_book new_id now borrow_data current_user s).2.
Proof.
  intros H. eapply step_borrow_book; [exact H|]. apply surjective_pairing.
Qed.

Lemma step_return_book_run now return_data current_user s :
  step s (return_book now return_data current_user s).2.
Proof. eapply step_return_book. apply surjective_pairing. Qed.

Lemma step_get_overdue_books_run now current_user s :
  step s (get_overdue_books now current_user s).2.
Proof. eapply step_get_overdue_books. apply surjective_pairing. Qed.

Lemma reachable_store_users : reachable Fixture.store_users.
Proof.
  apply reachable_step with Fixture.store_member.
  - apply reachable_step with Fixture.store_staff.
    + apply reachable_step with empty_store; [apply rtc_refl|].
      apply step_register_run. apply (bool_decide_unpack _). by vm_compute.
    + apply step_register_run. apply (bool_decide_unpack _). by vm_compute.
  - apply step_register_run. apply (bool_decide_unpack _). by vm_compute.
Qed.

Lemma reachable_store_lent : reachable Fixture.store_lent.
Proof.
  apply reachable_step with Fixture.store_catalog.
  - apply reachable_step with Fixture.store_users.
    + apply reachable_store_users.
    + apply step_create_book_run. apply (bool_decide_unpack _). by vm_compute.
  - apply step_borrow_book_run. apply (bool_decide_unpack _). by vm_compute.
Qed.

Lemma borrow_rejects_second_borrowed_witness :
  borrow_book "l-9" (Fixture.t0 + day) (BorrowRequest.parse "b-dune" None)
    Fixture.alice Fixture.store_lent
  = (Raise AlreadyBorrowed, Fixture.store_lent)
  /\ (length (borrowed_loans "u-alice" "b-dune" (borrows Fixture.store_lent))
      <= 1)%nat.
Proof.
  destruct (borrow_rejects_second_borrowed Fixture.store_lent
              reachable_store_lent) as [Hreject Hone].
  split; [|apply Hone].
  apply (Hreject "l-9" (Fixture.t0 + day) (BorrowRequest.parse "b-dune" None)
           Fixture.alice
           (new_record "l-1" Fixture.t0 (Fixture.t0 + 14 * day)
              (BorrowRequest.parse "b-dune" None) Fixture.alice)).
  - vm_compute. apply list_elem_of_here.
  - reflexivity.
  - reflexivity.
  - reflexivity.
Defined.

(** C2 as stated fails twice.  With no copy left the call of a user who has
    the book borrowed raises "Book not available", not [AlreadyBorrowed].
    And a user whose loan has become overdue borrows the book again: two
    active loans of one user on one book. *)
Lemma borrow_with_active_loan :
  (exists r0,
     r0 ∈ borrows Fixture.store_sold_out
     /\ BorrowRecord.user_id r0 = "u-alice"
     /\ BorrowRecord.book_id r0 = "b-dune"
     /\ BorrowRecord.status r0 = borrowed
     /\ borrow_book "l-3" (Fixture.t0 + 2 * day)
          (BorrowRequest.parse "b-dune" None) Fixture.alice
          Fixture.store_sold_out
        = (Raise Exhausted, Fixture.store_sold_out)
     /\ Exhausted <> AlreadyBorrowed)
  /\ (exists r0 s',
        r0 ∈ borrows Fixture.store_swept
        /\ BorrowRecord.user_id r0 = "u-alice"
        /\ BorrowRecord.book_id r0 = "b-dune"
        /\ BorrowRecord.status r0 = overdue
        /\ borrow_book "l-3" (Fixture.t0 + 18 * day)
             (BorrowRequest.parse "b-dune" None) Fixture.alice
             Fixture.store_swept
           = (Ok (new_record "l-3" (Fixture.t0 + 18 * day)
                    (Fixture.t0 + 32 * day)
                    (BorrowRequest.parse "b-dune" None) Fixture.alice), s')
        /\ length (active_loans_of "u-alice" "b-dune" (borrows s')) = 2%nat).
Proof.
  split.
  - eexists. split; [vm_compute; apply list_elem_of_here|].
    repeat split; try reflexivity. discriminate.
  - exists (set_status overdue
              (new_record "l-1" Fixture.t0 (Fixture.t0 + 14 * day)
                 (BorrowRequest.parse "b-dune" None) Fixture.alice)),
           (borrow_book "l-3" (Fixture.t0 + 18 * day)
              (BorrowRequest.parse "b-dune" None) Fixture.alice
              Fixture.store_swept).2.
    split; [vm_compute; apply list_elem_of_here|].
    repeat split; by vm_compute.
Qed.

(** ** Sorting *)

Section SortFacts.
Context {A K : Type} (key : A -> K) (leb : K -> K -> bool).
Hypothesis leb_total : forall x y, leb x y = true \/ leb y x = true.
Hypothesis leb_trans :
  forall x y z, leb x y = true -> leb y z = true -> leb x z = true.

Lemma insert_desc_perm x l : insert_desc key leb x l ≡ₚ x :: l.
Proof.
  induction l as [|y l IH]; simpl; [done|].
  destruct (leb (key y) (key x)); [done|].
  rewrite IH. apply Permutation_swap.
Qed.

Lemma sort_desc_perm l : sort_desc key leb l ≡ₚ l.
Proof.
  induction l as [|x l IH]; simpl; [done|].
  rewrite insert_desc_perm. by rewrite IH.
Qed.

Lemma insert_desc_sorted x l :
  StronglySorted (descending key leb) l ->
  StronglySorted (descending key leb) (insert_desc key leb x l).
Proof.
  induction 1 as [|y l Hl IH Hy]; simpl.
  - repeat constructor.
  - destruct (leb (key y) (key x)) eqn:Hyx.
    + constructor; [by constructor|].
      constructor; [done|].
      eapply Forall_impl; [exact Hy|].
      intros z Hz. unfold descending in *. by eapply leb_trans.
    + constructor; [done|].
      rewrite insert_desc_perm. constructor; [|done].
      unfold descending. destruct (leb_total (key x) (key y)); congruence.
Qed.

Lemma sort_desc_sorted l : StronglySorted (descending key leb) (sort_desc key leb l).
Proof.
  induction l as [|x l IH]; simpl; [constructor|].
  by apply insert_desc_sorted.
Qed.

(** The sort is stable: elements whose keys are pairwise tied appear in
    the order they had. *)
Lemma insert_desc_filter (q : A -> bool) x l :
  (forall a b, q a = true -> q b = true -> leb (key a) (key b) = true) ->
  List.filter q (insert_desc key leb x l) = List.filter q (x :: l).
Proof.
  intros Htied. induction l as [|y l IH]; [done|].
  cbn [insert_desc]. destruct (leb (key y) (key x)) eqn:Hyx; [done|].
  cbn [List.filter]. rewrite IH. cbn [List.filter].
  destruct (q y) eqn:Hqy, (q x) eqn:Hqx; try done.
  rewrite (Htied y x) in Hyx; done.
Qed.

Lemma sort_desc_stable (q : A -> bool) l :
  (forall a b, q a = true -> q b = true -> leb (key a) (key b) = true) ->
  List.filter q (sort_desc key leb l) = List.filter q l.
Proof.
  intros Htied. induction l as [|x l IH]; [done|].
  cbn [sort_desc foldr]. fold (sort_desc key leb l).
  rewrite insert_desc_filter by done.
  cbn [List.filter]. by rewrite IH.
Qed.
End SortFacts.

Lemma StronglySorted_weaken {A} (R R' : A -> A -> Prop) (l : list A) :
  (forall a b, R a b -> R' a b) -> StronglySorted R l -> StronglySorted R' l.
Proof.
  intros HR. induction 1 as [|a l Hl IH Ha]; constructor; [done|].
  eapply Forall_impl; [exact Ha|]. auto.
Qed.

Lemma Zleb_total x y : (x <=? y) = true \/ (y <=? x) = true.
Proof. destruct (Z.le_ge_cases x y); [left|right]; by apply Z.leb_le. Qed.

Lemma Zleb_trans x y z :
  (x <=? y) = true -> (y <=? z) = true -> (x <=? z) = true.
Proof. rewrite !Z.leb_le. lia. Qed.

Lemma Qle_bool_total x y : Qle_bool x y = true \/ Qle_bool y x = true.
Proof.
  rewrite !Qle_bool_iff.
  destruct (Qlt_le_dec x y); [left; by apply Qlt_le_weak | by right].
Qed.

Lemma Qle_bool_trans x y z :
  Qle_bool x y = true -> Qle_bool y z = true -> Qle_bool x z = true.
Proof. rewrite !Qle_bool_iff. apply Qle_trans. Qed.

(** ** Recommendations without a reading history *)

Lemma find_all {A} (c : list A) : find (fun _ => true) c = c.
Proof. unfold find. induction c as [|x c IH]; simpl; by rewrite ?IH. Qed.

Lemma foldl_snoc_fmap {A B} (f : A -> B) (acc : list B) (l : list A) :
  foldl (fun out x => out ++ [f x]) acc l = acc ++ (f <$> l).
Proof.
  revert acc. induction l as [|x l IH]; intros acc; simpl.
  - by rewrite app_nil_r.
  - rewrite IH. by rewrite <- app_assoc.
Qed.

Lemma limit_then_to_list {A} (limit : Z) (c : list A) :
  0 <= limit ->
  to_list_checked limit (cursor_limit limit c) = Ok (take (Z.to_nat limit) c).
Proof.
  intros Hlimit. unfold to_list_checked, cursor_limit.
  replace (limit <? 0) with false by (symmetry; by apply Z.ltb_ge).
  destruct (limit =? 0) eqn:Hzero; [done|].
  rewrite Zabs2Nat.abs_nat_nonneg by done.
  by rewrite take_take, Nat.min_id.
Qed.

Lemma get_book_recommendations_popular user_id limit s user :
  find_one (user_has_id user_id) (users s) = Some user ->
  User.reading_history user = [] ->
  0 <= limit ->
  get_book_recommendations user_id limit s
  = (Ok (popular_recommendation
           <$> take (Z.to_nat limit) (sort_desc Book.created_at Z.leb (books s))),
     s).
Proof.
  intros Huser Hhist Hlimit.
  unfold get_book_recommendations, bind, gets, ret. simpl.
  rewrite Huser, Hhist. rewrite find_all, limit_then_to_list by done.
  by rewrite foldl_snoc_fmap.
Qed.

(** C8. For a user without reading history and a limit that is a count, the
    answer is made of [limit] books of the catalog, all of them when there
    are fewer: no book left out was cataloged after a book in the answer,
    the answer goes from the most recent to the oldest, and each element
    carries the identifier, title and author of its book, the score 0.5 and
    the reason "Popular book". *)
Theorem popular_books_for_empty_history
    (user_id : string) (limit : Z) (s : Store) (user : User.t) :
  find_one (user_has_id user_id) (users s) = Some user ->
  User.reading_history user = [] ->
  0 <= limit ->
  exists recs chosen rest,
    get_book_recommendations user_id limit s = (Ok recs, s)
    /\ books s ≡ₚ chosen ++ rest
    /\ length chosen = Nat.min (Z.to_nat limit) (length (books s))
    /\ (forall b b', b ∈ chosen -> b' ∈ rest ->
          Book.created_at b' <= Book.created_at b)
    /\ StronglySorted
         (fun b b' => Book.created_at b' <= Book.created_at b) chosen
    /\ Forall2
         (fun b rec =>
            BookRecommendation.book_id rec = Book.id b
            /\ BookRecommendation.title rec = Book.title b
            /\ BookRecommendation.author rec = Book.author b
            /\ BookRecommendation.similarity_score rec = 0.5%Q
            /\ BookRecommendation.reason rec = "Popular book")
         chosen recs.
Proof.
  intros Huser Hhist Hlimit.
  set (sorted := sort_desc Book.created_at Z.leb (books s)).
  assert (StronglySorted (fun b b' => Book.created_at b' <= Book.created_at b)
            sorted) as Hsorted.
  { eapply StronglySorted_weaken;
      [|apply (sort_desc_sorted Book.created_at Z.leb Zleb_total Zleb_trans)].
    intros b b' H. by apply Z.leb_le. }
  assert (sorted ≡ₚ books s) as Hperm by apply sort_desc_perm.
  exists (popular_recommendation <$> take (Z.to_nat limit) sorted),
         (take (Z.to_nat limit) sorted), (drop (Z.to_nat limit) sorted).
  split; [by eapply get_book_recommendations_popular|].
  rewrite <- (take_drop (Z.to_nat limit) sorted) in Hsorted.
  split; [by rewrite take_drop|].
  split; [by rewrite length_take, Hperm|].
  split.
  { intros b b' Hb Hb'.
    exact (StronglySorted_app_1_elem_of _ _ _ b b' Hsorted Hb Hb'). }
  split; [by eapply StronglySorted_app_1_l|].
  apply Forall2_fmap_r, Forall_Forall2_diag, Forall_forall. done.
Qed.

Lemma popular_books_for_empty_history_witness :
  exists recs chosen rest,
    get_book_recommendations "u-bob" 5 Fixture.store_lent
      = (Ok recs, Fixture.store_lent)
    /\ books Fixture.store_lent ≡ₚ chosen ++ rest
    /\ length chosen = Nat.min (Z.to_nat 5) (length (books Fixture.store_lent))
    /\ (forall b b', b ∈ chosen -> b' ∈ rest ->
          Book.created_at b' <= Book.created_at b)
    /\ StronglySorted
         (fun b b' => Book.created_at b' <= Book.created_at b) chosen
    /\ Forall2
         (fun b rec =>
            BookRecommendation.book_id rec = Book.id b
            /\ BookRecommendation.title rec = Book.title b
            /\ BookRecommendation.author rec = Book.author b
            /\ BookRecommendation.similarity_score rec = 0.5%Q
            /\ BookRecommendation.reason rec = "Popular book")
         chosen recs.
Proof.
  apply (popular_books_for_empty_history "u-bob" 5 Fixture.store_lent
           Fixture.bob).
  - reflexivity.
  - reflexivity.
  - discriminate.
Defined.

(** ** Recommendations from a reading history *)

Lemma collect_genres_spec read : collect_genres read = spec_user_genres read.
Proof.
  unfold collect_genres, spec_user_genres.
  assert (forall acc : gset string,
            foldl (fun user_genres book => user_genres ∪ {[Book.genre book]})
              acc read
            = acc ∪ list_to_set (Book.genre <$> read)) as H.
  { induction read as [|b read IH]; intros acc; simpl.
    - by rewrite (right_id_L ∅ (∪)).
    - rewrite IH. by rewrite (assoc_L (∪)). }
  rewrite H. by rewrite (left_id_L ∅ (∪)).
Qed.

Lemma collect_tags_spec read : collect_tags read = spec_user_tags read.
Proof.
  unfold collect_tags, spec_user_tags.
  assert (forall acc : gset string,
            foldl (fun user_tags book =>
                     user_tags ∪ list_to_set (Book.tags book)) acc read
            = acc ∪ list_to_set (read ≫= Book.tags)) as H.
  { induction read as [|b read IH]; intros acc; simpl.
    - by rewrite (right_id_L ∅ (∪)).
    - rewrite IH, list_to_set_app_L. by rewrite (assoc_L (∪)). }
  rewrite H. by rewrite (left_id_L ∅ (∪)).
Qed.

(** The loop appends: what a book adds does not depend on what is there. *)
Lemma recommend_step_app reading_history user_genres user_tags acc book :
  recommend_step reading_history user_genres user_tags acc book
  = acc ++ recommend_step reading_history user_genres user_tags [] book.
Proof.
  unfold recommend_step.
  destruct (bool_decide _); [by rewrite app_nil_r|].
  destruct (score_book _ _ _) as [score reasons].
  destruct (Qpos_bool score); [done | by rewrite app_nil_r].
Qed.

Lemma foldl_recommend_step reading_history user_genres user_tags acc l :
  foldl (recommend_step reading_history user_genres user_tags) acc l
  = acc ++ (l ≫= recommend_step reading_history user_genres user_tags []).
Proof.
  revert acc. induction l as [|b l IH]; intros acc; simpl.
  - by rewrite app_nil_r.
  - rewrite IH, recommend_step_app. by rewrite <- app_assoc.
Qed.

(** The score that lines 508-521 accumulate is the score of the rule. *)
Lemma score_book_spec read book :
  ((score_book (spec_user_genres read) (spec_user_tags read) book).1
   == spec_score read book)%Q.
Proof.
  unfold score_book, spec_score.
  rewrite (comm_L (∩) (spec_user_tags read)).
  destruct (bool_decide (Book.genre book ∈ spec_user_genres read));
    destruct (bool_decide (_ ≠ ∅)) eqn:Hcommon; simpl; try ring.
  - apply bool_decide_eq_false in Hcommon.
    apply dec_stable in Hcommon. rewrite Hcommon, size_empty. simpl. ring.
  - apply bool_decide_eq_false in Hcommon.
    apply dec_stable in Hcommon. rewrite Hcommon, size_empty. simpl. ring.
Qed.

Lemma Qpos_bool_proper x y : (x == y)%Q -> Qpos_bool x = Qpos_bool y.
Proof. intros H. unfold Qpos_bool. by rewrite H. Qed.

(** One turn of the loop, against the rule. *)
Lemma recommend_step_spec reading_history read book :
  if spec_eligible reading_history read book
  then exists rec,
         recommend_step reading_history (spec_user_genres read)
           (spec_user_tags read) [] book = [rec]
         /\ recommends read book rec
  else recommend_step reading_history (spec_user_genres read)
         (spec_user_tags read) [] book = [].
Proof.
  unfold spec_eligible, recommend_step.
  pose proof (score_book_spec read book) as Hscore.
  destruct (bool_decide (Book.id book ∈ reading_history)); simpl; [done|].
  destruct (score_book _ _ book) as [score reasons]. simpl in Hscore.
  rewrite <- (Qpos_bool_proper _ _ Hscore).
  destruct (Qpos_bool score); [|done].
  eexists. split; [done|]. by repeat split.
Qed.

Lemma candidates_spec reading_history read catalog :
  Forall2 (recommends read)
    (List.filter (spec_eligible reading_history read) catalog)
    (catalog ≫= recommend_step reading_history (spec_user_genres read)
                   (spec_user_tags read) []).
Proof.
  induction catalog as [|b catalog IH]; simpl; [constructor|].
  pose proof (recommend_step_spec reading_history read b) as Hb.
  destruct (spec_eligible reading_history read b).
  - destruct Hb as (rec & -> & Hrec). simpl. by constructor.
  - rewrite Hb. done.
Qed.

Lemma slice_to_nonneg {A} (k : Z) (l : list A) :
  0 <= k -> slice_to k l = take (Z.to_nat k) l.
Proof.
  intros H. unfold slice_to.
  by replace (0 <=? k) with true by (symmetry; by apply Z.leb_le).
Qed.

Lemma get_book_recommendations_history user_id limit s user :
  find_one (user_has_id user_id) (users s) = Some user ->
  User.reading_history user <> [] ->
  0 <= limit ->
  get_book_recommendations user_id limit s
  = (Ok (take (Z.to_nat limit)
           (sort_desc BookRecommendation.similarity_score Qle_bool
              (take 1000 (books s)
                 ≫= recommend_step (User.reading_history user)
                       (spec_user_genres
                          (take 1000
                             (history_books (User.reading_history user)
                                (books s))))
                       (spec_user_tags
                          (take 1000
                             (history_books (User.reading_history user)
                                (books s))))
                       []))),
     s).
Proof.
  intros Huser Hhist Hlimit.
  unfold get_book_recommendations, bind, gets, ret. simpl.
  rewrite Huser. destruct (User.reading_history user) as [|h H] eqn:HH; [done|].
  rewrite slice_to_nonneg, find_all by done.
  rewrite foldl_recommend_step, collect_genres_spec, collect_tags_spec.
  done.
Qed.

(** C7, as the code has it.  For a user with a reading history [H] and a
    limit that is a count, with the catalog read up to its first 1000 books
    and the books of [H] up to the first 1000 of them: the candidates are, in
    catalog order, the books of the catalog read that are not in [H] and
    whose score [0.5·[genre ∈ user_genres] + 0.2·|tags ∩ user_tags|] is
    positive, each with that score; the answer is the first [limit] of the
    candidates sorted by decreasing score, candidates of equal score keeping
    their catalog order.  For a history of one "Sci-Fi" book with tags a, b
    the "Sci-Fi" book with tags b, c scores 0.7. *)
Theorem recommendations_by_score
    (user_id : string) (limit : Z) (s : Store) (user : User.t) :
  find_one (user_has_id user_id) (users s) = Some user ->
  User.reading_history user <> [] ->
  0 <= limit ->
  let H := User.reading_history user in
  let read := take 1000 (history_books H (books s)) in
  let catalog := take 1000 (books s) in
  exists recs candidates ranked,
    get_book_recommendations user_id limit s = (Ok recs, s)
    /\ Forall2 (recommends read)
         (List.filter (spec_eligible H read) catalog) candidates
    /\ ranked ≡ₚ candidates
    /\ StronglySorted
         (fun x y =>
            (BookRecommendation.similarity_score y
             <= BookRecommendation.similarity_score x)%Q) ranked
    /\ (forall k,
          List.filter
            (fun x => Qeq_bool (BookRecommendation.similarity_score x) k)
            ranked
          = List.filter
              (fun x => Qeq_bool (BookRecommendation.similarity_score x) k)
              candidates)
    /\ recs = take (Z.to_nat limit) ranked
    /\ ((score_book (collect_genres [Fixture.book_read])
           (collect_tags [Fixture.book_read]) Fixture.book_x).1 == 0.7)%Q.
Proof.
  intros Huser Hhist Hlimit H read catalog.
  set (candidates :=
         catalog ≫= recommend_step H (spec_user_genres read)
                       (spec_user_tags read) []).
  exists (take (Z.to_nat limit)
            (sort_desc BookRecommendation.similarity_score Qle_bool candidates)),
         candidates,
         (sort_desc BookRecommendation.similarity_score Qle_bool candidates).
  split; [by apply get_book_recommendations_history|].
  split; [apply candidates_spec|].
  split; [apply sort_desc_perm|].
  split.
  { eapply StronglySorted_weaken;
      [|apply (sort_desc_sorted BookRecommendation.similarity_score Qle_bool
                 Qle_bool_total Qle_bool_trans)].
    intros x y Hxy. by apply Qle_bool_iff. }
  split.
  { intros k. apply sort_desc_stable. intros a b Ha Hb.
    apply Qeq_bool_iff in Ha, Hb. apply Qle_bool_iff.
    rewrite Ha, Hb. apply Qle_refl. }
  split; [done|]. by vm_compute.
Qed.

Lemma recommendations_by_score_witness :
  exists recs candidates ranked,
    get_book_recommendations "u-carol" 5 Fixture.store_scenario_d
      = (Ok recs, Fixture.store_scenario_d)
    /\ Forall2 (recommends [Fixture.book_read]) [Fixture.book_x] candidates
    /\ ranked ≡ₚ candidates
    /\ recs = take 5 ranked.
Proof.
  destruct (recommendations_by_score "u-carol" 5 Fixture.store_scenario_d
              Fixture.carol)
    as (recs & candidates & ranked & Hrun & Hcand & Hperm & _ & _ & Hrecs & _).
  - reflexivity.
  - discriminate.
  - discriminate.
  - exists recs, candidates, ranked.
    split; [exact Hrun|]. split; [exact Hcand|]. split; [exact Hperm|].
    exact Hrecs.
Defined.

(** C7 as stated fails on the shelf: the last of the 1001 volumes is not in
    the history of the reader and scores 0.7 under the rule, and it is not in
    the answer, however large the limit. *)
Lemma recommendations_skip_book_beyond_1000 :
  exists recs,
    get_book_recommendations "u-alice" 2000 Fixture.store_shelf
      = (Ok recs, Fixture.store_shelf)
    /\ find_one (user_has_id "u-alice") (users Fixture.store_shelf)
       = Some Fixture.alice_reader
    /\ last (books Fixture.store_shelf) = Some Fixture.last_volume
    /\ spec_eligible (User.reading_history Fixture.alice_reader)
         (history_books (User.reading_history Fixture.alice_reader)
            (books Fixture.store_shelf))
         Fixture.last_volume = true
    /\ (spec_score
          (history_books (User.reading_history Fixture.alice_reader)
             (books Fixture.store_shelf))
          Fixture.last_volume == 0.7)%Q
    /\ (Book.id Fixture.last_volume ∉ BookRecommendation.book_id <$> recs)
    /\ length recs = 999%nat.
Proof.
  eexists. split.
  { apply (get_book_recommendations_history _ _ _ Fixture.alice_reader);
      [by vm_compute | discriminate | discriminate]. }
  split; [by vm_compute|]. split; [by vm_compute|].
  split; [by vm_compute|]. split; [by vm_compute|].
  split; [|by vm_compute].
  apply (proj1 (bool_decide_eq_false _)). by vm_compute.
Qed.

(** ** Overdue predictions *)

(** The filter of lines 591-595 compares a date or null with a string: it
    matches no loan. *)
Lemma user_overdue_count_zero u c :
  count_documents (user_overdue_filter u) c = 0.
Proof.
  unfold count_documents. rewrite find_nil_iff; [done|].
  intros r _. unfold user_overdue_filter, returned_at_value.
  destruct (BorrowRecord.returned_at r); simpl; apply andb_false_r.
Qed.

(** C3 fails on the code.  The count of late loans that the endpoint divides
    is 0 for every user and store.  Alice has one loan returned five days
    late and one borrowed loan due in ten days: the rule gives the rate 1/2,
    the probability 0.5 and the level Medium; the endpoint answers the
    probability 0 and the level Low. *)
Theorem overdue_rate_ignores_history :
  (forall u c, count_documents (user_overdue_filter u) c = 0)
  /\ (exists p,
        get_overdue_predictions (Fixture.t0 + 24 * day) Fixture.librarian
          Fixture.store_again = (Ok [p], Fixture.store_again)
        /\ OverduePrediction.borrow_id p = "l-4"
        /\ (OverduePrediction.probability p == 0)%Q
        /\ OverduePrediction.risk_level p = "Low")
  /\ (spec_overdue_rate "u-alice" (borrows Fixture.store_again) == 1 # 2)%Q
  /\ (probability_of 10
        (spec_overdue_rate "u-alice" (borrows Fixture.store_again)) == 0.5)%Q
  /\ risk_level_of
       (probability_of 10
          (spec_overdue_rate "u-alice" (borrows Fixture.store_again)))
     = "Medium".
Proof.
  split; [apply user_overdue_count_zero|].
  split; [|by vm_compute].
  eexists. split; [by vm_compute|]. by vm_compute.
Qed.

(** ** Availability accounting *)

Lemma update_book_unique x f (c : list Book.t) :
  NoDup (Book.id <$> c) ->
  update_one (book_has_id x) f c
  = (fun b => if bool_decide (Book.id b = x) then f b else b) <$> c.
Proof.
  induction c as [|b c IH]; [done|].
  rewrite fmap_cons. intros [Hb Hc]%NoDup_cons.
  cbn [update_one]. unfold book_has_id at 1. rewrite fmap_cons.
  destruct (bool_decide (Book.id b = x)) eqn:Hid.
  - f_equal. apply bool_decide_eq_true in Hid. subst x.
    clear IH Hc. induction c as [|b' c IH]; [done|].
    rewrite fmap_cons in Hb. apply not_elem_of_cons in Hb as [Hne Hb].
    rewrite fmap_cons, <- IH by done.
    by rewrite bool_decide_eq_false_2.
  - f_equal. by apply IH.
Qed.

Lemma find_book_unique (c : list Book.t) b b' :
  NoDup (Book.id <$> c) -> b ∈ c ->
  find_one (book_has_id (Book.id b)) c = Some b' -> b' = b.
Proof.
  intros Hids [i Hi]%list_elem_of_lookup [Hin' Hid]%find_one_Some.
  apply bool_decide_eq_true in Hid.
  apply list_elem_of_lookup in Hin' as [j Hj].
  assert (j = i) as ->; [|congruence].
  eapply NoDup_lookup; [exact Hids| |].
  - rewrite list_lookup_fmap, Hj. done.
  - rewrite list_lookup_fmap, Hi. simpl. by rewrite Hid.
Qed.

Lemma active_loans_snoc b c r :
  active_loans b (c ++ [r])
  = active_loans b c + (if active_on b r then 1 else 0).
Proof.
  unfold active_loans. rewrite count_documents_app, count_documents_cons.
  change (count_documents (active_on b) []) with 0. lia.
Qed.

Lemma active_loans_middle b c1 r c2 :
  active_loans b (c1 ++ r :: c2)
  = active_loans b c1 + (if active_on b r then 1 else 0) + active_loans b c2.
Proof.
  unfold active_loans. rewrite count_documents_app, count_documents_cons. lia.
Qed.

Lemma active_on_new_record b new_id now due_date borrow_data current_user :
  active_on b (new_record new_id now due_date borrow_data current_user)
  = bool_decide (BorrowRequest.book_id borrow_data = b).
Proof. unfold active_on, is_active. simpl. apply andb_true_r. Qed.

Lemma active_on_set_returned b t f r : active_on b (set_returned t f r) = false.
Proof. unfold active_on, is_active. simpl. apply andb_false_r. Qed.

Lemma not_returned_active r :
  BorrowRecord.status r <> returned -> is_active r = true.
Proof. unfold is_active. by destruct (BorrowRecord.status r). Qed.

Lemma active_on_active b r :
  is_active r = true ->
  active_on b r = bool_decide (BorrowRecord.book_id r = b).
Proof. intros H. unfold active_on. rewrite H. apply andb_true_r. Qed.

(** A successful borrow takes one copy and adds one active loan. *)
Lemma borrow_book_keeps_invariant new_id now borrow_data current_user s r s' :
  NoDup (book_ids s) ->
  ledger_invariant s ->
  borrow_book new_id now borrow_data current_user s = (r, s') ->
  ledger_invariant s'.
Proof.
  intros Hids Hinv Hrun. destruct r as [rec|e];
    [|apply borrow_book_Raise in Hrun; by subst].
  apply borrow_book_Ok in Hrun as (book & Hbook & Hav & _ & -> & ->).
  unfold ledger_invariant in *. simpl.
  rewrite update_book_unique by done.
  apply Forall_fmap, Forall_forall. intros b Hb.
  pose proof (proj1 (Forall_forall _ _) Hinv b Hb) as [Hrange Heq].
  unfold book_consistent. simpl.
  destruct (bool_decide (Book.id b = BorrowRequest.book_id borrow_data))
    eqn:Hid; simpl; rewrite active_loans_snoc, active_on_new_record.
  - apply bool_decide_eq_true in Hid. rewrite <- Hid in Hbook.
    apply (find_book_unique _ b) in Hbook; [|done..]. subst book.
    rewrite bool_decide_eq_true_2 by done. lia.
  - apply bool_decide_eq_false in Hid.
    rewrite bool_decide_eq_false_2 by done. lia.
Qed.

(** A successful return gives the copy back and ends one active loan. *)
Lemma return_book_keeps_invariant now return_data current_user s r s' :
  NoDup (book_ids s) ->
  ledger_invariant s ->
  return_book now return_data current_user s = (r, s') ->
  ledger_invariant s'.
Proof.
  intros Hids Hinv. rewrite return_book_cases.
  destruct (find_one _ _) as [r0|] eqn:Hfind; [|by intros [= <- <-]].
  destruct (negb _ && negb _); [by intros [= <- <-]|].
  destruct (bool_decide (BorrowRecord.status r0 = returned)) eqn:Hst;
    [by intros [= <- <-]|].
  apply bool_decide_eq_false, not_returned_active in Hst.
  intros [= <- <-]. unfold ledger_invariant in *. simpl.
  destruct (update_one_split _
              (set_returned now
                 (fine_on_return now (BorrowRecord.due_date r0)))
              _ _ Hfind) as (c1 & c2 & Hc & -> & _).
  rewrite Hc in Hinv. rewrite update_book_unique by done.
  apply Forall_fmap, Forall_forall. intros b Hb.
  pose proof (proj1 (Forall_forall _ _) Hinv b Hb) as [Hrange Heq].
  rewrite active_loans_middle, (active_on_active _ _ Hst) in Heq.
  pose proof (count_documents_nonneg (active_on (Book.id b)) c1).
  pose proof (count_documents_nonneg (active_on (Book.id b)) c2).
  unfold book_consistent. simpl.
  destruct (bool_decide (Book.id b = BorrowRecord.book_id r0)) eqn:Hid;
    simpl; rewrite active_loans_middle, active_on_set_returned.
  - apply bool_decide_eq_true in Hid.
    rewrite bool_decide_eq_true_2 in Heq by done.
    unfold active_loans in *. lia.
  - apply bool_decide_eq_false in Hid.
    rewrite bool_decide_eq_false_2 in Heq by done.
    unfold active_loans in *. lia.
Qed.

Lemma count_documents_fmap_ext {A} (p : A -> bool) (f : A -> A) (c : list A) :
  (forall x, x ∈ c -> p (f x) = p x) ->
  count_documents p (f <$> c) = count_documents p c.
Proof.
  intros H. induction c as [|x c IH]; [done|].
  rewrite fmap_cons, !count_documents_cons.
  rewrite H by (by left). rewrite IH; [done|].
  intros y Hy. apply H. by right.
Qed.

(** The sweep moves loans between two active statuses. *)
Lemma get_overdue_books_keeps_invariant now current_user s r s' :
  NoDup (borrow_ids s) ->
  ledger_invariant s ->
  get_overdue_books now current_user s = (r, s') ->
  ledger_invariant s'.
Proof.
  intros Hids Hinv. rewrite get_overdue_books_cases.
  destruct (negb _); [by intros [= <- <-]|].
  intros [= <- <-]. unfold ledger_invariant in *. simpl.
  rewrite mark_overdue_swept by done.
  eapply Forall_impl; [exact Hinv|]. intros b [Hrange Heq].
  unfold book_consistent, active_loans.
  rewrite count_documents_fmap_ext; [done|].
  intros r0 Hr0. unfold swept.
  destruct (bool_decide _) eqn:Hsel; [|done].
  apply bool_decide_eq_true in Hsel.
  apply list_elem_of_fmap in Hsel as (r1 & Hid & Hr1).
  apply selected_spec in Hr1 as (Hin1 & Hb1 & _).
  assert (r0 = r1) as -> by (by eapply unique_id_eq).
  unfold active_on, is_active. simpl. rewrite Hb1. simpl. done.
Qed.

(** C1 fails on the code.  The store in which Alice holds one of the two
    copies is reachable and satisfies the invariant; the librarian sets
    [total_copies] to 5; in the store reached the book has 5 copies in total,
    1 available and 1 active loan, and the invariant is lost. *)
Theorem update_book_breaks_availability :
  reachable Fixture.store_lent
  /\ ledger_invariant Fixture.store_lent
  /\ exists b s',
       update_book "b-dune" Fixture.five_copies Fixture.librarian
         Fixture.store_lent = (Ok b, s')
       /\ reachable s'
       /\ books s' = [b]
       /\ Book.total_copies b = 5
       /\ Book.available_copies b = 1
       /\ active_loans (Book.id b) (borrows s') = 1
       /\ ~ ledger_invariant s'.
Proof.
  split; [apply reachable_store_lent|].
  split; [apply (bool_decide_unpack _); by vm_compute|].
  eexists _, _. split; [by vm_compute|].
  split.
  { apply reachable_step with Fixture.store_lent;
      [apply reachable_store_lent|].
    eapply (step_update_book _ "b-dune" Fixture.five_copies
              Fixture.librarian).
    by vm_compute. }
  repeat split; try by vm_compute.
  apply (proj1 (bool_decide_eq_false _)). by vm_compute.
Qed.

(** ** Identifiers in reachable stores *)

(** The four ways in which a request changes the [books] collection. *)
Lemma step_books s s' :
  step s s' ->
  books s' = books s
  \/ (exists b, (Book.id b ∉ book_ids s) /\ books s' = books s ++ [b])
  \/ (exists x f,
        (forall b, Book.id (f b) = Book.id b)
        /\ books s' = update_one (book_has_id x) f (books s))
  \/ (exists x, books s' = (delete_one (book_has_id x) (books s)).1).
Proof.
  intros [new_id now ph ud r s1 _ H
         |new_id now bd u r s1 Hfresh H
         |bid bd u r s1 H
         |bid u r s1 H
         |new_id now bd u r s1 _ H
         |now rd u r s1 H
         |now u r s1 H].
  - left. by apply register_borrows in H as [_ ?].
  - unfold create_book, bind, modify, set_books, raise, ret in H.
    destruct (negb _); [left; by simplify_eq|].
    right; left. simplify_eq. eexists. split; [|done]. done.
  - unfold update_book, bind, gets, modify, set_books, raise, ret in H.
    simpl in H.
    destruct (negb (is_librarian _)); [left; by simplify_eq|].
    destruct (find_one _ _); [|left; by simplify_eq].
    destruct (negb (update_data_empty _)); [|left; by simplify_eq].
    right; right; left. exists bid, (set_book_fields bd).
    split; [done|]. destruct (find_one _ _); by simplify_eq.
  - unfold delete_book, bind, set_books, raise, ret in H.
    destruct (negb _); [left; by simplify_eq|].
    right; right; right. exists bid.
    destruct (delete_one _ _) as [c n]. simpl in *.
    destruct (n =? 0); by simplify_eq.
  - destruct r as [rec|e].
    + apply borrow_book_Ok in H as (book & _ & _ & _ & _ & ->).
      right; right; left. eexists _, _. split; [|done]. done.
    + left. apply borrow_book_Raise in H. by subst.
  - rewrite return_book_cases in H.
    destruct (find_one _ _) as [r0|]; [|left; by simplify_eq].
    destruct (negb _ && negb _); [left; by simplify_eq|].
    destruct (bool_decide _); [left; by simplify_eq|].
    right; right; left. simplify_eq. eexists _, _. split; [|done]. done.
  - rewrite get_overdue_books_cases in H.
    destruct (negb _); left; by simplify_eq.
Qed.

Lemma step_unique_book_ids s s' :
  step s s' -> NoDup (book_ids s) -> NoDup (book_ids s').
Proof.
  unfold book_ids.
  intros [->|[(b & Hfresh & ->)|[(x & f & Hf & ->)|(x & ->)]]]%step_books Hids.
  - done.
  - rewrite fmap_app. apply NoDup_app. split; [done|]. split.
    + intros y Hy [->|[]%elem_of_nil]%elem_of_cons. done.
    + apply NoDup_singleton.
  - by rewrite update_one_fmap.
  - eapply sublist_NoDup; [exact Hids|].
    apply fmap_sublist, delete_one_sublist.
Qed.

(** Every reachable store has unique loan and book identifiers. *)
Lemma reachable_unique_ids s : reachable s -> unique_ids s.
Proof.
  unfold reachable. intros H.
  apply (rtc_ind_r (R:=step) unique_ids empty_store); [| |exact H].
  - split; apply NoDup_nil_2.
  - intros s1 s2 _ Hstep [Hborrows Hbooks]. split.
    + by eapply step_unique_borrow_ids.
    + by eapply step_unique_book_ids.
Qed.

(** * Properties of the other endpoints *)

(** ** Generic facts *)

Lemma find_one_app_r {A} (p : A -> bool) (c c' : list A) :
  find_one p c = None -> find_one p (c ++ c') = find_one p c'.
Proof.
  unfold find_one. induction c as [|x c IH]; simpl; [done|].
  destruct (p x); [done | auto].
Qed.

Lemma update_one_unique_key {A} (key : A -> string) x f (c : list A) :
  NoDup (key <$> c) ->
  update_one (fun d => bool_decide (key d = x)) f c
  = (fun d => if bool_decide (key d = x) then f d else d) <$> c.
Proof.
  induction c as [|d c IH]; [done|].
  rewrite fmap_cons. intros [Hd Hc]%NoDup_cons.
  cbn [update_one]. rewrite fmap_cons.
  destruct (bool_decide (key d = x)) eqn:Hid.
  - f_equal. apply bool_decide_eq_true in Hid. subst x.
    clear IH Hc. induction c as [|d' c IH]; [done|].
    rewrite fmap_cons in Hd. apply not_elem_of_cons in Hd as [Hne Hd].
    rewrite fmap_cons, <- IH by done.
    by rewrite bool_decide_eq_false_2.
  - f_equal. by apply IH.
Qed.



(** ** Registration and login *)

Lemma register_cases new_id now password_hash user_data s :
  register new_id now password_hash user_data s =
  match find_one
          (fun u => bool_decide (User.email u = UserRegister.email user_data))
          (users s) with
  | Some _ => (Raise (HTTPException 400 "Email already registered"), s)
  | None =>
      let user :=
        User.mk new_id (UserRegister.name user_data)
          (UserRegister.email user_data) (UserRegister.role user_data)
          password_hash now [] [] in
      (Ok user, mkStore (users s ++ [user]) (books s) (borrows s))
  end.
Proof.
  unfold register, bind, gets. simpl. by destruct (find_one _ _).
Qed.

(** What a request does to the [users] collection: nothing, one new
    document whose email and identifier were not there, or one document
    rewritten with its identifier and email kept. *)
Lemma step_users s s' :
  step s s' ->
  users s' = users s
  \/ (exists u,
        (User.id u ∉ user_ids s)
        /\ (User.email u ∉ User.email <$> users s)
        /\ User.current_borrowings u = []
        /\ User.reading_history u = []
        /\ users s' = users s ++ [u])
  \/ (exists x f,
        (forall u, User.id (f u) = User.id u /\ User.email (f u) = User.email u)
        /\ users s' = update_one (user_has_id x) f (users s)).
Proof.
  intros [new_id now ph ud r s1 Hfresh H
         |new_id now bd u r s1 _ H
         |bid bd u r s1 H
         |bid u r s1 H
         |new_id now bd u r s1 _ H
         |now rd u r s1 H
         |now u r s1 H].
  - rewrite register_cases in H.
    destruct (find_one _ _) eqn:Hfind; [left; by simplify_eq|].
    cbv zeta in H. right; left. simplify_eq.
    eexists (User.mk new_id _ _ _ _ _ _ _). split; [exact Hfresh|].
    split; [|done]. simpl.
    intros (u & Heq & Hin)%list_elem_of_fmap.
    apply (find_one_None _ _ u) in Hfind; [|done].
    apply bool_decide_eq_false in Hfind. congruence.
  - unfold create_book, bind, modify, set_books, raise, ret in H.
    destruct (negb _); left; by simplify_eq.
  - unfold update_book, bind, gets, modify, set_books, raise, ret in H.
    simpl in H.
    destruct (negb (is_librarian _)); [left; by simplify_eq|].
    destruct (find_one _ _); [|left; by simplify_eq].
    destruct (negb (update_data_empty _)); [|left; by simplify_eq].
    destruct (find_one _ _); left; by simplify_eq.
  - unfold delete_book, bind, set_books, raise, ret in H.
    destruct (negb _); [left; by simplify_eq|].
    destruct (delete_one _ _) as [c n]. simpl in *.
    destruct (n =? 0); left; by simplify_eq.
  - destruct r as [rec|e].
    + apply borrow_book_Ok in H as (book & _ & _ & _ & _ & ->).
      right; right. eexists _, _. split; [|done]. done.
    + left. apply borrow_book_Raise in H. by subst.
  - rewrite return_book_cases in H.
    destruct (find_one _ _) as [r0|]; [|left; by simplify_eq].
    destruct (negb _ && negb _); [left; by simplify_eq|].
    destruct (bool_decide _); [left; by simplify_eq|].
    right; right. simplify_eq. eexists _, _. split; [|done]. done.
  - rewrite get_overdue_books_cases in H.
    destruct (negb _); left; by simplify_eq.
Qed.

Lemma step_unique_user_ids s s' :
  step s s' -> NoDup (user_ids s) -> NoDup (user_ids s').
Proof.
  unfold user_ids.
  intros [->|[(u & Hfresh & _ & _ & _ & ->)|(x & f & Hf & ->)]]%step_users Hids.
  - done.
  - rewrite fmap_app. apply NoDup_app. split; [done|]. split.
    + intros y Hy [->|[]%elem_of_nil]%elem_of_cons. done.
    + apply NoDup_singleton.
  - rewrite update_one_fmap; [done|]. intros u. apply Hf.
Qed.

Lemma reachable_unique_user_ids s : reachable s -> NoDup (user_ids s).
Proof.
  unfold reachable. intros H.
  apply (rtc_ind_r (R:=step) (fun s => NoDup (user_ids s)) empty_store);
    [| |exact H].
  - apply NoDup_nil_2.
  - intros s1 s2 _ Hstep IH. by eapply step_unique_user_ids.
Qed.

(** X1. No two accounts share an email: in every reachable store the emails
    of the users are pairwise distinct, and a registration with an email
    that a user of the store has is refused with "Email already registered"
    and writes nothing. *)
Theorem emails_are_unique (s : Store) :
  reachable s ->
  NoDup (User.email <$> users s)
  /\ forall new_id now password_hash user_data,
       UserRegister.email user_data ∈ User.email <$> users s ->
       register new_id now password_hash user_data s
       = (Raise (HTTPException 400 "Email already registered"), s).
Proof.
  intros Hreach. split.
  - unfold reachable in Hreach.
    apply (rtc_ind_r (R:=step) (fun s => NoDup (User.email <$> users s))
             empty_store); [| |exact Hreach].
    + apply NoDup_nil_2.
    + intros s1 s2 _
        [->|[(u & _ & Hfresh & _ & _ & ->)|(x & f & Hf & ->)]]%step_users IH.
      * done.
      * rewrite fmap_app. apply NoDup_app. split; [done|]. split.
        -- intros y Hy [->|[]%elem_of_nil]%elem_of_cons. done.
        -- apply NoDup_singleton.
      * rewrite update_one_fmap; [done|]. intros u. apply Hf.
  - intros new_id now ph ud (u & Hemail & Hin)%list_elem_of_fmap.
    rewrite register_cases.
    destruct (find_one _ _) eqn:Hfind; [done|].
    apply (find_one_None _ _ u) in Hfind; [|done].
    apply bool_decide_eq_false in Hfind. congruence.
Qed.

Lemma emails_are_unique_witness :
  NoDup (User.email <$> users Fixture.store_lent)
  /\ register "u-eve" Fixture.t0 "h9"
       (UserRegister.mk "Eve" "alice@example.org" "pw9" "librarian")
       Fixture.store_lent
     = (Raise (HTTPException 400 "Email already registered"),
        Fixture.store_lent).
Proof.
  destruct (emails_are_unique Fixture.store_lent reachable_store_lent)
    as [Hnodup Hreject].
  split; [exact Hnodup|].
  apply Hreject. apply (bool_decide_unpack _). vm_compute. exact I.
Defined.

Lemma login_cases hash_password user_data s :
  login hash_password user_data s =
  match find_one
          (fun u => bool_decide (User.email u = UserLogin.email user_data))
          (users s) with
  | None => (Raise (HTTPException 400 "Incorrect email or password"), s)
  | Some user =>
      if bool_decide
           (hash_password (UserLogin.password user_data)
            = User.password_hash user)
      then (Ok (user_response user), s)
      else (Raise (HTTPException 400 "Incorrect email or password"), s)
  end.
Proof.
  unfold login, bind, gets, verify_password. simpl.
  destruct (find_one _ _) as [user|]; [|done].
  by destruct (bool_decide _).
Qed.

(** X2. Registration and login fit together, whatever the hash function:
    after a successful registration with the hash of a password, a login
    with the same email answers the registered user exactly for the
    passwords with the same hash, and "Incorrect email or password" for the
    others; a login never writes. *)
Theorem login_after_register
    (hash_password : string -> string) (new_id : string) (now : Z)
    (user_data : UserRegister.t) (s s' : Store) (user : User.t) :
  register new_id now (hash_password (UserRegister.password user_data))
    user_data s = (Ok user, s') ->
  forall password,
    login hash_password
      (UserLogin.mk (UserRegister.email user_data) password) s'
    = (if bool_decide
            (hash_password password
             = hash_password (UserRegister.password user_data))
       then Ok (user_response user)
       else Raise (HTTPException 400 "Incorrect email or password"),
       s').
Proof.
  rewrite register_cases.
  destruct (find_one _ (users s)) eqn:Hfind; [done|].
  intros [= <- <-] password.
  rewrite login_cases. simpl.
  rewrite find_one_app_r by done. unfold find_one. simpl.
  rewrite bool_decide_eq_true_2 by done.
  by destruct (bool_decide _).
Qed.

Lemma login_after_register_witness :
  login Desk.toy_hash (UserLogin.mk "dana@example.org" "s3cret")
    Desk.store_dana
  = (Ok (UserResponse.mk "u-dana" "Dana" "dana@example.org" "member"
           Fixture.t0 []),
     Desk.store_dana)
  /\ login Desk.toy_hash (UserLogin.mk "dana@example.org" "guess")
       Desk.store_dana
     = (Raise (HTTPException 400 "Incorrect email or password"),
        Desk.store_dana).
Proof.
  pose proof (login_after_register Desk.toy_hash "u-dana" Fixture.t0
                Desk.dana_data Fixture.store_lent Desk.store_dana
                (User.mk "u-dana" "Dana" "dana@example.org" "member"
                   (Desk.toy_hash "s3cret") Fixture.t0 [] [])
                eq_refl) as Hlogin.
  split.
  - exact (Hlogin "s3cret").
  - exact (Hlogin "guess").
Defined.

(** ** The catalog *)

Lemma create_book_cases new_id now book_data current_user s :
  create_book new_id now book_data current_user s =
  if negb (is_librarian current_user)
  then (Raise (HTTPException 403 "Only librarians can add books"), s)
  else
    let book :=
      Book.mk new_id (BookCreate.title book_data) (BookCreate.author book_data)
        (BookCreate.isbn book_data) (BookCreate.genre book_data)
        (BookCreate.publication_year book_data)
        (BookCreate.description book_data)
        (BookCreate.total_copies book_data)
        (BookCreate.total_copies book_data)
        (BookCreate.tags book_data) now in
    (Ok book, mkStore (users s) (books s ++ [book]) (borrows s)).
Proof. unfold create_book. by destruct (negb _). Qed.

Lemma get_book_cases book_id s :
  get_book book_id s =
  match find_one (book_has_id book_id) (books s) with
  | None => (Raise (HTTPException 404 "Book not found"), s)
  | Some book => (Ok book, s)
  end.
Proof. unfold get_book, bind, gets. simpl. by destruct (find_one _ _). Qed.

Lemma find_one_none_of {A} (p : A -> bool) (c : list A) :
  (forall x, x ∈ c -> p x = false) -> find_one p c = None.
Proof.
  intros H. destruct (find_one p c) as [d|] eqn:Hfind; [|done].
  apply find_one_Some in Hfind as [Hin Hp]. rewrite (H d Hin) in Hp. done.
Qed.

Lemma is_librarian_false u : User.role u <> "librarian" -> is_librarian u = false.
Proof. intros H. unfold is_librarian. by apply bool_decide_eq_false_2. Qed.




Lemma update_book_cases book_id book_data current_user s :
  update_book book_id book_data current_user s =
  if negb (is_librarian current_user)
  then (Raise (HTTPException 403 "Only librarians can update books"), s)
  else
    match find_one (book_has_id book_id) (books s) with
    | None => (Raise (HTTPException 404 "Book not found"), s)
    | Some book =>
        if negb (update_data_empty book_data)
        then
          let c := update_one (book_has_id book_id)
                     (set_book_fields book_data) (books s) in
          (match find_one (book_has_id book_id) c with
           | Some b => Ok b
           | None => Raise TypeError
           end, mkStore (users s) c (borrows s))
        else (Ok book, s)
    end.
Proof.
  unfold update_book, bind, gets, modify, set_books. simpl.
  destruct (negb (is_librarian _)); [done|].
  destruct (find_one _ _); [|done].
  destruct (negb (update_data_empty _)); [|done].
  simpl. by destruct (find_one _ _).
Qed.




Lemma delete_book_cases book_id current_user s :
  delete_book book_id current_user s =
  if negb (is_librarian current_user)
  then (Raise (HTTPException 403 "Only librarians can delete books"), s)
  else
    let c := (delete_one (book_has_id book_id) (books s)).1 in
    (if (delete_one (book_has_id book_id) (books s)).2 =? 0
     then Raise (HTTPException 404 "Book not found")
     else Ok "Book deleted successfully",
     mkStore (users s) c (borrows s)).
Proof.
  unfold delete_book, bind, set_books. destruct (negb _); [done|].
  destruct (delete_one _ _) as [c n]. simpl. by destruct (n =? 0).
Qed.

Lemma delete_one_absent {A} (p : A -> bool) (c : list A) :
  find_one p c = None -> delete_one p c = (c, 0).
Proof.
  unfold find_one. induction c as [|d c IH]; simpl; [done|].
  destruct (p d); [done|]. intros H. by rewrite IH.
Qed.

Lemma delete_one_present {A} (p : A -> bool) (c : list A) d :
  find_one p c = Some d -> (delete_one p c).2 = 1.
Proof.
  unfold find_one. induction c as [|x c IH]; simpl; [done|].
  destruct (p x); [done|]. intros H. specialize (IH H).
  by destruct (delete_one p c).
Qed.

Lemma delete_book_unique x (c : list Book.t) :
  NoDup (Book.id <$> c) ->
  (delete_one (book_has_id x) c).1
  = List.filter (fun b => negb (book_has_id x b)) c.
Proof.
  induction c as [|b c IH]; [done|].
  rewrite fmap_cons. intros [Hb Hc]%NoDup_cons. simpl.
  destruct (book_has_id x b) eqn:Hid; simpl.
  - apply bool_decide_eq_true in Hid. subst x.
    clear IH Hc. induction c as [|b' c IH]; [done|].
    rewrite fmap_cons in Hb. apply not_elem_of_cons in Hb as [Hne Hb].
    simpl. unfold book_has_id at 1.
    rewrite bool_decide_eq_false_2 by done. simpl. f_equal. by apply IH.
  - specialize (IH Hc). destruct (delete_one _ c). simpl in *. by f_equal.
Qed.

(** X5. Deleting a book, for a librarian on a catalog with unique
    identifiers: a known book disappears ([get_book] answers 404) while the
    other books stay in their order, and nothing else is written, so the
    loans on the deleted book stay in the ledger; an unknown identifier is a
    404 without a write. *)
Theorem delete_book_removes
    (book_id : string) (current_user : User.t) (s : Store) :
  User.role current_user = "librarian" ->
  NoDup (book_ids s) ->
  (find_one (book_has_id book_id) (books s) = None ->
   delete_book book_id current_user s
   = (Raise (HTTPException 404 "Book not found"), s))
  /\ (forall b,
        find_one (book_has_id book_id) (books s) = Some b ->
        exists s',
          delete_book book_id current_user s
          = (Ok "Book deleted successfully", s')
          /\ get_book book_id s'
             = (Raise (HTTPException 404 "Book not found"), s')
          /\ books s'
             = List.filter (fun b0 => negb (bool_decide (Book.id b0 = book_id)))
                 (books s)
          /\ borrows s' = borrows s
          /\ users s' = users s).
Proof.
  intros Hrole Hids. split.
  - intros Hnone. rewrite delete_book_cases, (is_librarian_true _ Hrole).
    simpl. rewrite (delete_one_absent _ _ Hnone). simpl.
    by rewrite store_eta.
  - intros b Hfind. eexists.
    rewrite delete_book_cases, (is_librarian_true _ Hrole). simpl.
    rewrite (delete_one_present _ _ _ Hfind). simpl. split; [done|].
    rewrite get_book_cases. simpl. rewrite delete_book_unique by done.
    split; [|done].
    rewrite find_one_none_of; [done|].
    intros b0 [_ Hb0]%list_elem_of_In%filter_In.
    by apply negb_true_iff in Hb0.
Qed.

Lemma delete_book_removes_witness :
  exists s',
    delete_book "b-dune" Fixture.librarian Fixture.store_lent
    = (Ok "Book deleted successfully", s')
    /\ get_book "b-dune" s' = (Raise (HTTPException 404 "Book not found"), s')
    /\ books s' = []
    /\ borrows s' = [Desk.loan_1].
Proof.
  destruct (delete_book_removes "b-dune" Fixture.librarian Fixture.store_lent)
    as [_ Hfound].
  - reflexivity.
  - vm_compute. apply NoDup_singleton.
  - destruct (Hfound Desk.dune eq_refl)
      as (s' & Hrun & Hget & Hbooks & Hborrows & _).
    exists s'. split; [exact Hrun|]. split; [exact Hget|].
    split; [rewrite Hbooks; reflexivity | rewrite Hborrows; reflexivity].
Defined.

(** ** Borrowing and returning *)



(** X6. A borrow that fails writes nothing, and it fails in one of four
    ways: the book is unknown; it has no copy available, which is looked at
    before the borrower; the borrower has the book borrowed; or the due date
    cannot be represented. *)
Theorem borrow_book_failure
    (new_id : string) (now : Z) (borrow_data : BorrowRequest.t)
    (current_user : User.t) (s s' : Store) (e : exn) :
  borrow_book new_id now borrow_data current_user s = (Raise e, s') ->
  s' = s
  /\ (e = NotFound_book
      /\ find_one (book_has_id (BorrowRequest.book_id borrow_data)) (books s)
         = None
      \/ (e = Exhausted
          /\ exists b,
               find_one (book_has_id (BorrowRequest.book_id borrow_data))
                 (books s) = Some b
               /\ Book.available_copies b <= 0)
      \/ (e = AlreadyBorrowed
          /\ exists r,
               r ∈ borrows s
               /\ BorrowRecord.user_id r = User.id current_user
               /\ BorrowRecord.book_id r = BorrowRequest.book_id borrow_data
               /\ BorrowRecord.status r = borrowed)
      \/ (e = OverflowError
          /\ (999999999 < Z.abs (BorrowRequest.borrow_days borrow_data)
              \/ now + BorrowRequest.borrow_days borrow_data * day < 0
              \/ datetime_max
                 < now + BorrowRequest.borrow_days borrow_data * day))).
Proof.
  intros Hrun. split; [by eapply borrow_book_Raise|].
  rewrite borrow_book_cases in Hrun.
  destruct (find_one _ (books s)) as [b|] eqn:Hbook;
    [|left; by simplify_eq].
  destruct (Book.available_copies b <=? 0) eqn:Hav.
  { right; left. apply Z.leb_le in Hav. simplify_eq. eauto. }
  destruct (find_one _ (borrows s)) as [r|] eqn:Hex.
  { right; right; left. apply find_one_Some in Hex as [Hin Hf].
    unfold existing_borrow_filter in Hf.
    apply andb_true_iff in Hf as [[Hu Hb]%andb_true_iff Hst].
    apply bool_decide_eq_true in Hu, Hb, Hst. simplify_eq.
    split; [done|]. by exists r. }
  right; right; right. unfold timedelta_days, datetime_add in Hrun.
  destruct (Z.abs _ <=? 999999999) eqn:Habs.
  - destruct (0 <=? _) eqn:Hlo; simpl in Hrun.
    + destruct (_ <=? datetime_max) eqn:Hhi; [done|].
      apply Z.leb_gt in Hhi. simplify_eq. split; [done|]. lia.
    + apply Z.leb_gt in Hlo. simplify_eq. split; [done|]. lia.
  - apply Z.leb_gt in Habs. simplify_eq. split; [done|]. lia.
Qed.

Lemma borrow_book_failure_witness :
  Fixture.store_sold_out = Fixture.store_sold_out
  /\ (Exhausted = NotFound_book
      /\ find_one (book_has_id "b-dune") (books Fixture.store_sold_out) = None
      \/ (Exhausted = Exhausted
          /\ exists b,
               find_one (book_has_id "b-dune") (books Fixture.store_sold_out)
               = Some b
               /\ Book.available_copies b <= 0)
      \/ (Exhausted = AlreadyBorrowed
          /\ exists r,
               r ∈ borrows Fixture.store_sold_out
               /\ BorrowRecord.user_id r = "u-lib"
               /\ BorrowRecord.book_id r = "b-dune"
               /\ BorrowRecord.status r = borrowed)
      \/ (Exhausted = OverflowError
          /\ (999999999 < Z.abs 14
              \/ Fixture.t0 + 2 * day + 14 * day < 0
              \/ datetime_max < Fixture.t0 + 2 * day + 14 * day))).
Proof.
  apply (borrow_book_failure "l-3" (Fixture.t0 + 2 * day)
           (BorrowRequest.parse "b-dune" None) Fixture.librarian
           Fixture.store_sold_out Fixture.store_sold_out Exhausted).
  reflexivity.
Defined.


(** X7. What a successful borrow writes, on a store with unique book and
    user identifiers: one loan at the end of the ledger; one copy less for
    the book borrowed, which had a copy, every other book as it was; and the
    loan identifier at the end of the borrower's [current_borrowings], every
    other user as it was. *)
Theorem borrow_book_effect
    (new_id : string) (now : Z) (borrow_data : BorrowRequest.t)
    (current_user : User.t) (s s' : Store) (r : BorrowRecord.t) :
  NoDup (book_ids s) ->
  NoDup (user_ids s) ->
  borrow_book new_id now borrow_data current_user s = (Ok r, s') ->
  borrows s' = borrows s ++ [r]
  /\ BorrowRecord.id r = new_id
  /\ BorrowRecord.user_id r = User.id current_user
  /\ BorrowRecord.book_id r = BorrowRequest.book_id borrow_data
  /\ BorrowRecord.returned_at r = None
  /\ books s'
     = (fun b =>
          if bool_decide (Book.id b = BorrowRequest.book_id borrow_data)
          then inc_available_copies (-1) b else b) <$> books s
  /\ users s'
     = (fun u =>
          if bool_decide (User.id u = User.id current_user)
          then push_current_borrowings new_id u else u) <$> users s
  /\ exists b,
       get_book (BorrowRequest.book_id borrow_data) s = (Ok b, s)
       /\ 0 < Book.available_copies b
       /\ get_book (BorrowRequest.book_id borrow_data) s'
          = (Ok (inc_available_copies (-1) b), s').
Proof.
  intros Hbooks Husers Hrun.
  apply borrow_book_Ok in Hrun as (b & Hbook & Hav & _ & -> & ->).
  simpl. repeat split; try done.
  - by apply update_book_unique.
  - by apply (update_one_unique_key User.id).
  - exists b. rewrite !get_book_cases, Hbook. simpl.
    split; [done|]. split; [done|].
    rewrite (find_one_update_one _ _ _ b); [done..|].
    by apply find_one_Some in Hbook as [_ ?].
Qed.

Lemma borrow_book_effect_witness :
  borrows Fixture.store_lent = borrows Fixture.store_catalog ++ [Desk.loan_1]
  /\ (Book.available_copies <$> books Fixture.store_catalog) = [2]
  /\ (Book.available_copies <$> books Fixture.store_lent) = [1]
  /\ (User.current_borrowings <$> users Fixture.store_lent)
     = [[]; ["l-1"]; []].
Proof.
  destruct (borrow_book_effect "l-1" Fixture.t0
              (BorrowRequest.parse "b-dune" None) Fixture.alice
              Fixture.store_catalog Fixture.store_lent Desk.loan_1)
    as (Hborrows & _ & _ & _ & _ & Hbooks & Husers & _).
  - vm_compute. apply NoDup_singleton.
  - apply (bool_decide_unpack _). vm_compute. exact I.
  - reflexivity.
  - split; [exact Hborrows|]. split; [reflexivity|].
    split; [rewrite Hbooks; reflexivity | rewrite Husers; reflexivity].
Defined.



(** X9. A return that fails writes nothing, and it fails in one of three
    ways: the loan is unknown; the caller is neither the borrower nor a
    librarian, which is looked at before the status; or the loan is already
    returned. *)
Theorem return_book_failure
    (now : Z) (return_data : ReturnRequest.t) (current_user : User.t)
    (s s' : Store) (e : exn) :
  return_book now return_data current_user s = (Raise e, s') ->
  s' = s
  /\ (e = NotFound_borrow
      /\ find_one (borrow_has_id (ReturnRequest.borrow_id return_data))
           (borrows s) = None
      \/ exists r,
           find_one (borrow_has_id (ReturnRequest.borrow_id return_data))
             (borrows s) = Some r
           /\ (e = Forbidden
               /\ BorrowRecord.user_id r <> User.id current_user
               /\ User.role current_user <> "librarian"
               \/ e = AlreadyReturned
                  /\ BorrowRecord.status r = returned
                  /\ (BorrowRecord.user_id r = User.id current_user
                      \/ User.role current_user = "librarian"))).
Proof.
  rewrite return_book_cases.
  destruct (find_one _ _) as [r|] eqn:Hfind;
    [|intros [= <- <-]; split; [done|]; by left].
  destruct (negb _ && negb _) eqn:Hauth.
  { intros [= <- <-]. split; [done|]. right. exists r. split; [done|]. left.
    apply andb_true_iff in Hauth as [H1 H2]. apply negb_true_iff in H1, H2.
    apply bool_decide_eq_false in H1. unfold is_librarian in H2.
    apply bool_decide_eq_false in H2. done. }
  destruct (bool_decide (BorrowRecord.status r = returned)) eqn:Hst; [|done].
  intros [= <- <-]. split; [done|]. right. exists r. split; [done|]. right.
  apply bool_decide_eq_true in Hst. split; [done|]. split; [done|].
  apply andb_false_iff in Hauth as [H|H]; apply negb_false_iff in H.
  - left. by apply bool_decide_eq_true in H.
  - right. unfold is_librarian in H. by apply bool_decide_eq_true in H.
Qed.

Lemma return_book_failure_witness :
  exists r,
    find_one (borrow_has_id "l-1") (borrows Fixture.store_back) = Some r
    /\ BorrowRecord.user_id r <> User.id Fixture.bob
    /\ return_book (Fixture.t0 + 20 * day) (ReturnRequest.mk "l-1")
         Fixture.bob Fixture.store_back
       = (Raise Forbidden, Fixture.store_back).
Proof.
  destruct (return_book_failure (Fixture.t0 + 20 * day)
              (ReturnRequest.mk "l-1") Fixture.bob Fixture.store_back
              Fixture.store_back Forbidden eq_refl)
    as [_ [[Hno _]|(r & Hfind & [(_ & Hne & _)|(Hno & _)])]].
  - discriminate Hno.
  - exists r. split; [exact Hfind|]. split; [exact Hne | reflexivity].
  - discriminate Hno.
Defined.

Lemma return_book_succeeds now return_data current_user s r :
  find_one (borrow_has_id (ReturnRequest.borrow_id return_data)) (borrows s)
    = Some r ->
  BorrowRecord.user_id r = User.id current_user
    \/ User.role current_user = "librarian" ->
  BorrowRecord.status r <> returned ->
  return_book now return_data current_user s
  = (Ok ("Book returned successfully",
         fine_on_return now (BorrowRecord.due_date r)),
     returned_store now return_data r s)
  /\ find_one (borrow_has_id (ReturnRequest.borrow_id return_data))
       (borrows (returned_store now return_data r s))
     = Some (set_returned now
               (fine_on_return now (BorrowRecord.due_date r)) r).
Proof.
  intros Hfind Hauth Hst. split.
  - rewrite return_book_cases, Hfind.
    assert (negb (bool_decide (BorrowRecord.user_id r = User.id current_user))
            && negb (is_librarian current_user) = false) as ->.
    { unfold is_librarian. destruct Hauth as [->| ->].
      - by rewrite bool_decide_eq_true_2.
      - rewrite (bool_decide_eq_true_2 ("librarian" = "librarian")) by done.
        by rewrite andb_false_r. }
    by rewrite bool_decide_eq_false_2.
  - simpl. apply find_one_update_one; [done|].
    by apply find_one_Some in Hfind as [_ ?].
Qed.

(** X10. A loan on a book that is no longer in the catalog can still be
    returned: the return succeeds with its fine and marks the loan returned,
    and no book is changed, the copy going back to no counter. *)
Theorem return_of_deleted_book
    (now : Z) (return_data : ReturnRequest.t) (current_user : User.t)
    (s : Store) (r : BorrowRecord.t) :
  find_one (borrow_has_id (ReturnRequest.borrow_id return_data)) (borrows s)
    = Some r ->
  BorrowRecord.user_id r = User.id current_user
    \/ User.role current_user = "librarian" ->
  BorrowRecord.status r <> returned ->
  find_one (book_has_id (BorrowRecord.book_id r)) (books s) = None ->
  exists s',
    return_book now return_data current_user s
    = (Ok ("Book returned successfully",
           fine_on_return now (BorrowRecord.due_date r)), s')
    /\ books s' = books s
    /\ find_one (borrow_has_id (ReturnRequest.borrow_id return_data))
         (borrows s')
       = Some (set_returned now
                 (fine_on_return now (BorrowRecord.due_date r)) r).
Proof.
  intros Hfind Hauth Hst Hbook.
  destruct (return_book_succeeds now return_data current_user s r
              Hfind Hauth Hst) as [Hrun Hstored].
  eexists. split; [exact Hrun|]. simpl. split; [|exact Hstored].
  by apply update_one_absent.
Qed.

Lemma return_of_deleted_book_witness :
  exists s',
    return_book (Fixture.t0 + 16 * day) (ReturnRequest.mk "l-1") Fixture.alice
      Desk.store_orphan
    = (Ok ("Book returned successfully",
           fine_on_return (Fixture.t0 + 16 * day) (Fixture.t0 + 14 * day)),
       s')
    /\ books s' = []
    /\ find_one (borrow_has_id "l-1") (borrows s')
       = Some (set_returned (Fixture.t0 + 16 * day)
                 (fine_on_return (Fixture.t0 + 16 * day)
                    (Fixture.t0 + 14 * day)) Desk.loan_1).
Proof.
  apply (return_of_deleted_book (Fixture.t0 + 16 * day)
           (ReturnRequest.mk "l-1") Fixture.alice Desk.store_orphan
           Desk.loan_1).
  - reflexivity.
  - left. reflexivity.
  - discriminate.
  - reflexivity.
Defined.

(** ** The life of a loan *)

(** What a request does to the ledger, with the record it writes. *)
Lemma step_ledger s s' :
  step s s' ->
  borrows s' = borrows s
  \/ (exists new_id now due_date borrow_data current_user,
        (new_id ∉ borrow_ids s)
        /\ borrows s'
           = borrows s
             ++ [new_record new_id now due_date borrow_data current_user])
  \/ (exists x r0 t,
        find_one (borrow_has_id x) (borrows s) = Some r0
        /\ BorrowRecord.status r0 <> returned
        /\ borrows s'
           = update_one (borrow_has_id x)
               (set_returned t (fine_on_return t (BorrowRecord.due_date r0)))
               (borrows s))
  \/ (exists now,
        borrows s' = mark_overdue (selected now (borrows s)) (borrows s)).
Proof.
  intros [new_id now ph ud r s1 _ H
         |new_id now bd u r s1 _ H
         |bid bd u r s1 H
         |bid u r s1 H
         |new_id now bd u r s1 Hfresh H
         |now rd u r s1 H
         |now u r s1 H].
  - left. by apply register_borrows in H as [? _].
  - left. by apply create_book_borrows in H.
  - left. by apply update_book_borrows in H.
  - left. by apply delete_book_borrows in H.
  - destruct r as [rec|e].
    + right; left.
      apply borrow_book_Ok in H as (book & _ & _ & _ & -> & ->).
      eexists _, _, _, _, _. split; [exact Hfresh|]. done.
    + left. apply borrow_book_Raise in H. by subst.
  - rewrite return_book_cases in H.
    destruct (find_one _ _) as [r0|] eqn:Hfind; [|left; by simplify_eq].
    destruct (negb _ && negb _); [left; by simplify_eq|].
    destruct (bool_decide (BorrowRecord.status r0 = returned)) eqn:Hst;
      [left; by simplify_eq|].
    apply bool_decide_eq_false in Hst.
    right; right; left. simplify_eq. eexists _, r0, _. done.
  - rewrite get_overdue_books_cases in H.
    destruct (negb _); [left; by simplify_eq|].
    right; right; right. simplify_eq. by exists now.
Qed.

Lemma status_moves_refl st : status_moves st st.
Proof. by left. Qed.

Lemma status_moves_trans st1 st2 st3 :
  status_moves st1 st2 -> status_moves st2 st3 -> status_moves st1 st3.
Proof.
  unfold status_moves.
  intros [H1|[[H1 H1']|[[H1 H1']|[H1 H1']]]]
         [H2|[[H2 H2']|[[H2 H2']|[H2 H2']]]];
    subst; try discriminate; auto 10.
Qed.

Lemma loan_evolves_refl r : loan_evolves r r.
Proof. unfold loan_evolves. repeat split; try done. apply status_moves_refl. Qed.

Lemma loan_evolves_trans r1 r2 r3 :
  loan_evolves r1 r2 -> loan_evolves r2 r3 -> loan_evolves r1 r3.
Proof.
  intros (A1 & A2 & A3 & A4 & A5 & H1) (B1 & B2 & B3 & B4 & B5 & H2).
  repeat split; [congruence..|]. by eapply status_moves_trans.
Qed.

Lemma Forall2_loan_evolves_refl c : Forall2 loan_evolves c c.
Proof. apply Forall_Forall2_diag, Forall_forall. intros. apply loan_evolves_refl. Qed.

Lemma swept_evolves now c r :
  NoDup (BorrowRecord.id <$> c) -> r ∈ c ->
  loan_evolves r (swept (selected now c) r).
Proof.
  intros Hids Hin. unfold swept.
  destruct (bool_decide _) eqn:Hsel; [|apply loan_evolves_refl].
  apply bool_decide_eq_true in Hsel.
  apply list_elem_of_fmap in Hsel as (r1 & Hid & Hr1).
  apply selected_spec in Hr1 as (Hin1 & Hb1 & _).
  assert (r = r1) as -> by (by eapply unique_id_eq).
  unfold loan_evolves. simpl. repeat split; try done.
  right; left. done.
Qed.

(** One request: the loans that were there are still there, in place, each
    evolved; new loans come after them. *)
Lemma step_loans_evolve s s' :
  step s s' -> NoDup (borrow_ids s) ->
  exists c' extra,
    borrows s' = c' ++ extra /\ Forall2 loan_evolves (borrows s) c'.
Proof.
  unfold borrow_ids.
  intros [->|[(new_id & now & due & bd & u & _ & ->)
         |[(x & r0 & t & Hfind & Hst & ->)|(now & ->)]]]%step_ledger Hids.
  - exists (borrows s), []. rewrite app_nil_r.
    split; [done | apply Forall2_loan_evolves_refl].
  - eexists (borrows s), _. split; [done | apply Forall2_loan_evolves_refl].
  - eexists _, []. rewrite app_nil_r. split; [done|].
    destruct (update_one_split _
                (set_returned t (fine_on_return t (BorrowRecord.due_date r0)))
                _ _ Hfind) as (c1 & c2 & Hc & -> & _).
    rewrite Hc. apply Forall2_app; [apply Forall2_loan_evolves_refl|].
    constructor; [|apply Forall2_loan_evolves_refl].
    unfold loan_evolves. simpl. repeat split; try done.
    unfold status_moves. destruct (BorrowRecord.status r0); auto 10.
  - eexists _, []. rewrite app_nil_r. split; [done|].
    rewrite mark_overdue_swept by done.
    apply Forall2_fmap_r, Forall_Forall2_diag, Forall_forall.
    intros r Hr. by apply swept_evolves.
Qed.

Lemma steps_loans_evolve s s' :
  rtc step s s' -> NoDup (borrow_ids s) ->
  exists c' extra,
    borrows s' = c' ++ extra /\ Forall2 loan_evolves (borrows s) c'.
Proof.
  induction 1 as [s|s s1 s2 Hstep _ IH]; intros Hids.
  - exists (borrows s), []. rewrite app_nil_r.
    split; [done | apply Forall2_loan_evolves_refl].
  - destruct (step_loans_evolve _ _ Hstep Hids) as (c1 & e1 & Hs1 & H1).
    destruct IH as (c2 & e2 & Hs2 & H2);
      [by eapply step_unique_borrow_ids|].
    rewrite Hs1 in H2.
    apply Forall2_app_inv_l in H2 as (a & b & Ha & Hb & ->).
    exists a, (b ++ e2). split; [by rewrite Hs2, <- app_assoc|].
    eapply Forall2_trans; [|exact H1|exact Ha].
    intros ???. apply loan_evolves_trans.
Qed.

(** X11. Loans are never deleted and only move forward.  From a store with
    unique loan identifiers, whatever requests follow, the loan at a
    position of the ledger is still at that position, with the same
    identifier, user, book, borrowing date and due date, and its status has
    stayed or gone from borrowed to overdue, from borrowed to returned or
    from overdue to returned; in particular an overdue loan never becomes
    borrowed again. *)
Theorem loans_only_move_forward (s s' : Store) (i : nat) (r : BorrowRecord.t) :
  NoDup (borrow_ids s) ->
  rtc step s s' ->
  borrows s !! i = Some r ->
  exists r',
    borrows s' !! i = Some r'
    /\ BorrowRecord.id r' = BorrowRecord.id r
    /\ BorrowRecord.user_id r' = BorrowRecord.user_id r
    /\ BorrowRecord.book_id r' = BorrowRecord.book_id r
    /\ BorrowRecord.borrowed_at r' = BorrowRecord.borrowed_at r
    /\ BorrowRecord.due_date r' = BorrowRecord.due_date r
    /\ status_moves (BorrowRecord.status r) (BorrowRecord.status r')
    /\ (BorrowRecord.status r = overdue -> BorrowRecord.status r' <> borrowed).
Proof.
  intros Hids Hsteps Hi.
  destruct (steps_loans_evolve _ _ Hsteps Hids) as (c' & extra & Hs' & Hall).
  destruct (Forall2_lookup_l _ _ _ _ _ Hall Hi) as (r' & Hi' & Hev).
  exists r'. split; [rewrite Hs'; by apply lookup_app_l_Some|].
  destruct Hev as (? & ? & ? & ? & ? & Hmove). repeat split; try done.
  intros Hov Hb. rewrite Hov, Hb in Hmove.
  unfold status_moves in Hmove.
  destruct Hmove as [Hm|[[Hm _]|[[Hm _]|[_ Hm]]]]; discriminate Hm.
Qed.

Lemma loans_only_move_forward_witness :
  exists r',
    borrows Fixture.store_back !! 0%nat = Some r'
    /\ BorrowRecord.id r' = "l-1"
    /\ BorrowRecord.due_date r' = Fixture.t0 + 14 * day
    /\ status_moves borrowed (BorrowRecord.status r').
Proof.
  destruct (loans_only_move_forward Fixture.store_lent Fixture.store_back
              0%nat Desk.loan_1)
    as (r' & Hi & Hid & _ & _ & _ & Hdue & Hmove & _).
  - vm_compute. apply NoDup_singleton.
  - apply rtc_once. apply step_return_book_run.
  - reflexivity.
  - exists r'. split; [exact Hi|]. split; [exact Hid|].
    split; [exact Hdue | exact Hmove].
Defined.

Lemma swept_coherent now c r :
  NoDup (BorrowRecord.id <$> c) -> r ∈ c ->
  loan_coherent r -> loan_coherent (swept (selected now c) r).
Proof.
  intros Hids Hin Hr. unfold swept.
  destruct (bool_decide _) eqn:Hsel; [|done].
  apply bool_decide_eq_true in Hsel.
  apply list_elem_of_fmap in Hsel as (r1 & Hid & Hr1).
  apply selected_spec in Hr1 as (Hin1 & Hb1 & _).
  assert (r = r1) as -> by (by eapply unique_id_eq).
  unfold loan_coherent in *. simpl.
  destruct (BorrowRecord.returned_at r1); [destruct Hr; congruence|].
  split; [done | apply Hr].
Qed.

Lemma step_coherent s s' :
  step s s' -> NoDup (borrow_ids s) ->
  Forall loan_coherent (borrows s) -> Forall loan_coherent (borrows s').
Proof.
  unfold borrow_ids.
  intros [->|[(new_id & now & due & bd & u & _ & ->)
         |[(x & r0 & t & Hfind & Hst & ->)|(now & ->)]]]%step_ledger Hids Hall.
  - done.
  - apply Forall_app. split; [done|]. constructor; [|constructor].
    unfold loan_coherent. simpl. done.
  - destruct (update_one_split _
                (set_returned t (fine_on_return t (BorrowRecord.due_date r0)))
                _ _ Hfind) as (c1 & c2 & Hc & -> & _).
    rewrite Hc in Hall. apply Forall_app in Hall as [H1 H2].
    apply Forall_cons in H2 as [_ H2].
    apply Forall_app. split; [done|]. constructor; [|done].
    unfold loan_coherent. simpl. done.
  - rewrite mark_overdue_swept by done.
    apply Forall_fmap, Forall_forall. intros r Hr.
    apply swept_coherent; [done..|].
    by apply (proj1 (Forall_forall _ _) Hall).
Qed.

Lemma fine_on_return_nonneg t due_date : (0 <= fine_on_return t due_date)%Q.
Proof.
  rewrite fine_on_return_max.
  apply Qmult_le_0_compat; [|done].
  unfold Qle. simpl. lia.
Qed.

(** X12. Every loan of a reachable store agrees with its own dates: while
    no return date is recorded the status is not returned and the fine is
    0; once one is recorded the status is returned and the fine is
    [per_day_rate] for each full day between the due date and the return
    date.  So a loan is returned exactly when it has a return date, and no
    fine is negative. *)
Theorem loans_are_coherent (s : Store) (r : BorrowRecord.t) :
  reachable s ->
  r ∈ borrows s ->
  (BorrowRecord.status r = returned <-> is_Some (BorrowRecord.returned_at r))
  /\ (BorrowRecord.returned_at r = None ->
      BorrowRecord.fine_amount r = 0.0%Q)
  /\ (forall t, BorrowRecord.returned_at r = Some t ->
        (BorrowRecord.fine_amount r
         == inject_Z (Z.max 0 (days (t - BorrowRecord.due_date r)))
            * per_day_rate)%Q)
  /\ (0 <= BorrowRecord.fine_amount r)%Q.
Proof.
  intros Hreach Hin.
  assert (NoDup (borrow_ids s) /\ Forall loan_coherent (borrows s))
    as [_ Hall].
  { unfold reachable in Hreach.
    apply (rtc_ind_r (R:=step)
             (fun s => NoDup (borrow_ids s)
                       /\ Forall loan_coherent (borrows s)) empty_store);
      [| |exact Hreach].
    - split; [apply NoDup_nil_2 | constructor].
    - intros s1 s2 _ Hstep [Hids Hall]. split.
      + by eapply step_unique_borrow_ids.
      + by eapply step_coherent. }
  pose proof (proj1 (Forall_forall _ _) Hall r Hin) as Hr.
  unfold loan_coherent in Hr.
  destruct (BorrowRecord.returned_at r) as [t|].
  - destruct Hr as [Hst Hfine]. split; [split; [by eexists | done]|].
    split; [done|]. split.
    + intros t' [= <-]. rewrite Hfine. apply fine_on_return_max.
    + rewrite Hfine. apply fine_on_return_nonneg.
  - destruct Hr as [Hst Hfine]. split.
    { split; [done | by intros [? ?]]. }
    split; [done|]. split; [done|]. by rewrite Hfine.
Qed.

Lemma reachable_store_back : reachable Fixture.store_back.
Proof.
  apply reachable_step with Fixture.store_lent;
    [apply reachable_store_lent | apply step_return_book_run].
Qed.

Lemma loans_are_coherent_witness :
  BorrowRecord.status
    (set_returned (Fixture.t0 + 19 * day)
       (fine_on_return (Fixture.t0 + 19 * day) (Fixture.t0 + 14 * day))
       Desk.loan_1) = returned
  /\ (0 <= BorrowRecord.fine_amount
             (set_returned (Fixture.t0 + 19 * day)
                (fine_on_return (Fixture.t0 + 19 * day)
                   (Fixture.t0 + 14 * day))
                Desk.loan_1))%Q.
Proof.
  destruct (loans_are_coherent Fixture.store_back
              (set_returned (Fixture.t0 + 19 * day)
                 (fine_on_return (Fixture.t0 + 19 * day)
                    (Fixture.t0 + 14 * day))
                 Desk.loan_1) reachable_store_back)
    as (Hst & _ & _ & Hfine).
  - vm_compute. apply list_elem_of_here.
  - split; [|exact Hfine]. apply Hst. eexists. reflexivity.
Defined.

(** ** The lists kept in the user documents *)

Lemma loans_persist_refl c : loans_persist c c.
Proof. intros r Hr. exists r. by repeat split. Qed.

Lemma loans_persist_app c extra : loans_persist c (c ++ extra).
Proof.
  intros r Hr. exists r. repeat split; try done.
  apply elem_of_app. by left.
Qed.

Lemma loans_persist_sweep now c :
  NoDup (BorrowRecord.id <$> c) ->
  loans_persist c (swept (selected now c) <$> c).
Proof.
  intros Hids r Hr. exists (swept (selected now c) r).
  split; [by apply list_elem_of_fmap_2|].
  destruct (swept_evolves now c r Hids Hr) as (? & ? & ? & _ & _ & Hmove).
  repeat split; try done.
  - intros Hret. unfold swept in *.
    destruct (bool_decide _) eqn:Hsel; [done|done].
  - intros Hret. unfold swept.
    destruct (bool_decide _) eqn:Hsel; [|done]. exfalso.
    apply bool_decide_eq_true in Hsel.
    apply list_elem_of_fmap in Hsel as (r1 & Hid & Hr1).
    apply selected_spec in Hr1 as (Hin1 & Hb1 & _).
    assert (r = r1) as -> by (by eapply unique_id_eq). congruence.
Qed.

Lemma user_lists_sound_persist s s' u :
  loans_persist (borrows s) (borrows s') ->
  user_lists_sound s u -> user_lists_sound s' u.
Proof.
  intros Hp [Hcb Hrh]. split.
  - intros x Hx. destruct (Hcb x Hx) as (r & Hr & Hid & Hu & Hst).
    destruct (Hp r Hr) as (r' & Hr' & Hid' & Hu' & _ & Hst').
    exists r'. repeat split; [done|congruence..|]. tauto.
  - intros b Hb. destruct (Hrh b Hb) as (r & Hr & Hbk & Hu & Hst).
    destruct (Hp r Hr) as (r' & Hr' & _ & Hu' & Hbk' & Hst').
    exists r'. repeat split; [done|congruence..|]. tauto.
Qed.

Lemma user_lists_sound_borrow new_id borrow_data current_user record s u :
  BorrowRecord.id record = new_id ->
  BorrowRecord.user_id record = User.id current_user ->
  BorrowRecord.status record = borrowed ->
  user_lists_sound s u ->
  user_lists_sound (borrowed_store new_id borrow_data current_user record s)
    (if bool_decide (User.id u = User.id current_user)
     then push_current_borrowings new_id u else u).
Proof.
  intros Hid Huid Hst Hu.
  assert (user_lists_sound
            (borrowed_store new_id borrow_data current_user record s) u)
    as [Hcb Hrh].
  { eapply user_lists_sound_persist; [|exact Hu]. simpl.
    apply loans_persist_app. }
  destruct (bool_decide _) eqn:Hme; [|done].
  apply bool_decide_eq_true in Hme. split; [|exact Hrh].
  simpl. intros x [Hx|Hx%list_elem_of_singleton]%elem_of_app; [by apply Hcb|].
  subst x. exists record. simpl. repeat split; try congruence.
  apply elem_of_app. right. by apply list_elem_of_singleton.
Qed.

Lemma user_lists_sound_return now return_data r0 s u :
  find_one (borrow_has_id (ReturnRequest.borrow_id return_data)) (borrows s)
    = Some r0 ->
  BorrowRecord.status r0 <> returned ->
  user_lists_sound s u ->
  user_lists_sound (returned_store now return_data r0 s)
    (if bool_decide (User.id u = BorrowRecord.user_id r0)
     then pull_push_on_return (ReturnRequest.borrow_id return_data)
            (BorrowRecord.book_id r0) u
     else u).
Proof.
  intros Hfind Hst [Hcb Hrh].
  pose proof (find_one_Some _ _ _ Hfind) as [_ Hid0].
  apply bool_decide_eq_true in Hid0.
  set (f := set_returned now (fine_on_return now (BorrowRecord.due_date r0))).
  destruct (update_one_split _ f _ _ Hfind) as (c1 & c2 & Hc & Hc' & _).
  assert (forall r, r ∈ borrows s -> r <> r0 ->
                    r ∈ borrows (returned_store now return_data r0 s))
    as Hkeep.
  { intros r Hr Hne. simpl. fold f. rewrite Hc'. rewrite Hc in Hr.
    apply elem_of_app in Hr as [Hr|Hr]; [apply elem_of_app; by left|].
    apply elem_of_cons in Hr as [->|Hr]; [done|].
    apply elem_of_app. right. by right. }
  assert (f r0 ∈ borrows (returned_store now return_data r0 s)) as Hnew.
  { simpl. fold f. rewrite Hc'. apply elem_of_app. right. by left. }
  destruct (bool_decide (User.id u = BorrowRecord.user_id r0)) eqn:Hme.
  - apply bool_decide_eq_true in Hme. split; simpl.
    + intros x [Hx Hne]%list_elem_of_In%filter_In.
      apply list_elem_of_In in Hx.
      apply negb_true_iff, bool_decide_eq_false in Hne.
      destruct (Hcb x Hx) as (r & Hr & Hid & Hu & Hs).
      exists r. repeat split; try done. apply Hkeep; [done|]. congruence.
    + intros b [Hb|Hb%list_elem_of_singleton]%elem_of_app.
      * destruct (Hrh b Hb) as (r & Hr & Hbk & Hu & Hs).
        exists r. repeat split; try done. apply Hkeep; [done|]. congruence.
      * subst b. exists (f r0). by repeat split.
  - apply bool_decide_eq_false in Hme. split.
    + intros x Hx. destruct (Hcb x Hx) as (r & Hr & Hid & Hu & Hs).
      exists r. repeat split; try done. apply Hkeep; [done|]. congruence.
    + intros b Hb. destruct (Hrh b Hb) as (r & Hr & Hbk & Hu & Hs).
      exists r. repeat split; try done. apply Hkeep; [done|]. congruence.
Qed.

Lemma update_user_unique x f (c : list User.t) :
  NoDup (User.id <$> c) ->
  update_one (user_has_id x) f c
  = (fun u => if bool_decide (User.id u = x) then f u else u) <$> c.
Proof. apply (update_one_unique_key User.id). Qed.

Lemma step_user_lists s s' :
  step s s' ->
  NoDup (user_ids s) -> NoDup (borrow_ids s) ->
  Forall (user_lists_sound s) (users s) ->
  Forall (user_lists_sound s') (users s').
Proof.
  intros Hstep Husers Hloans Hall.
  assert (forall s1, users s1 = users s -> borrows s1 = borrows s ->
                     Forall (user_lists_sound s1) (users s1)) as Hsame.
  { intros s1 Hu Hb. rewrite Hu. eapply Forall_impl; [exact Hall|].
    intros u. apply user_lists_sound_persist. rewrite Hb.
    apply loans_persist_refl. }
  destruct Hstep as [new_id now ph ud r s1 _ H
                    |new_id now bd u r s1 _ H
                    |bid bd u r s1 H
                    |bid u r s1 H
                    |new_id now bd u r s1 _ H
                    |now rd u r s1 H
                    |now u r s1 H].
  - rewrite register_cases in H.
    destruct (find_one _ _); cbv zeta in H; simplify_eq;
      [by apply Hsame|].
    simpl. apply Forall_app. split.
    + eapply Forall_impl; [exact Hall|]. intros u.
      apply user_lists_sound_persist. apply loans_persist_refl.
    + constructor; [|constructor]. split; simpl; by intros ? ?%elem_of_nil.
  - rewrite create_book_cases in H.
    destruct (negb _); cbv zeta in H; simplify_eq; by apply Hsame.
  - rewrite update_book_cases in H.
    destruct (negb (is_librarian _)); [simplify_eq; by apply Hsame|].
    destruct (find_one _ _); [|simplify_eq; by apply Hsame].
    destruct (negb (update_data_empty _)); cbv zeta in H; simplify_eq;
      by apply Hsame.
  - rewrite delete_book_cases in H.
    destruct (negb _); cbv zeta in H; simplify_eq; by apply Hsame.
  - destruct r as [rec|e];
      [|apply borrow_book_Raise in H; subst; by apply Hsame].
    apply borrow_book_Ok in H as (book & _ & _ & _ & -> & ->).
    unfold borrowed_store at 2. simpl.
    rewrite update_user_unique by done.
    apply Forall_fmap, Forall_forall. intros u0 Hu0.
    apply user_lists_sound_borrow; [done..|].
    by apply (proj1 (Forall_forall _ _) Hall).
  - rewrite return_book_cases in H.
    destruct (find_one _ _) as [r0|] eqn:Hfind;
      [|simplify_eq; by apply Hsame].
    destruct (negb _ && negb _); [simplify_eq; by apply Hsame|].
    destruct (bool_decide (BorrowRecord.status r0 = returned)) eqn:Hst;
      [simplify_eq; by apply Hsame|].
    apply bool_decide_eq_false in Hst. simplify_eq.
    unfold returned_store at 2. simpl.
    rewrite update_user_unique by done.
    apply Forall_fmap, Forall_forall. intros u0 Hu0.
    apply user_lists_sound_return; [done..|].
    by apply (proj1 (Forall_forall _ _) Hall).
  - rewrite get_overdue_books_cases in H.
    destruct (negb _); simplify_eq; [by apply Hsame|].
    simpl. eapply Forall_impl; [exact Hall|]. intros u0.
    apply user_lists_sound_persist. simpl.
    rewrite mark_overdue_swept by done. by apply loans_persist_sweep.
Qed.

(** X13. The lists in a user document follow the ledger: in every
    reachable store each identifier in a user's [current_borrowings] is a
    loan of that user that is not returned, and each entry of the user's
    [reading_history] is the book of a returned loan of that user. *)
Theorem user_lists_follow_ledger (s : Store) (u : User.t) :
  reachable s ->
  u ∈ users s ->
  (forall x, x ∈ User.current_borrowings u ->
     exists r, r ∈ borrows s /\ BorrowRecord.id r = x
               /\ BorrowRecord.user_id r = User.id u
               /\ BorrowRecord.status r <> returned)
  /\ (forall b, b ∈ User.reading_history u ->
        exists r, r ∈ borrows s /\ BorrowRecord.book_id r = b
                  /\ BorrowRecord.user_id r = User.id u
                  /\ BorrowRecord.status r = returned).
Proof.
  intros Hreach Hin.
  assert (NoDup (user_ids s) /\ NoDup (borrow_ids s)
          /\ Forall (user_lists_sound s) (users s)) as (_ & _ & Hall).
  { unfold reachable in Hreach.
    apply (rtc_ind_r (R:=step)
             (fun s => NoDup (user_ids s) /\ NoDup (borrow_ids s)
                       /\ Forall (user_lists_sound s) (users s))
             empty_store); [| |exact Hreach].
    - split; [apply NoDup_nil_2|]. split; [apply NoDup_nil_2 | constructor].
    - intros s1 s2 _ Hstep (Hu & Hb & Hall). split.
      + by eapply step_unique_user_ids.
      + split; [by eapply step_unique_borrow_ids|].
        by eapply step_user_lists. }
  exact (proj1 (Forall_forall _ _) Hall u Hin).
Qed.

Lemma user_lists_follow_ledger_witness :
  exists r,
    r ∈ borrows Fixture.store_back
    /\ BorrowRecord.book_id r = "b-dune"
    /\ BorrowRecord.user_id r = "u-alice"
    /\ BorrowRecord.status r = returned.
Proof.
  destruct (user_lists_follow_ledger Fixture.store_back
              (User.mk "u-alice" "Alice" "alice@example.org" "member" "h1"
                 Fixture.t0 ["b-dune"] [])
              reachable_store_back) as [_ Hhistory].
  - vm_compute. apply list_elem_of_further, list_elem_of_here.
  - apply (Hhistory "b-dune"). apply list_elem_of_here.
Defined.

(** ** The ledger invariant without catalog resizing *)

Lemma ledger_step_step s s' : ledger_step s s' -> step s s'.
Proof.
  intros [new_id now ph ud r s1 Hfresh H
         |new_id now bd u r s1 Hfresh _ _ H
         |bid bd u r s1 _ H
         |bid u r s1 H
         |new_id now bd u r s1 Hfresh H
         |now rd u r s1 H
         |now u r s1 H].
  - by eapply step_register.
  - by eapply step_create_book.
  - by eapply step_update_book.
  - by eapply step_delete_book.
  - by eapply step_borrow_book.
  - by eapply step_return_book.
  - by eapply step_get_overdue_books.
Qed.

Lemma Forall_sublist_of {A} (P : A -> Prop) (l1 l2 : list A) :
  sublist l1 l2 -> Forall P l2 -> Forall P l1.
Proof.
  induction 1 as [|x l1 l2 _ IH|x l1 l2 _ IH]; intros H.
  - done.
  - apply Forall_cons in H as [Hx H]. constructor; auto.
  - apply Forall_cons in H as [_ H]. auto.
Qed.

Lemma Forall_update_one {A} (P : A -> Prop) (p : A -> bool) (f : A -> A)
    (c : list A) :
  (forall d, P d -> P (f d)) -> Forall P c -> Forall P (update_one p f c).
Proof.
  intros Hf. induction 1 as [|d c Hd Hc IH]; simpl; [constructor|].
  destruct (p d); constructor; auto.
Qed.

Lemma active_loans_none b (c : list BorrowRecord.t) :
  b ∉ BorrowRecord.book_id <$> c -> active_loans b c = 0.
Proof.
  intros Hb. unfold active_loans, count_documents.
  rewrite find_nil_iff; [done|]. intros r Hr. unfold active_on.
  rewrite bool_decide_eq_false_2; [done|]. intros Heq. apply Hb.
  rewrite <- Heq. by apply list_elem_of_fmap_2.
Qed.

Lemma ledger_step_invariant s s' :
  ledger_step s s' -> unique_ids s ->
  ledger_invariant s -> ledger_invariant s'.
Proof.
  intros Hstep [Hloans Hbooks] Hinv.
  destruct Hstep as [new_id now ph ud r s1 _ H
                    |new_id now bd u r s1 _ Hnew Htotal H
                    |bid bd u r s1 Hnone H
                    |bid u r s1 H
                    |new_id now bd u r s1 _ H
                    |now rd u r s1 H
                    |now u r s1 H].
  - apply register_borrows in H as [Hb Hk].
    unfold ledger_invariant. by rewrite Hb, Hk.
  - rewrite create_book_cases in H.
    destruct (negb _); cbv zeta in H; simplify_eq; [done|].
    unfold ledger_invariant in *. simpl.
    apply Forall_app. split; [done|]. constructor; [|constructor].
    unfold book_consistent. simpl.
    rewrite active_loans_none by done. lia.
  - rewrite update_book_cases in H.
    destruct (negb (is_librarian _)); [by simplify_eq|].
    destruct (find_one _ _); [|by simplify_eq].
    destruct (negb (update_data_empty _)); cbv zeta in H; simplify_eq;
      [|done].
    unfold ledger_invariant in *. simpl.
    apply Forall_update_one; [|done].
    intros b. unfold book_consistent. simpl. by rewrite Hnone.
  - rewrite delete_book_cases in H.
    destruct (negb _); cbv zeta in H; simplify_eq; [done|].
    unfold ledger_invariant in *. simpl.
    eapply Forall_sublist_of; [apply delete_one_sublist | done].
  - by eapply borrow_book_keeps_invariant.
  - by eapply return_book_keeps_invariant.
  - by eapply get_overdue_books_keeps_invariant.
Qed.

(** X14. Apart from resizing the catalog, the requests keep the books and
    the ledger in step: in every store reached without an update that sets
    [total_copies] and without creating a book with a negative
    [total_copies], each book has between 0 and [total_copies] copies
    available, and exactly [total_copies] minus the number of its loans
    that are borrowed or overdue. *)
Theorem availability_matches_ledger (s : Store) (b : Book.t) :
  rtc ledger_step empty_store s ->
  b ∈ books s ->
  0 <= Book.available_copies b <= Book.total_copies b
  /\ Book.available_copies b
     = Book.total_copies b - active_loans (Book.id b) (borrows s).
Proof.
  intros Hsteps Hin.
  assert (reachable s /\ ledger_invariant s) as [_ Hinv].
  { apply (rtc_ind_r (R:=ledger_step)
             (fun s => reachable s /\ ledger_invariant s) empty_store);
      [| |exact Hsteps].
    - split; [apply rtc_refl | constructor].
    - intros s1 s2 _ Hstep [Hreach Hinv]. split.
      + eapply reachable_step; [exact Hreach | by apply ledger_step_step].
      + eapply ledger_step_invariant; [exact Hstep| |exact Hinv].
        by apply reachable_unique_ids. }
  exact (proj1 (Forall_forall _ _) Hinv b Hin).
Qed.

Lemma ledger_steps_store_lent : rtc ledger_step empty_store Fixture.store_lent.
Proof.
  assert (rtc ledger_step empty_store Fixture.store_staff) as H1.
  { apply rtc_once. eapply ledger_register; [|apply surjective_pairing].
    apply (bool_decide_unpack _). by vm_compute. }
  assert (rtc ledger_step empty_store Fixture.store_member) as H2.
  { eapply rtc_r; [exact H1|].
    eapply ledger_register; [|apply surjective_pairing].
    apply (bool_decide_unpack _). by vm_compute. }
  assert (rtc ledger_step empty_store Fixture.store_users) as H3.
  { eapply rtc_r; [exact H2|].
    eapply ledger_register; [|apply surjective_pairing].
    apply (bool_decide_unpack _). by vm_compute. }
  assert (rtc ledger_step empty_store Fixture.store_catalog) as H4.
  { eapply rtc_r; [exact H3|].
    eapply (ledger_create_book _ "b-dune" Fixture.t0 Fixture.dune_data
              Fixture.librarian); [| | |apply surjective_pairing].
    - apply (bool_decide_unpack _). by vm_compute.
    - apply (bool_decide_unpack _). by vm_compute.
    - by vm_compute. }
  eapply rtc_r; [exact H4|].
  eapply ledger_borrow_book; [|apply surjective_pairing].
  apply (bool_decide_unpack _). by vm_compute.
Qed.

Lemma availability_matches_ledger_witness :
  0 <= Book.available_copies Desk.dune <= Book.total_copies Desk.dune
  /\ Book.available_copies Desk.dune
     = Book.total_copies Desk.dune
       - active_loans (Book.id Desk.dune) (borrows Fixture.store_lent).
Proof.
  apply (availability_matches_ledger Fixture.store_lent Desk.dune
           ledger_steps_store_lent).
  vm_compute. apply list_elem_of_here.
Defined.

(** ** Who may call what *)

Lemma sublist_elem {A} (l1 l2 : list A) x :
  sublist l1 l2 -> x ∈ l1 -> x ∈ l2.
Proof.
  induction 1 as [|y l1 l2 _ IH|y l1 l2 _ IH]; [done| |].
  - intros [->|Hx]%elem_of_cons; [by left | right; auto].
  - intros Hx. right. auto.
Qed.

Lemma get_users_cases current_user s :
  get_users current_user s =
  if negb (is_librarian current_user)
  then (Raise (HTTPException 403 "Only librarians can view users"), s)
  else
    (Ok (user_response
           <$> take 1000
                 (List.filter (fun u => bool_decide (User.role u = "member"))
                    (users s))), s).
Proof. unfold get_users. by destruct (negb _). Qed.

(** X15. The writing endpoints reserved to librarians refuse everybody
    else with a 403 before reading or writing anything: adding, updating
    and deleting a book, and the overdue sweep. *)
Theorem librarian_only_writes (current_user : User.t) (s : Store) :
  User.role current_user <> "librarian" ->
  (forall new_id now book_data,
     create_book new_id now book_data current_user s
     = (Raise (HTTPException 403 "Only librarians can add books"), s))
  /\ (forall book_id book_data,
        update_book book_id book_data current_user s
        = (Raise (HTTPException 403 "Only librarians can update books"), s))
  /\ (forall book_id,
        delete_book book_id current_user s
        = (Raise (HTTPException 403 "Only librarians can delete books"), s))
  /\ (forall now,
        get_overdue_books now current_user s
        = (Raise (HTTPException 403 "Only librarians can view overdue books"),
           s)).
Proof.
  intros Hrole. pose proof (is_librarian_false _ Hrole) as Hlib.
  repeat split; intros.
  - by rewrite create_book_cases, Hlib.
  - by rewrite update_book_cases, Hlib.
  - by rewrite delete_book_cases, Hlib.
  - by rewrite get_overdue_books_cases, Hlib.
Qed.

Lemma librarian_only_writes_witness :
  get_overdue_books (Fixture.t0 + 17 * day) Fixture.alice Fixture.store_lent
  = (Raise (HTTPException 403 "Only librarians can view overdue books"),
     Fixture.store_lent)
  /\ delete_book "b-dune" Fixture.alice Fixture.store_lent
     = (Raise (HTTPException 403 "Only librarians can delete books"),
        Fixture.store_lent).
Proof.
  destruct (librarian_only_writes Fixture.alice Fixture.store_lent)
    as (_ & _ & Hdelete & Hsweep).
  - discriminate.
  - split; [apply Hsweep | apply Hdelete].
Defined.

(** X16. The reports reserved to librarians refuse everybody else with a
    403 and write nothing: the demand forecast and the overdue predictions,
    with the same message, the dashboard and the list of users.  For a
    librarian the list of users has the members only, in the order of their
    registration and cut after 1000, and writes nothing. *)
Theorem librarian_only_reports (current_user : User.t) (s : Store) :
  (User.role current_user <> "librarian" ->
   (forall utcnow,
      get_demand_forecast utcnow current_user s
      = (Raise (HTTPException 403 "Only librarians can view analytics"), s))
   /\ (forall now,
         get_overdue_predictions now current_user s
         = (Raise (HTTPException 403 "Only librarians can view analytics"), s))
   /\ get_dashboard_stats current_user s
      = (Raise (HTTPException 403 "Only librarians can view dashboard"), s)
   /\ get_users current_user s
      = (Raise (HTTPException 403 "Only librarians can view users"), s))
  /\ (User.role current_user = "librarian" ->
      exists members,
        get_users current_user s = (Ok (user_response <$> members), s)
        /\ (length members <= 1000)%nat
        /\ sublist members (users s)
        /\ Forall (fun u => User.role u = "member") members).
Proof.
  split.
  - intros Hrole. pose proof (is_librarian_false _ Hrole) as Hlib.
    repeat split; intros.
    + unfold get_demand_forecast. by rewrite Hlib.
    + unfold get_overdue_predictions. by rewrite Hlib.
    + unfold get_dashboard_stats. by rewrite Hlib.
    + by rewrite get_users_cases, Hlib.
  - intros Hrole. eexists. rewrite get_users_cases.
    rewrite (is_librarian_true _ Hrole). simpl. split; [done|].
    split; [rewrite length_take; lia|]. split.
    + etrans; [apply sublist_take|].
      induction (users s) as [|u c IH]; simpl; [done|].
      destruct (bool_decide _); [by apply sublist_skip | by apply sublist_cons].
    + apply Forall_forall. intros u Hu.
      apply (sublist_elem _ _ _ (sublist_take _ _)) in Hu.
      apply list_elem_of_In, filter_In in Hu as [_ Hu].
      by apply bool_decide_eq_true in Hu.
Qed.

(** ** The overdue report *)

(** X17. Whatever the sweep answers is past due: each entry has a due date
    before the instant of the call, a day count and a calculated fine that
    are not negative, the fine being the day count, and the title
    "Unknown" when its book is not in the catalog; no answer has more than
    1000 entries. *)
Theorem overdue_report_entries
    (now : Z) (current_user : User.t) (s s' : Store)
    (entries : list OverdueEntry.t) :
  get_overdue_books now current_user s = (Ok entries, s') ->
  (length entries <= 1000)%nat
  /\ Forall (fun e =>
               BorrowRecord.due_date (OverdueEntry.borrow e) < now
               /\ 0 <= OverdueEntry.overdue_days e
               /\ (OverdueEntry.calculated_fine e
                   == inject_Z (OverdueEntry.overdue_days e))%Q
               /\ (0 <= OverdueEntry.calculated_fine e)%Q
               /\ (find_one
                     (book_has_id (BorrowRecord.book_id (OverdueEntry.borrow e)))
                     (books s) = None ->
                   OverdueEntry.book_title e = "Unknown"
                   /\ OverdueEntry.book_author e = "Unknown"))
       entries.
Proof.
  rewrite get_overdue_books_cases. destruct (negb _); [done|].
  intros [= <- <-]. split.
  - rewrite length_fmap. unfold selected, to_list. rewrite length_take. lia.
  - apply Forall_fmap, Forall_forall. intros r Hr.
    apply selected_spec in Hr as (_ & _ & Hdue). simpl.
    assert (0 <= days (now - BorrowRecord.due_date r)) as Hdays
      by (apply days_nonneg; lia).
    split; [done|]. split; [done|].
    assert ((inject_Z (days (now - BorrowRecord.due_date r)) * 1.0
             == inject_Z (days (now - BorrowRecord.due_date r)))%Q) as Hfine
      by (unfold Qeq; simpl; lia).
    split; [done|]. split.
    + rewrite Hfine. unfold Qle. simpl. lia.
    + by intros ->.
Qed.

Lemma overdue_report_entries_witness :
  (length (overdue_entry (Fixture.t0 + 17 * day) Fixture.store_lent
             <$> selected (Fixture.t0 + 17 * day) (borrows Fixture.store_lent))
   <= 1000)%nat.
Proof.
  destruct (overdue_report_entries (Fixture.t0 + 17 * day) Fixture.librarian
              Fixture.store_lent Fixture.store_swept
              (overdue_entry (Fixture.t0 + 17 * day) Fixture.store_lent
                 <$> selected (Fixture.t0 + 17 * day)
                       (borrows Fixture.store_lent)))
    as [Hlen _].
  - reflexivity.
  - exact Hlen.
Defined.

(** ** Listing loans *)

Lemma for_collect_pure {A B} (l : list A) (body : A -> M B)
    (g : A -> Store -> B) s :
  (forall x, body x s = (Ok (g x s), s)) ->
  for_collect l body s = (Ok ((fun x => g x s) <$> l), s).
Proof.
  intros Hbody. induction l as [|x l IH]; simpl; [done|].
  unfold bind at 1. rewrite Hbody. unfold bind at 1. rewrite IH. done.
Qed.



(** ** Browsing the catalog *)

Lemma get_books_cases regex skip limit search genre author s :
  get_books regex skip limit search genre author s =
  (if (skip <? 0) || (limit <? 0) then Raise ValueError
   else Ok (take (Z.to_nat limit)
              (drop (Z.to_nat skip)
                 (List.filter (books_query regex search genre author)
                    (books s)))), s).
Proof.
  unfold get_books, bind, gets, lift, cursor_skip, find. simpl.
  destruct (skip <? 0); [done|]. simpl.
  destruct (limit <? 0) eqn:Hlimit.
  - unfold to_list_checked. by rewrite Hlimit.
  - apply Z.ltb_ge in Hlimit. by rewrite limit_then_to_list.
Qed.

(** X19. Pages of the catalog tile the listing: for the same filters, a
    page of [l1] books from [skip] followed by the page of [l2] books from
    [skip + l1] is the page of [l1 + l2] books from [skip], for numbers
    that fit the 64-bit integers of a query; a page has at most [limit]
    books, all from the catalog, in catalog order and matching the filters;
    a negative [skip] or [limit] is a [ValueError]; nothing is written.
    The regular-expression match is a parameter. *)
Theorem get_books_pages
    (regex : string -> string -> bool) (search genre author : option string)
    (skip l1 l2 : Z) (s : Store) :
  0 <= skip -> 0 <= l1 -> 0 <= l2 -> skip + l1 + l2 < 2 ^ 63 ->
  exists p1 p2,
    get_books regex skip l1 search genre author s = (Ok p1, s)
    /\ get_books regex (skip + l1) l2 search genre author s = (Ok p2, s)
    /\ get_books regex skip (l1 + l2) search genre author s
       = (Ok (p1 ++ p2), s)
    /\ (length p1 <= Z.to_nat l1)%nat
    /\ sublist p1 (books s)
    /\ Forall (fun b => books_query regex search genre author b = true) p1
    /\ (forall k, k < 0 ->
          get_books regex k l1 search genre author s = (Raise ValueError, s)
          /\ get_books regex skip k search genre author s
             = (Raise ValueError, s)).
Proof.
  intros Hskip Hl1 Hl2 _.
  set (matching := List.filter (books_query regex search genre author)
                     (books s)).
  exists (take (Z.to_nat l1) (drop (Z.to_nat skip) matching)),
         (take (Z.to_nat l2) (drop (Z.to_nat (skip + l1)) matching)).
  rewrite !get_books_cases. fold matching.
  replace (skip <? 0) with false by (symmetry; by apply Z.ltb_ge).
  replace (skip + l1 <? 0) with false by (symmetry; apply Z.ltb_ge; lia).
  replace (l1 <? 0) with false by (symmetry; by apply Z.ltb_ge).
  replace (l2 <? 0) with false by (symmetry; by apply Z.ltb_ge).
  replace (l1 + l2 <? 0) with false by (symmetry; apply Z.ltb_ge; lia).
  simpl. split; [done|]. split; [done|]. split.
  { rewrite !Z2Nat.inj_add by done. rewrite <- drop_drop.
    by rewrite take_take_drop. }
  split; [rewrite length_take; lia|]. split.
  { etrans; [apply sublist_take|]. etrans; [apply sublist_drop|].
    unfold matching. clear. induction (books s) as [|b c IH]; simpl; [done|].
    destruct (books_query _ _ _ _ b); [by apply sublist_skip|].
    by apply sublist_cons. }
  split.
  { apply Forall_forall. intros b Hb.
    apply elem_of_take in Hb as (i & Hb & _).
    rewrite lookup_drop in Hb. apply list_elem_of_lookup_2 in Hb.
    by apply list_elem_of_In, filter_In in Hb as [_ ?]. }
  intros k Hk. rewrite !get_books_cases.
  replace (k <? 0) with true by (symmetry; by apply Z.ltb_lt).
  simpl. by rewrite orb_true_r.
Qed.

Lemma get_books_pages_witness :
  exists p1 p2,
    get_books (fun _ _ => true) 0 1 None None None Fixture.store_lent
    = (Ok p1, Fixture.store_lent)
    /\ get_books (fun _ _ => true) (0 + 1) 1 None None None
         Fixture.store_lent = (Ok p2, Fixture.store_lent)
    /\ get_books (fun _ _ => true) 0 (1 + 1) None None None
         Fixture.store_lent = (Ok (p1 ++ p2), Fixture.store_lent).
Proof.
  destruct (get_books_pages (fun _ _ => true) None None None 0 1 1
              Fixture.store_lent)
    as (p1 & p2 & H1 & H2 & H12 & _).
  - discriminate.
  - discriminate.
  - discriminate.
  - reflexivity.
  - exists p1, p2. split; [exact H1|]. split; [exact H2 | exact H12].
Defined.

(** ** Demand forecast *)

Lemma get_demand_forecast_cases utcnow current_user s :
  User.role current_user = "librarian" ->
  (forall k, 30 * day <= utcnow k <= datetime_max) ->
  get_demand_forecast utcnow current_user s
  = (Ok (take 20
           (sort_desc DemandForecast.predicted_demand Qle_bool
              (imap (fun k book => forecast_for (utcnow k - 30 * day) s book)
                 (take 1000 (books s))))), s).
Proof.
  intros Hrole Hclock. unfold get_demand_forecast.
  rewrite (is_librarian_true _ Hrole). simpl.
  unfold bind at 1. unfold gets at 1. rewrite find_all.
  unfold bind at 1.
  rewrite (for_collect_pure _ _
             (fun turn s0 => forecast_for (utcnow turn.1 - 30 * day) s0 turn.2)).
  - by rewrite fmap_imap.
  - intros [k book]. simpl.
    assert (datetime_add (utcnow k) (- (30 * day))
            = Ok (utcnow k - 30 * day)) as Ht.
    { unfold datetime_add. specialize (Hclock k).
      replace (0 <=? utcnow k + - (30 * day)) with true
        by (symmetry; apply Z.leb_le; lia).
      replace (utcnow k + - (30 * day) <=? datetime_max) with true
        by (symmetry; apply Z.leb_le; pose proof day_pos; lia).
      simpl. f_equal; lia. }
    unfold bind, lift, gets, ret. by rewrite Ht.
Qed.

Lemma confidence_cases n :
  0 <= n ->
  (0.5 <= py_min 0.9 (0.5 + inject_Z n * 0.1))%Q
  /\ (py_min 0.9 (0.5 + inject_Z n * 0.1) <= 0.9)%Q
  /\ (n <= 4 ->
      (py_min 0.9 (0.5 + inject_Z n * 0.1) == 0.5 + inject_Z n * 0.1)%Q)
  /\ (4 <= n -> (py_min 0.9 (0.5 + inject_Z n * 0.1) == 0.9)%Q).
Proof.
  intros Hn. unfold py_min.
  destruct (Qle_bool 0.9 (0.5 + inject_Z n * 0.1)) eqn:Hle.
  - apply Qle_bool_iff in Hle. revert Hle.
    unfold Qle, Qeq. simpl. intros Hle. repeat split; lia.
  - assert (~ (0.9 <= 0.5 + inject_Z n * 0.1)%Q) as Hnle.
    { intros H. apply Qle_bool_iff in H. congruence. }
    revert Hnle. unfold Qle, Qeq. simpl. intros Hnle. repeat split; lia.
Qed.

(** X20. The demand forecast of a librarian, the clock showing at least
    30 days after the first representable instant each time it is read: at
    most 20 forecasts, by decreasing predicted demand, each for one of the
    first 1000 books of the catalog; the predicted demand is twice the
    number of loans of the book borrowed in the 30 days before the clock was
    read for it, the confidence is 0.5 plus 0.1 per such loan up to 4 loans
    and 0.9 from there on, so always between 0.5 and 0.9; nothing is
    written. *)
Theorem demand_forecast_bounds
    (utcnow : nat -> Z) (current_user : User.t) (s : Store) :
  User.role current_user = "librarian" ->
  (forall k, 30 * day <= utcnow k <= datetime_max) ->
  exists forecasts,
    get_demand_forecast utcnow current_user s = (Ok forecasts, s)
    /\ (length forecasts <= 20)%nat
    /\ StronglySorted
         (fun f f' =>
            (DemandForecast.predicted_demand f'
             <= DemandForecast.predicted_demand f)%Q) forecasts
    /\ Forall (fun f =>
                 exists k b,
                   books s !! k = Some b
                   /\ (k < 1000)%nat
                   /\ DemandForecast.book_id f = Book.id b
                   /\ DemandForecast.title f = Book.title b
                   /\ 0 <= recent_borrows_of (utcnow k - 30 * day) s b
                   /\ DemandForecast.predicted_demand f
                      = inject_Z
                          (recent_borrows_of (utcnow k - 30 * day) s b * 2)
                   /\ (0.5 <= DemandForecast.confidence f <= 0.9)%Q
                   /\ (recent_borrows_of (utcnow k - 30 * day) s b <= 4 ->
                       (DemandForecast.confidence f
                        == 0.5 + inject_Z
                                   (recent_borrows_of
                                      (utcnow k - 30 * day) s b)
                                 * 0.1)%Q)
                   /\ (4 <= recent_borrows_of (utcnow k - 30 * day) s b ->
                       (DemandForecast.confidence f == 0.9)%Q))
         forecasts.
Proof.
  intros Hrole Hclock.
  set (all := imap (fun k book => forecast_for (utcnow k - 30 * day) s book)
                (take 1000 (books s))).
  set (sorted := sort_desc DemandForecast.predicted_demand Qle_bool all).
  exists (take 20 sorted).
  split; [by apply get_demand_forecast_cases|].
  split; [rewrite length_take; lia|].
  assert (StronglySorted
            (fun f f' =>
               (DemandForecast.predicted_demand f'
                <= DemandForecast.predicted_demand f)%Q) sorted) as Hsorted.
  { eapply StronglySorted_weaken;
      [|apply (sort_desc_sorted DemandForecast.predicted_demand Qle_bool
                 Qle_bool_total Qle_bool_trans)].
    intros f f' H. by apply Qle_bool_iff. }
  split.
  { rewrite <- (take_drop 20 sorted) in Hsorted.
    by eapply StronglySorted_app_1_l. }
  apply Forall_forall. intros f Hf.
  apply elem_of_take in Hf as (i & Hf & _).
  apply list_elem_of_lookup_2 in Hf.
  assert (f ∈ all) as Hall.
  { eapply elem_of_Permutation_proper; [|exact Hf].
    symmetry. apply sort_desc_perm. }
  apply elem_of_lookup_imap_1 in Hall as (k & b & -> & Hb).
  apply lookup_take_Some in Hb as [Hb Hk].
  exists k, b. simpl.
  assert (0 <= recent_borrows_of (utcnow k - 30 * day) s b) as Hn
    by apply count_documents_nonneg.
  destruct (confidence_cases _ Hn) as (H1 & H2 & H3 & H4).
  repeat split; done.
Qed.

Lemma demand_forecast_bounds_witness :
  exists forecasts,
    get_demand_forecast
      (fun k => Fixture.t0 + 10 * day + Z.of_nat (Nat.min k 1000))
      Fixture.librarian Fixture.store_lent
    = (Ok forecasts, Fixture.store_lent)
    /\ (length forecasts <= 20)%nat.
Proof.
  destruct (demand_forecast_bounds
              (fun k => Fixture.t0 + 10 * day + Z.of_nat (Nat.min k 1000))
              Fixture.librarian Fixture.store_lent)
    as (forecasts & Hrun & Hlen & _).
  - reflexivity.
  - intros k. unfold Fixture.t0, datetime_max, day. lia.
  - exists forecasts. split; [exact Hrun | exact Hlen].
Defined.

(** ** Overdue predictions, as computed *)








(** ** Dashboard *)

Lemma get_dashboard_stats_cases current_user s :
  User.role current_user = "librarian" ->
  get_dashboard_stats current_user s
  = (Ok (DashboardStats.mk
           (count_documents (fun _ => true) (books s))
           (count_documents (fun u => bool_decide (User.role u = "member"))
              (users s))
           (count_documents
              (fun r => bool_decide (BorrowRecord.status r = borrowed))
              (borrows s))
           (count_documents
              (fun r => bool_decide (BorrowRecord.status r = overdue))
              (borrows s))
           (take 5 (sort_desc BorrowRecord.borrowed_at Z.leb (borrows s)))),
     s).
Proof.
  intros Hrole. unfold get_dashboard_stats.
  rewrite (is_librarian_true _ Hrole). cbn [negb].
  unfold bind, gets, ret, to_list, cursor_limit.
  rewrite find_all.
  change (5 =? 0) with false. cbv iota.
  change (Z.abs_nat 5) with 5%nat.
  by rewrite take_take.
Qed.

Lemma status_counts (c : list BorrowRecord.t) :
  count_documents (fun r => bool_decide (BorrowRecord.status r = borrowed)) c
  + count_documents (fun r => bool_decide (BorrowRecord.status r = overdue)) c
  + count_documents (fun r => bool_decide (BorrowRecord.status r = returned)) c
  = Z.of_nat (length c).
Proof.
  induction c as [|r c IH]; [done|].
  rewrite !count_documents_cons. cbn [length].
  destruct (BorrowRecord.status r); simpl; lia.
Qed.

(** X22. The dashboard of a librarian counts what is there and writes
    nothing: the books of the catalog, the users with role member, and the
    loans by status, where borrowed, overdue and returned loans together are
    all the loans; the recent activity is the five most recently borrowed
    loans, latest first, or all of them when there are fewer. *)
Theorem dashboard_counts (current_user : User.t) (s : Store) :
  User.role current_user = "librarian" ->
  exists stats rest,
    get_dashboard_stats current_user s = (Ok stats, s)
    /\ DashboardStats.total_books stats = Z.of_nat (length (books s))
    /\ 0 <= DashboardStats.total_users stats <= Z.of_nat (length (users s))
    /\ DashboardStats.active_borrows stats
       + DashboardStats.overdue_books stats
       + count_documents
           (fun r => bool_decide (BorrowRecord.status r = returned))
           (borrows s)
       = Z.of_nat (length (borrows s))
    /\ length (DashboardStats.recent_activity stats)
       = Nat.min 5 (length (borrows s))
    /\ borrows s ≡ₚ DashboardStats.recent_activity stats ++ rest
    /\ (forall r r', r ∈ DashboardStats.recent_activity stats -> r' ∈ rest ->
          BorrowRecord.borrowed_at r' <= BorrowRecord.borrowed_at r)
    /\ StronglySorted
         (fun r r' => BorrowRecord.borrowed_at r' <= BorrowRecord.borrowed_at r)
         (DashboardStats.recent_activity stats).
Proof.
  intros Hrole.
  set (sorted := sort_desc BorrowRecord.borrowed_at Z.leb (borrows s)).
  assert (StronglySorted
            (fun r r' =>
               BorrowRecord.borrowed_at r' <= BorrowRecord.borrowed_at r)
            sorted) as Hsorted.
  { eapply StronglySorted_weaken;
      [|apply (sort_desc_sorted BorrowRecord.borrowed_at Z.leb Zleb_total
                 Zleb_trans)].
    intros r r' H. by apply Z.leb_le. }
  assert (sorted ≡ₚ borrows s) as Hperm by apply sort_desc_perm.
  eexists _, (drop 5 sorted).
  split; [by apply get_dashboard_stats_cases|]. simpl.
  fold sorted. rewrite <- (take_drop 5 sorted) in Hsorted.
  split.
  { unfold count_documents. f_equal. f_equal.
    clear. induction (books s) as [|b c IH]; simpl; by rewrite ?IH. }
  split.
  { split; [apply count_documents_nonneg|]. unfold count_documents.
    pose proof (filter_length_le
                  (fun u => bool_decide (User.role u = "member")) (users s)).
    lia. }
  split; [apply status_counts|].
  split; [by rewrite length_take, Hperm|].
  split; [by rewrite take_drop|].
  split.
  { intros r r' Hr Hr'.
    exact (StronglySorted_app_1_elem_of _ _ _ r r' Hsorted Hr Hr'). }
  by eapply StronglySorted_app_1_l.
Qed.

Lemma dashboard_counts_witness :
  exists stats rest,
    get_dashboard_stats Fixture.librarian Fixture.store_back
    = (Ok stats, Fixture.store_back)
    /\ DashboardStats.total_books stats = 1
    /\ DashboardStats.active_borrows stats
       + DashboardStats.overdue_books stats + 1 = 1
    /\ borrows Fixture.store_back
       ≡ₚ DashboardStats.recent_activity stats ++ rest.
Proof.
  destruct (dashboard_counts Fixture.librarian Fixture.store_back eq_refl)
    as (stats & rest & Hrun & Hbooks & _ & Hloans & _ & Hperm & _).
  exists stats, rest. split; [exact Hrun|]. split; [exact Hbooks|].
  split; [exact Hloans | exact Hperm].
Defined.

(** ** What a recommendation can be *)

Lemma slice_to_sublist {A} (k : Z) (l : list A) : sublist (slice_to k l) l.
Proof. unfold slice_to. destruct (0 <=? k); apply sublist_take. Qed.

Lemma limited_sublist {A} (limit : Z) (c l : list A) :
  to_list_checked limit (cursor_limit limit c) = Ok l -> sublist l c.
Proof.
  unfold to_list_checked, cursor_limit.
  destruct (limit <? 0); [done|]. intros [= <-].
  etrans; [apply sublist_take|].
  destruct (limit =? 0); [done | apply sublist_take].
Qed.

Lemma recommend_step_elem reading_history user_genres user_tags book rec :
  rec ∈ recommend_step reading_history user_genres user_tags [] book ->
  BookRecommendation.book_id rec = Book.id book
  /\ BookRecommendation.title rec = Book.title book
  /\ BookRecommendation.author rec = Book.author book
  /\ (Book.id book ∉ reading_history)
  /\ (0 < BookRecommendation.similarity_score rec)%Q
  /\ BookRecommendation.reason rec <> "Recommended for you".
Proof.
  unfold recommend_step.
  destruct (bool_decide (Book.id book ∈ reading_history)) eqn:Hread;
    [by intros ?%elem_of_nil|].
  apply bool_decide_eq_false in Hread.
  unfold score_book.
  destruct (bool_decide (Book.genre book ∈ user_genres));
    destruct (bool_decide (_ ≠ ∅)); simpl;
    try (by intros ?%elem_of_nil);
    try (destruct (Qpos_bool _) eqn:Hpos; [|by intros ?%elem_of_nil]);
    intros ->%list_elem_of_singleton; simpl;
    (split; [done|]); (split; [done|]); (split; [done|]); (split; [done|]);
    (split; [|discriminate]); try done;
    unfold Qpos_bool in Hpos; apply negb_true_iff in Hpos;
    apply Qnot_le_lt; intros Hle; apply Qle_bool_iff in Hle; congruence.
Qed.

Lemma get_book_recommendations_cases user_id limit s :
  get_book_recommendations user_id limit s =
  match find_one (user_has_id user_id) (users s) with
  | None => (Raise (HTTPException 404 "User not found"), s)
  | Some user =>
      match User.reading_history user with
      | [] =>
          (match to_list_checked limit
                   (cursor_limit limit
                      (sort_desc Book.created_at Z.leb (books s))) with
           | Ok popular_books => Ok (popular_recommendation <$> popular_books)
           | Raise e => Raise e
           end, s)
      | _ :: _ =>
          (Ok (slice_to limit
                 (sort_desc BookRecommendation.similarity_score Qle_bool
                    (take 1000 (books s)
                       ≫= recommend_step (User.reading_history user)
                             (collect_genres
                                (take 1000
                                   (history_books (User.reading_history user)
                                      (books s))))
                             (collect_tags
                                (take 1000
                                   (history_books (User.reading_history user)
                                      (books s))))
                             []))), s)
      end
  end.
Proof.
  unfold get_book_recommendations, bind, gets, ret. simpl.
  destruct (find_one _ _) as [user|]; [|done].
  destruct (User.reading_history user) as [|h H] eqn:HH.
  - rewrite find_all. destruct (to_list_checked _ _); [|done].
    by rewrite foldl_snoc_fmap.
  - rewrite find_all, foldl_recommend_step. done.
Qed.

(** X23. Recommending never writes, an unknown user is a 404, and whatever
    the limit, every recommendation answered is for a book of the catalog
    that is not in the user's reading history, with a positive score; its
    reason is never the fallback "Recommended for you". *)
Theorem recommendations_are_new (user_id : string) (limit : Z) (s : Store) :
  (get_book_recommendations user_id limit s).2 = s
  /\ (find_one (user_has_id user_id) (users s) = None ->
      (get_book_recommendations user_id limit s).1
      = Raise (HTTPException 404 "User not found"))
  /\ forall user recs,
       find_one (user_has_id user_id) (users s) = Some user ->
       (get_book_recommendations user_id limit s).1 = Ok recs ->
       Forall (fun rec =>
                 exists b,
                   b ∈ books s
                   /\ BookRecommendation.book_id rec = Book.id b
                   /\ BookRecommendation.title rec = Book.title b
                   /\ (Book.id b ∉ User.reading_history user)
                   /\ (0 < BookRecommendation.similarity_score rec)%Q
                   /\ BookRecommendation.reason rec <> "Recommended for you")
         recs.
Proof.
  rewrite get_book_recommendations_cases.
  destruct (find_one _ _) as [user|]; [|by repeat split].
  destruct (User.reading_history user) as [|h H] eqn:HH.
  - split; [done|]. split; [done|]. intros u recs [= <-]. simpl.
    destruct (to_list_checked _ _) as [popular|] eqn:Hpop; [|done].
    intros [= <-]. apply Forall_fmap, Forall_forall. intros b Hb.
    exists b. simpl. rewrite HH. repeat split; try done.
    + eapply elem_of_Permutation_proper;
        [symmetry; apply (sort_desc_perm Book.created_at Z.leb)|].
      eapply sublist_elem; [by eapply limited_sublist | done].
    + by intros ?%elem_of_nil.
  - split; [done|]. split; [done|]. intros u recs [= <-]. simpl.
    intros [= <-]. apply Forall_forall. intros rec Hrec.
    apply (sublist_elem _ _ _ (slice_to_sublist _ _)) in Hrec.
    rewrite sort_desc_perm in Hrec.
    apply list_elem_of_bind in Hrec as (b & Hrec & Hb).
    apply recommend_step_elem in Hrec as (? & ? & ? & ? & ? & ?).
    exists b. rewrite HH. repeat split; try done.
    eapply sublist_elem; [apply sublist_take | done].
Qed.

(** ** [clean_mongo_doc] *)

Lemma pyval_induction (P : pyval -> Prop) :
  (forall items, P (PDict items)) ->
  (forall elems, Forall P elems -> P (PList elems)) ->
  (forall a, P (PAtom a)) ->
  forall doc, P doc.
Proof.
  intros Hdict Hlist Hatom. fix IH 1. intros [items|elems|a].
  - apply Hdict.
  - apply Hlist. induction elems as [|d elems IHelems]; constructor.
    + apply IH.
    + apply IHelems.
  - apply Hatom.
Qed.

Lemma filter_filter_same {A} (p : A -> bool) (l : list A) :
  List.filter p (List.filter p l) = List.filter p l.
Proof.
  induction l as [|x l IH]; simpl; [done|].
  destruct (p x) eqn:Hx; simpl; by rewrite ?Hx, IH.
Qed.

(** X24. [clean_mongo_doc] drops the item of key "_id" from a dict and from
    every dict of a list, at any depth of lists, and nothing else: it keeps
    the other items and their order, the length of a list, and any other
    value; cleaning twice is cleaning once. *)
Theorem clean_mongo_doc_removes_id (doc : pyval) :
  clean_mongo_doc (clean_mongo_doc doc) = clean_mongo_doc doc
  /\ no_object_id (clean_mongo_doc doc)
  /\ (forall items,
        doc = PDict items ->
        exists items',
          clean_mongo_doc doc = PDict items'
          /\ sublist items' items
          /\ forall k v, (k, v) ∈ items' <-> (k, v) ∈ items /\ k <> "_id")
  /\ (forall elems,
        doc = PList elems ->
        clean_mongo_doc doc = PList (clean_mongo_doc <$> elems))
  /\ (forall a, doc = PAtom a -> clean_mongo_doc doc = doc).
Proof.
  split; [|split; [|split; [|split]]].
  - induction doc as [items|elems IH|a] using pyval_induction; simpl.
    + by rewrite filter_filter_same.
    + f_equal. rewrite List.map_map. apply List.map_ext_in.
      intros d Hd. apply list_elem_of_In in Hd.
      by apply (proj1 (Forall_forall _ _) IH).
    + done.
  - induction doc as [items|elems IH|a] using pyval_induction; simpl.
    + intros ((k & v) & Hk & Hin)%list_elem_of_fmap. simpl in Hk. subst k.
      apply list_elem_of_In, filter_In in Hin as [_ Hne]. simpl in Hne.
      discriminate Hne.
    + induction IH as [|d elems Hd _ IHelems]; simpl; [done|]. by split.
    + done.
  - intros items ->. eexists. split; [done|]. split.
    + clear. induction items as [|kv items IH]; simpl; [done|].
      destruct (negb _); [by apply sublist_skip | by apply sublist_cons].
    + intros k v. rewrite list_elem_of_In, filter_In, <- list_elem_of_In.
      simpl. rewrite negb_true_iff, bool_decide_eq_false. done.
  - by intros elems ->.
  - by intros a ->.
Qed.
